(** * Plan-Execute-Recover engine of ai-agent-engine: a shallow embedding

    The development follows the Python sources of the engine:

    - [core/failure_classifier.py]  (FailureType, classify_failure)
    - [core/state.py]               (DependencyState)
    - [tools/schemas.py]            (Step, PlannerOutput, ExecutionResult)
    - [core/planner_validator.py]   (validate_plan and its checks)
    - [core/executor.py]            (execute_plan)
    - [core/replanner.py]           (replan_gateway)
    - [core/agent.py]               (run_with_recovery, run_agent)
    - [app/runner.py], [tools/registry.py]  (run_tool)
    - [tools/usage_tracker.py]      (QuotaManager, track_cost)
    - [core/responder.py]           (respond)

    Python [int] is [Z], [str] is [string] (ASCII text), a [dict] used as a
    map is a [gmap], a [set] is a [gset].  Exceptions are explicit sums.
    Plans, steps and dependency declarations are the typed records of the
    data model; a tool result is the dict of [tool_response], any of whose
    keys but ["success"] may be missing.  The tools, the planner and the
    quota manager are an interface over an explicit outside world, so that
    every statement holds for all of their behaviours; the runner and the
    quota manager are also modelled on their own, over the handlers of the
    tools and over the usage file.  Log lines are left out, but for the two
    whose evaluation can raise; wall-clock durations enter only through
    the answer of a handler that was late.  The methods of the quota
    manager may raise, as every collaborator may.  The [while True] loop of
    [run_with_recovery] takes fuel and is shown to return.  The recursion of
    [dfs] takes the number of frames the interpreter leaves it: when they
    run out, [RecursionError] is raised. *)

From Stdlib Require Import Ascii String.
From stdpp Require Import gmap strings list pretty relations.

Open Scope Z_scope.
Open Scope string_scope.

(* ===================================================================== *)
(** * Python string primitives used by the engine                          *)
(* ===================================================================== *)

Module PyStr.

(** [c.lower()] on one ASCII character. *)
Definition lower_ascii (c : ascii) : ascii :=
  let n := nat_of_ascii c in
  if ((65 <=? n)%nat && (n <=? 90)%nat)%bool then ascii_of_nat (n + 32) else c.

(** [s.lower()]. *)
Fixpoint lower (s : string) : string :=
  match s with
  | EmptyString => EmptyString
  | String c s' => String (lower_ascii c) (lower s')
  end.

(** [s.startswith(p)]. *)
Fixpoint startswith (p s : string) : bool :=
  match p, s with
  | EmptyString, _ => true
  | String _ _, EmptyString => false
  | String a p', String b s' => if decide (a = b) then startswith p' s' else false
  end.

(** [needle in s] for strings: substring search. *)
Fixpoint contains (needle s : string) : bool :=
  startswith needle s ||
  match s with
  | EmptyString => false
  | String _ s' => contains needle s'
  end.

(** [any(k in s for k in ks)]. *)
Definition any_in (ks : list string) (s : string) : bool :=
  existsb (fun k => contains k s) ks.

(** Python's [str.isspace] on one ASCII character: TAB..CR, FS..US, SPACE. *)
Definition is_space (c : ascii) : bool :=
  let n := nat_of_ascii c in
  (((9 <=? n)%nat && (n <=? 13)%nat) || ((28 <=? n)%nat && (n <=? 32)%nat))%bool.

(** Truthiness of [s.strip()]: some character is not whitespace. *)
Fixpoint strip_nonempty (s : string) : bool :=
  match s with
  | EmptyString => false
  | String c s' => negb (is_space c) || strip_nonempty s'
  end.

(** [s.split(".", 1)[0]]: the text before the first dot. *)
Fixpoint split_root (s : string) : string :=
  match s with
  | EmptyString => EmptyString
  | String c s' => if decide (c = "."%char) then EmptyString else String c (split_root s')
  end.

(** [str(n)] for an integer. *)
Definition str_int (n : Z) : string := pretty n.

Definition squote : string := "'".
Definition dquote : string := String (ascii_of_nat 34) EmptyString.

(** [repr(s)] for the messages the engine builds (no backslashes, never
    both kinds of quote): single quotes unless the text has one. *)
Definition repr (s : string) : string :=
  if contains squote s then dquote ++ s ++ dquote else squote ++ s ++ squote.

(** Python truthiness of a string. *)
Definition truthy (s : string) : bool :=
  match s with EmptyString => false | _ => true end.

End PyStr.

(* ===================================================================== *)
(** * app/config.py                                                        *)
(* ===================================================================== *)

Module Config.
Definition MODEL_NAME : string := "gemini-2.5-flash-lite".
Definition MAX_STEPS : Z := 5.
Definition MAX_RETRIES_PER_STEP : Z := 2.
Definition MAX_REPLANS_PER_RUN : Z := 1.
End Config.

(* ===================================================================== *)
(** * core/failure_classifier.py                                           *)
(* ===================================================================== *)

Inductive FailureType := TRANSIENT | STRUCTURAL | TERMINAL.

#[global] Instance FailureType_eq_dec : EqDecision FailureType.
Proof. solve_decision. Defined.

Definition transient_indicators : list string :=
  [ "timeout"; "timed out"; "connection error"; "network error";
    "rate limit"; "temporarily unavailable"; "service unavailable";
    "502"; "503"; "504"; "connection reset"; "connection refused" ].

Definition structural_indicators : list string :=
  [ "validation error"; "schema error"; "type error"; "dependency error";
    "input should be"; "invalid argument"; "cannot be parsed";
    "tool not applicable"; "wrong tool"; "missing required field";
    "unexpected value"; "does not match"; "field required" ].

Definition terminal_indicators : list string :=
  [ "impossible"; "unsupported"; "not supported"; "cannot be done";
    "not allowed"; "permission denied"; "access denied";
    "authentication failed"; "unauthorized"; "forbidden" ].

Definition classify_failure (error : string) (tool_name : option string) : FailureType :=
  if negb (PyStr.truthy error) then STRUCTURAL
  else
    let e := PyStr.lower error in
    if PyStr.any_in transient_indicators e then TRANSIENT
    else if PyStr.any_in structural_indicators e then STRUCTURAL
    else if PyStr.any_in terminal_indicators e then TERMINAL
    else STRUCTURAL.

(* ===================================================================== *)
(** * tools/schemas.py and tools/responses.py: the data model              *)
(* ===================================================================== *)

(** JSON-like literals carried in [tool_args] and in tool outputs. *)
Inductive Value :=
| VNone
| VBool (b : bool)
| VInt (n : Z)
| VStr (s : string).

(** The dict a tool invocation returns.  [run_tool] only guarantees the
    key ["success"]; the other keys the engine reads may be missing:
    - [tr_data = None]: no ["data"] key; [Some None]: ["data"] without
      ["value"]; [Some (Some v)]: [data.value = v];
    - [tr_error = None]: no ["error"] key; [Some None]: [error = None];
      [Some (Some m)]: [error = m]. *)
Record ToolResult := {
  tr_tool : string;
  tr_success : bool;
  tr_data : option (option Value);
  tr_error : option (option string)
}.

(** [tool_response(tool=, success=, data=, error=)] of tools/responses.py. *)
Definition tool_response (tool : string) (success : bool) (data : Value)
    (error : option string) : ToolResult :=
  {| tr_tool := tool; tr_success := success;
     tr_data := Some (Some data); tr_error := Some error |}.

(** One entry of [step.metadata["dependencies"]]. *)
Record Dependency := {
  from_step : Z;
  from_field : string;
  to_arg : string
}.

Record Step := {
  step_id : Z;
  instruction : string;
  tool_name : string;
  tool_args : gmap string Value;
  dependencies : list Dependency   (* metadata.get("dependencies", []) *)
}.

Record PlannerOutput := {
  goal : string;
  plan_status : string;
  steps : list Step;
  fail_reason : option string
}.

(** The dict appended to [step_results] by the Executor. *)
Record StepResult := {
  sr_step_id : Z;
  sr_tool_name : string;
  sr_success : bool;
  sr_data : ToolResult
}.

(** [ExecutionResult.metadata], one optional field per key the engine writes. *)
Record Metadata := {
  md_failed_step_id : option Z;
  md_failed_tool : option string;
  md_error : option string;
  md_error_type : option string;
  md_reason : option string
}.

Definition empty_metadata : Metadata :=
  {| md_failed_step_id := None; md_failed_tool := None; md_error := None;
     md_error_type := None; md_reason := None |}.

Record ExecutionResult := {
  execution_status : string;
  step_results : list StepResult;
  executed_steps : Z;
  metadata : Metadata
}.

(** Python exceptions that travel through the engine. *)
Inductive Exn :=
| KeyError (msg : string)
| DependencyResolutionError (msg : string)
| TypeError (msg : string)
| QuotaExceeded (msg : string)
| OtherException (msg : string).

(** [str(e)]. *)
Definition str_exn (e : Exn) : string :=
  match e with
  | KeyError m => PyStr.repr m
  | DependencyResolutionError m => m
  | TypeError m => m
  | QuotaExceeded m => m
  | OtherException m => m
  end.

(* ===================================================================== *)
(** * core/state.py: DependencyState                                       *)
(* ===================================================================== *)

Module DependencyState.

(** [self._state : Dict[int, Any]]. *)
Abbreviation t := (gmap Z ToolResult).

(** [__init__]. *)
Definition init : t := ∅.

(** [store(step_id, output)]: [self._state[step_id] = output]. *)
Definition store (self : t) (step_id : Z) (output : ToolResult) : t :=
  <[step_id := output]> self.

Definition get_step_output (self : t) (step_id : Z) : option ToolResult :=
  self !! step_id.

Definition has_step (self : t) (step_id : Z) : bool :=
  bool_decide (is_Some (self !! step_id)).

(** The body of the [for dep in dependencies] loop; [inl m] is
    [raise KeyError(m)]. *)
Definition resolve_one (self : t) (resolved : gmap string Value) (dep : Dependency)
    : string + gmap string Value :=
  match self !! from_step dep with
  | None =>
      inl ("Step " ++ PyStr.str_int (from_step dep) ++ " not executed or not found in state")
  | Some step_output =>
      match tr_data step_output with
      | None =>
          inl ("Step " ++ PyStr.str_int (from_step dep) ++ " output missing 'data' field")
      | Some None =>
          inl ("Step " ++ PyStr.str_int (from_step dep) ++ " output missing 'data.value' field")
      | Some (Some value) => inr (<[to_arg dep := value]> resolved)
      end
  end.

Fixpoint resolve_loop (self : t) (resolved : gmap string Value)
    (deps : list Dependency) : string + gmap string Value :=
  match deps with
  | [] => inr resolved
  | dep :: deps' =>
      match resolve_one self resolved dep with
      | inl m => inl m
      | inr resolved' => resolve_loop self resolved' deps'
      end
  end.

(** [resolve_dependencies(tool_args=, dependencies=)]. *)
Definition resolve_dependencies (self : t) (tool_args : gmap string Value)
    (deps : list Dependency) : string + gmap string Value :=
  resolve_loop self tool_args deps.

End DependencyState.

(* ===================================================================== *)
(** * core/planner_validator.py                                            *)
(* ===================================================================== *)

(** The dict carried by [PlannerValidationError]. *)
Record ValidationError := {
  category : string;
  message : string;
  ve_step_id : option Z;
  ve_tool_name : option string
}.

(** What a validation run can raise.  [RecursionError] is raised when the
    recursion of [dfs] runs out of frames. *)
Inductive ValidationFault :=
| PlannerValidationError (e : ValidationError)
| GraphKeyError (node : Z)
| RecursionError.

(** [_fail(category, message, step)]: the error that is raised. *)
Definition _fail (cat msg : string) (step : option Step) : ValidationError :=
  {| category := cat; message := msg;
     ve_step_id := step_id <$> step; ve_tool_name := tool_name <$> step |}.

(** Truthiness of [plan.fail_reason]. *)
Definition fail_reason_truthy (plan : PlannerOutput) : bool :=
  match fail_reason plan with
  | Some r => PyStr.truthy r
  | None => false
  end.

(** The [for step in plan.steps] loop of [_validate_schema]. *)
Fixpoint schema_steps (l : list Step) (expected_id : Z) (seen_ids : gset Z)
    : option ValidationError :=
  match l with
  | [] => None
  | step :: rest =>
      if decide (step_id step ∈ seen_ids) then
        Some (_fail "SCHEMA_ERROR"
                ("Duplicate step_id " ++ PyStr.str_int (step_id step)) (Some step))
      else if decide (step_id step ≠ expected_id) then
        Some (_fail "SCHEMA_ERROR" "step_id must be sequential starting from 1" (Some step))
      else if negb (PyStr.strip_nonempty (instruction step)) then
        Some (_fail "SCHEMA_ERROR" "instruction must be a non-empty string" (Some step))
      else if bool_decide (step_id step = 1) && bool_decide (dependencies step ≠ []) then
        Some (_fail "SCHEMA_ERROR" "Step 1 must not have dependencies" (Some step))
      else schema_steps rest (expected_id + 1) ({[step_id step]} ∪ seen_ids)
  end.

Definition _validate_schema (plan : PlannerOutput) : option ValidationError :=
  if negb (bool_decide (plan_status plan = "possible")
           || bool_decide (plan_status plan = "impossible")) then
    Some (_fail "SCHEMA_ERROR" "Invalid plan_status" None)
  else if bool_decide (plan_status plan = "impossible") then
    if bool_decide (steps plan ≠ []) then
      Some (_fail "SCHEMA_ERROR" "Impossible plan must have empty steps" None)
    else None
  else if bool_decide (steps plan = []) then
    Some (_fail "SCHEMA_ERROR" "Possible plan must contain steps" None)
  else schema_steps (steps plan) 1 ∅.

Definition _validate_fail_reason (plan : PlannerOutput) : option ValidationError :=
  if bool_decide (plan_status plan = "impossible") then
    if negb (fail_reason_truthy plan) then
      Some (_fail "SCHEMA_ERROR" "fail_reason required when plan_status is impossible" None)
    else None
  else
    if fail_reason_truthy plan then
      Some (_fail "SCHEMA_ERROR" "fail_reason forbidden when plan_status is possible" None)
    else None.

(** [_to_arg_root_exists(tool_args, to_arg)]. *)
Definition _to_arg_root_exists (args : gmap string Value) (to : string) : bool :=
  bool_decide (is_Some (args !! PyStr.split_root to)).

(** The [for dep in deps] loop of [_validate_dependencies]. *)
Fixpoint dependencies_deps (step_ids : gset Z) (step : Step) (deps : list Dependency)
    : option ValidationError :=
  match deps with
  | [] => None
  | dep :: rest =>
      if decide (from_field dep ≠ "data.value") then
        Some (_fail "DEPENDENCY_ERROR" "Dependencies must target 'data.value'" (Some step))
      else if decide (from_step dep ∉ step_ids) then
        Some (_fail "DEPENDENCY_ERROR"
                ("Dependency from missing step " ++ PyStr.str_int (from_step dep)) (Some step))
      else if decide (from_step dep >= step_id step) then
        Some (_fail "DEPENDENCY_ERROR" "Dependency must reference earlier step" (Some step))
      else if negb (_to_arg_root_exists (tool_args step) (to_arg dep)) then
        Some (_fail "DEPENDENCY_ERROR" ("Invalid to_arg '" ++ to_arg dep ++ "'") (Some step))
      else dependencies_deps step_ids step rest
  end.

(** The [for step in plan.steps] loop of [_validate_dependencies]. *)
Fixpoint dependencies_steps (step_ids : gset Z) (l : list Step) : option ValidationError :=
  match l with
  | [] => None
  | step :: rest =>
      match dependencies_deps step_ids step (dependencies step) with
      | Some e => Some e
      | None => dependencies_steps step_ids rest
      end
  end.

Definition plan_step_ids (plan : PlannerOutput) : gset Z :=
  list_to_set (step_id <$> steps plan).

Definition _validate_dependencies (plan : PlannerOutput) : option ValidationError :=
  dependencies_steps (plan_step_ids plan) (steps plan).

(** ** Cycle detection *)

(** [graph = {s.step_id: [] for s in plan.steps}]. *)
Definition graph_init (l : list Step) : gmap Z (list Z) :=
  foldl (fun g s => <[step_id s := []]> g) ∅ l.

(** [graph[s.step_id].append(d["from_step"])] for every dependency. *)
Definition graph_add_step (g : gmap Z (list Z)) (s : Step) : gmap Z (list Z) :=
  foldl (fun g d => alter (fun ps => (ps ++ [from_step d])%list) (step_id s) g) g (dependencies s).

Definition build_graph (plan : PlannerOutput) : gmap Z (list Z) :=
  foldl graph_add_step (graph_init (steps plan)) (steps plan).

(** The keys of [graph] in the order the dict iterates them: first insertion. *)
Fixpoint keys_in_order (ids : list Z) (seen : gset Z) : list Z :=
  match ids with
  | [] => []
  | i :: rest =>
      if decide (i ∈ seen) then keys_in_order rest seen
      else i :: keys_in_order rest ({[i]} ∪ seen)
  end.

Definition graph_keys (plan : PlannerOutput) : list Z :=
  keys_in_order (step_id <$> steps plan) ∅.

(** How a call of the inner function [dfs] ends: it returns with the two
    sets [visited] and [stack] updated, or it raises. *)
Inductive DfsOutcome :=
| DfsReturn (visited stack : gset Z)
| DfsCycle                    (* _fail("DEPENDENCY_ERROR", "Cyclic dependency detected") *)
| DfsKeyError (node : Z)      (* graph[node] on a missing key *)
| DfsOutOfFuel.

(** [for parent in graph[node]: dfs(parent)]. *)
Fixpoint dfs_parents (rec : Z -> gset Z -> gset Z -> DfsOutcome)
    (parents : list Z) (visited stack : gset Z) : DfsOutcome :=
  match parents with
  | [] => DfsReturn visited stack
  | parent :: rest =>
      match rec parent visited stack with
      | DfsReturn visited' stack' => dfs_parents rec rest visited' stack'
      | o => o
      end
  end.

Fixpoint dfs (fuel : nat) (graph : gmap Z (list Z)) (node : Z)
    (visited stack : gset Z) : DfsOutcome :=
  match fuel with
  | O => DfsOutOfFuel
  | S fuel' =>
      if decide (node ∈ stack) then DfsCycle
      else if decide (node ∈ visited) then DfsReturn visited stack
      else
        match graph !! node with
        | None => DfsKeyError node
        | Some parents =>
            match dfs_parents (dfs fuel' graph) parents visited ({[node]} ∪ stack) with
            | DfsReturn visited' stack' =>
                DfsReturn ({[node]} ∪ visited') (stack' ∖ {[node]})
            | o => o
            end
        end
  end.

(** [for step_id in graph: dfs(step_id)], from [visited, stack = set(), set()]. *)
Definition no_cycles_walk (fuel : nat) (plan : PlannerOutput) : DfsOutcome :=
  dfs_parents (dfs fuel (build_graph plan)) (graph_keys plan) ∅ ∅.

(** [_validate_no_cycles] where the interpreter leaves [recursion_budget]
    frames to the recursion of [dfs]. *)
Definition _validate_no_cycles_within (recursion_budget : nat) (plan : PlannerOutput)
    : option ValidationFault :=
  match no_cycles_walk recursion_budget plan with
  | DfsReturn _ _ => None
  | DfsCycle =>
      Some (PlannerValidationError (_fail "DEPENDENCY_ERROR" "Cyclic dependency detected" None))
  | DfsKeyError node => Some (GraphKeyError node)
  | DfsOutOfFuel => Some RecursionError
  end.

(** [_validate_no_cycles] as [validate_plan] runs it, that is, with more
    frames than the plan has steps.  CPython leaves about a thousand frames,
    and [validate_plan] is run on plans of the planner, which the schema
    check has confined to ids in sequence; in [validate_plan] two frames
    are enough (see [_validate_no_cycles_two_frames] below).  What the
    function does with fewer frames is [_validate_no_cycles_within]. *)
Definition _validate_no_cycles (plan : PlannerOutput) : option ValidationFault :=
  _validate_no_cycles_within (S (length (steps plan))) plan.

(** The checks that consult the tool registry, the pydantic tool schemas
    and the query-text heuristics.  Their code lies outside the engine core;
    they enter [validate_plan] only through what they raise, so they are
    taken as an interface and every result below holds for all of its
    implementations. *)
Class ToolRules := {
  (** [tool_name in TOOL_REGISTRY] *)
  registered : string -> bool;
  _validate_tools : PlannerOutput -> option ValidationError;
  _validate_query_intent : PlannerOutput -> string -> option ValidationError;
  _validate_datetime_usage : PlannerOutput -> string -> option ValidationError;
  _validate_pipelines : PlannerOutput -> option ValidationError
}.

Definition raise_validation (c : option ValidationError) : option ValidationFault :=
  PlannerValidationError <$> c.

(** Run the checks in order; the first one that raises wins. *)
Fixpoint first_failure (checks : list (option ValidationFault)) : option ValidationFault :=
  match checks with
  | [] => None
  | Some f :: _ => Some f
  | None :: rest => first_failure rest
  end.

Definition validate_plan `{ToolRules} (plan : PlannerOutput) (user_query : string)
    : ValidationFault + PlannerOutput :=
  match first_failure
          [ raise_validation (_validate_schema plan);
            raise_validation (_validate_fail_reason plan);
            raise_validation (_validate_tools plan);
            raise_validation (_validate_dependencies plan);
            _validate_no_cycles plan;
            raise_validation (_validate_query_intent plan user_query);
            raise_validation (_validate_datetime_usage plan user_query);
            raise_validation (_validate_pipelines plan) ] with
  | Some f => inl f
  | None => inr plan      (* {"valid": True, "normalized_plan": plan} *)
  end.

(* ===================================================================== *)
(** * External collaborators                                               *)
(* ===================================================================== *)

(** What [_build_replan_context] hands to the planning collaborator. *)
Record FailedStepInfo := {
  fs_step_id : option Z;
  fs_tool : option string;
  fs_instruction : option string;
  fs_error : string
}.

Record SuccessfulStep := {
  ss_step_id : Z;
  ss_tool : string;
  ss_instruction : string
}.

Record ReplanContext := {
  original_goal : string;
  failed_step : FailedStepInfo;
  successful_steps : list SuccessfulStep;
  total_steps : Z
}.

(** The tools, the language-model planner and the quota manager.  They act
    on the outside world, which is threaded explicitly: every call takes the
    current world and returns the next one, so the same call may answer
    differently each time.
    - [run_tool]: [app.runner.run_tool(tool_name, tool_args, {"step_id": ..})];
    - [plan_gateway_replan]: [plan_gateway(user_input, mode="replan", context)];
    - [can_call], [record_call]: the two methods of [QuotaManager]; they
      read and write the usage file, and like every collaborator they may
      raise. *)
Class Collaborators (World : Type) := {
  run_tool : World -> string -> gmap string Value -> Z -> (Exn + ToolResult) * World;
  plan_gateway_replan : World -> string -> ReplanContext -> (Exn + PlannerOutput) * World;
  can_call : World -> string -> (Exn + bool) * World;
  record_call : World -> string -> (Exn + unit) * World
}.

(* ===================================================================== *)
(** * core/executor.py                                                     *)
(* ===================================================================== *)

(** The three local variables of [execute_plan]. *)
Record ExecState := {
  dependency_state : DependencyState.t;
  es_step_results : list StepResult;
  es_executed_steps : Z
}.

Definition exec_init : ExecState :=
  {| dependency_state := DependencyState.init; es_step_results := []; es_executed_steps := 0 |}.

(** How the [for step in planner_output.steps] loop is left. *)
Inductive LoopExit :=
| LoopCompleted
| LoopStepFailed (failed : Step) (error : option string)
| LoopRaised (e : Exn).

Definition _create_skipped_result : ExecutionResult :=
  {| execution_status := "skipped"; step_results := []; executed_steps := 0;
     metadata := {| md_failed_step_id := None; md_failed_tool := None; md_error := None;
                    md_error_type := None; md_reason := Some "plan_impossible" |} |}.

(** [error or "Unknown error"]. *)
Definition error_or_unknown (error : option string) : string :=
  match error with
  | Some m => if PyStr.truthy m then m else "Unknown error"
  | None => "Unknown error"
  end.

Definition _create_failed_result (results : list StepResult) (executed : Z)
    (failed : Step) (error : option string) : ExecutionResult :=
  {| execution_status := "failed"; step_results := results; executed_steps := executed;
     metadata := {| md_failed_step_id := Some (step_id failed);
                    md_failed_tool := Some (tool_name failed);
                    md_error := Some (error_or_unknown error);
                    md_error_type := None; md_reason := None |} |}.

(** The result built in the two [except] clauses of [execute_plan]. *)
Definition raised_result (st : ExecState) (e : Exn) : ExecutionResult :=
  {| execution_status := "failed"; step_results := es_step_results st;
     executed_steps := es_executed_steps st;
     metadata := {| md_failed_step_id := None; md_failed_tool := None;
                    md_error := Some (str_exn e);
                    md_error_type :=
                      Some (match e with
                            | DependencyResolutionError _ => "dependency_resolution"
                            | _ => "unexpected"
                            end);
                    md_reason := None |} |}.

Section Executor.
Context {World : Type} `{!Collaborators World}.

Definition _execute_single_step (step : Step) (ds : DependencyState.t) (w : World)
    : (Exn + StepResult) * World :=
  let resolved :=
    if bool_decide (dependencies step ≠ []) then
      match DependencyState.resolve_dependencies ds (tool_args step) (dependencies step) with
      | inl m =>
          inl (DependencyResolutionError
                 ("Step " ++ PyStr.str_int (step_id step)
                  ++ ": Failed to resolve dependency - " ++ str_exn (KeyError m)))
      | inr args => inr args
      end
    else inr (tool_args step) in
  match resolved with
  | inl e => (inl e, w)
  | inr resolved_args =>
      match run_tool w (tool_name step) resolved_args (step_id step) with
      | (inl e, w') => (inl e, w')
      | (inr tool_result, w') =>
          (inr {| sr_step_id := step_id step; sr_tool_name := tool_name step;
                  sr_success := tr_success tool_result; sr_data := tool_result |}, w')
      end
  end.

(** The [for step in planner_output.steps] loop.  On a failed step the
    log line evaluates [step_result['data'].get('error', 'unknown')[:100]],
    which raises [TypeError] when the tool returned [error = None]. *)
Fixpoint execute_steps (l : list Step) (st : ExecState) (w : World)
    : (LoopExit * ExecState) * World :=
  match l with
  | [] => ((LoopCompleted, st), w)
  | step :: rest =>
      match _execute_single_step step (dependency_state st) w with
      | (inl e, w') => ((LoopRaised e, st), w')
      | (inr step_result, w') =>
          let st1 := {| dependency_state := dependency_state st;
                        es_step_results := (es_step_results st ++ [step_result])%list;
                        es_executed_steps := es_executed_steps st + 1 |} in
          if negb (sr_success step_result) then
            match tr_error (sr_data step_result) with
            | Some None =>
                ((LoopRaised (TypeError "'NoneType' object is not subscriptable"), st1), w')
            | Some (Some m) => ((LoopStepFailed step (Some m), st1), w')
            | None => ((LoopStepFailed step None, st1), w')
            end
          else
            execute_steps rest
              {| dependency_state :=
                   DependencyState.store (dependency_state st1) (step_id step)
                     (sr_data step_result);
                 es_step_results := es_step_results st1;
                 es_executed_steps := es_executed_steps st1 |} w'
      end
  end.

(** [execute_plan], which also hands back the [DependencyState] of the run
    ([None] when none was created) so that it can be observed. *)
Definition execute_plan_state (w : World) (planner_output : PlannerOutput)
    : (ExecutionResult * option DependencyState.t) * World :=
  if bool_decide (plan_status planner_output = "impossible") then
    ((_create_skipped_result, None), w)
  else
    match execute_steps (steps planner_output) exec_init w with
    | ((LoopCompleted, st), w') =>
        (({| execution_status := "completed"; step_results := es_step_results st;
             executed_steps := es_executed_steps st; metadata := empty_metadata |},
          Some (dependency_state st)), w')
    | ((LoopStepFailed failed error, st), w') =>
        ((_create_failed_result (es_step_results st) (es_executed_steps st) failed error,
          Some (dependency_state st)), w')
    | ((LoopRaised e, st), w') =>
        ((raised_result st e, Some (dependency_state st)), w')
    end.

Definition execute_plan (w : World) (planner_output : PlannerOutput)
    : ExecutionResult * World :=
  let '((result, _), w') := execute_plan_state w planner_output in (result, w').

End Executor.

(* ===================================================================== *)
(** * core/replanner.py                                                    *)
(* ===================================================================== *)

(** [_get_step_by_id]. *)
Fixpoint find_step (l : list Step) (id : Z) : option Step :=
  match l with
  | [] => None
  | step :: rest => if decide (step_id step = id) then Some step else find_step rest id
  end.

Definition _get_step_by_id (plan : PlannerOutput) (id : option Z) : option Step :=
  match id with
  | None => None
  | Some i => find_step (steps plan) i
  end.

Fixpoint _extract_successful_steps (original_plan : PlannerOutput)
    (results : list StepResult) : list SuccessfulStep :=
  match results with
  | [] => []
  | r :: rest =>
      let tail := _extract_successful_steps original_plan rest in
      if sr_success r then
        match _get_step_by_id original_plan (Some (sr_step_id r)) with
        | Some step =>
            {| ss_step_id := step_id step; ss_tool := tool_name step;
               ss_instruction := instruction step |} :: tail
        | None => tail
        end
      else tail
  end.

Definition _build_replan_context (original_plan : PlannerOutput)
    (execution_result : ExecutionResult) (failed_step_id : option Z) (error : string)
    : ReplanContext :=
  let failed := _get_step_by_id original_plan failed_step_id in
  {| original_goal := goal original_plan;
     failed_step := {| fs_step_id := failed_step_id; fs_tool := tool_name <$> failed;
                       fs_instruction := instruction <$> failed; fs_error := error |};
     successful_steps :=
       _extract_successful_steps original_plan (step_results execution_result);
     total_steps := Z.of_nat (length (steps original_plan)) |}.

(** What [replan_gateway] can raise. *)
Inductive ReplanFault :=
| ReplanInvalid (f : ValidationFault)
| ReplanRaised (e : Exn).

Section Replanner.
Context {World : Type} `{!Collaborators World} `{!ToolRules}.

Fixpoint _validate_tools_exist (l : list Step) : option ValidationError :=
  match l with
  | [] => None
  | step :: rest =>
      if negb (registered (tool_name step)) then
        Some {| category := "REPLAN_TOOL_ERROR";
                message := "Replanner used unknown tool '" ++ tool_name step ++ "'";
                ve_step_id := Some (step_id step);
                ve_tool_name := Some (tool_name step) |}
      else _validate_tools_exist rest
  end.

Definition replan_gateway (w : World) (original_plan : PlannerOutput)
    (execution_result : ExecutionResult) (user_input : string)
    : (ReplanFault + PlannerOutput) * World :=
  let failed_step_id := md_failed_step_id (metadata execution_result) in
  let error := default "Unknown error" (md_error (metadata execution_result)) in
  let replan_context :=
    _build_replan_context original_plan execution_result failed_step_id error in
  match plan_gateway_replan w user_input replan_context with
  | (inl e, w') => (inl (ReplanRaised e), w')
  | (inr planner_output, w') =>
      match _validate_tools_exist (steps planner_output) with
      | Some e => (inl (ReplanInvalid (PlannerValidationError e)), w')
      | None =>
          match validate_plan planner_output user_input with
          | inl f => (inl (ReplanInvalid f), w')
          | inr normalized_plan => (inr normalized_plan, w')
          end
      end
  end.

End Replanner.

(* ===================================================================== *)
(** * core/agent.py: run_with_recovery                                     *)
(* ===================================================================== *)

(** [_get_tool_name(plan, step_id)]. *)
Definition _get_tool_name (plan : PlannerOutput) (id : option Z) : option string :=
  tool_name <$> _get_step_by_id plan id.

(** Observable steps of the recovery loop, recorded for the statements
    about how often the Executor and the Replanner are invoked. *)
Inductive Event :=
| EvExecute (plan : PlannerOutput)        (* execute_plan(plan) was called *)
| EvRetry (failed_step_id : option Z)     (* continue: re-run the same plan *)
| EvQuotaDenied                           (* can_call answered False *)
| EvQuotaRaised                           (* can_call raised *)
| EvReplanCall                            (* replan_gateway was called *)
| EvReplanned (plan : PlannerOutput)      (* continue: run the repaired plan *)
| EvRecordRaised (plan : PlannerOutput).  (* record_call raised after the
                                             Replanner had handed back [plan] *)

(** What [run_with_recovery] returns, [(executor_output, plan)], together
    with its local variables [retries] and [replans] at that moment and the
    events of the run. *)
Record RecoveryRun := {
  executor_output : ExecutionResult;
  final_plan : PlannerOutput;
  final_retries : gmap (option Z) Z;
  final_replans : Z;
  trace : list Event
}.

Definition is_execute (e : Event) : bool :=
  match e with EvExecute _ => true | _ => false end.

Definition is_retry (e : Event) : bool :=
  match e with EvRetry _ => true | _ => false end.

Definition is_retry_of (k : option Z) (e : Event) : bool :=
  match e with EvRetry k' => bool_decide (k' = k) | _ => false end.

Definition is_quota_denied (e : Event) : bool :=
  match e with EvQuotaDenied => true | _ => false end.

Definition is_quota_raised (e : Event) : bool :=
  match e with EvQuotaRaised => true | _ => false end.

Definition is_replan_call (e : Event) : bool :=
  match e with EvReplanCall => true | _ => false end.

Definition is_record_raised (e : Event) : bool :=
  match e with EvRecordRaised _ => true | _ => false end.

Definition is_replanned (e : Event) : bool :=
  match e with EvReplanned _ => true | _ => false end.

(** How many events of a run satisfy [p]. *)
Fixpoint count_events (p : Event -> bool) (tr : list Event) : Z :=
  match tr with
  | [] => 0
  | e :: tr' => (if p e then 1 else 0) + count_events p tr'
  end.

(** Number of Executor invocations in a run. *)
Definition executions (tr : list Event) : Z := count_events is_execute tr.

(** Number of retry re-executions triggered by failures of step [k]. *)
Definition retries_of (k : option Z) (tr : list Event) : Z :=
  count_events (is_retry_of k) tr.

(** Number of invocations of the Replanner. *)
Definition replan_calls (tr : list Event) : Z := count_events is_replan_call tr.

(** Number of replan attempts stopped by the quota check. *)
Definition quota_denials (tr : list Event) : Z := count_events is_quota_denied tr.

(** [retries.setdefault(k, 0); retries[k] += 1]. *)
Definition bump (retries : gmap (option Z) Z) (k : option Z) : gmap (option Z) Z :=
  <[k := default 0 (retries !! k) + 1]> retries.

Section Agent.
Context {World : Type} `{!Collaborators World} `{!ToolRules}.

(** The limits imported from app/config.py, kept as parameters. *)
Variables (max_retries_per_step max_replans_per_run : Z).
Variable (user_input : string).

(** The [while True] loop; [fuel] bounds the number of iterations and
    [None] means that it ran out. *)
Fixpoint recovery_loop (fuel : nat) (plan : PlannerOutput)
    (retries : gmap (option Z) Z) (replans : Z) (tr : list Event) (w : World)
    : option (RecoveryRun * World) :=
  match fuel with
  | O => None
  | S fuel' =>
      let '(output, w1) := execute_plan w plan in
      let tr1 := (tr ++ [EvExecute plan])%list in
      let stop retries replans tr w :=
        Some ({| executor_output := output; final_plan := plan;
                 final_retries := retries; final_replans := replans;
                 trace := tr |}, w) in
      if bool_decide (execution_status output = "completed") then
        stop retries replans tr1 w1
      else
        let error := default "" (md_error (metadata output)) in
        let failed_step_id := md_failed_step_id (metadata output) in
        let failed_tool := _get_tool_name plan failed_step_id in
        match classify_failure error failed_tool with
        | TRANSIENT =>
            let retries1 := bump retries failed_step_id in
            if bool_decide (default 0 (retries1 !! failed_step_id) <= max_retries_per_step)
            then recovery_loop fuel' plan retries1 replans
                   (tr1 ++ [EvRetry failed_step_id])%list w1
            else stop retries1 replans tr1 w1
        | STRUCTURAL =>
            if bool_decide (replans < max_replans_per_run) then
              let replans1 := replans + 1 in
              (* whatever is raised inside the try block is caught by
                 its [except Exception], which returns
                 [(executor_output, plan)] *)
              match can_call w1 Config.MODEL_NAME with
              | (inl _, w2) => stop retries replans1 (tr1 ++ [EvQuotaRaised])%list w2
              | (inr false, w2) =>
                  (* QuotaExceeded is raised *)
                  stop retries replans1 (tr1 ++ [EvQuotaDenied])%list w2
              | (inr true, w2) =>
                  match replan_gateway w2 plan output user_input with
                  | (inr plan', w3) =>
                      (* [plan] is now the repaired plan *)
                      match record_call w3 Config.MODEL_NAME with
                      | (inr _, w4) =>
                          recovery_loop fuel' plan' retries replans1
                            (tr1 ++ [EvReplanCall; EvReplanned plan'])%list w4
                      | (inl _, w4) =>
                          Some ({| executor_output := output; final_plan := plan';
                                   final_retries := retries; final_replans := replans1;
                                   trace := (tr1 ++ [EvReplanCall; EvRecordRaised plan'])%list |},
                                w4)
                      end
                  | (inl _, w3) =>
                      stop retries replans1 (tr1 ++ [EvReplanCall])%list w3
                  end
              end
            else stop retries replans tr1 w1
        | TERMINAL => stop retries replans tr1 w1
        end
  end.

Definition run_with_recovery_from (fuel : nat) (w : World) (initial_plan : PlannerOutput)
    : option (RecoveryRun * World) :=
  recovery_loop fuel initial_plan ∅ 0 [] w.

End Agent.

(** [run_with_recovery] with the limits of app/config.py. *)
Definition run_with_recovery {World : Type} `{!Collaborators World} `{!ToolRules}
    (fuel : nat) (w : World) (user_input : string) (initial_plan : PlannerOutput)
    : option (RecoveryRun * World) :=
  run_with_recovery_from Config.MAX_RETRIES_PER_STEP Config.MAX_REPLANS_PER_RUN
    user_input fuel w initial_plan.

(* ===================================================================== *)
(** * Vocabulary of the statements                                         *)
(* ===================================================================== *)

(** The letters of the ASCII alphabet, each capital with its small form. *)
Definition letters : list (ascii * ascii) :=
  zip (list_ascii_of_string "ABCDEFGHIJKLMNOPQRSTUVWXYZ")
      (list_ascii_of_string "abcdefghijklmnopqrstuvwxyz").

(** The same character, or the capital and the small form of one letter. *)
Definition same_letter (a b : ascii) : Prop :=
  a = b \/ (a, b) ∈ letters \/ (b, a) ∈ letters.

(** Two texts that differ in the case of their letters only. *)
Fixpoint same_up_to_case (s t : string) : Prop :=
  match s, t with
  | EmptyString, EmptyString => True
  | String a s', String b t' => same_letter a b /\ same_up_to_case s' t'
  | _, _ => False
  end.

(** The message has, in whatever case, one of the keywords of [ks] as a
    substring. *)
Definition mentions (ks : list string) (error : string) : Prop :=
  exists k pre mid post,
    k ∈ ks /\ error = pre ++ mid ++ post /\ same_up_to_case mid k.

(** The Dependency State obtained by storing, in order, the tool results of
    those entries of [step_results] that report success. *)
Definition stored_view (results : list StepResult) : DependencyState.t :=
  foldl (fun ds r =>
           if sr_success r then DependencyState.store ds (sr_step_id r) (sr_data r) else ds)
        DependencyState.init results.

(** [steps_run l results ds w ds' w']: the steps of [l] have been run in
    this order, from the Dependency State [ds] and the world [w], each by
    [_execute_single_step] on the state that holds the outputs of the steps
    before it, and each with success; [results] lists their results, [ds']
    and [w'] are the state and the world that they leave. *)
Fixpoint steps_run {World : Type} `{!Collaborators World} (l : list Step)
    (results : list StepResult) (ds : DependencyState.t) (w : World)
    (ds' : DependencyState.t) (w' : World) : Prop :=
  match l, results with
  | [], [] => ds' = ds /\ w' = w
  | step :: l', r :: results' =>
      exists w1,
        _execute_single_step step ds w = (inr r, w1) /\ sr_success r = true /\
        steps_run l' results' (DependencyState.store ds (step_id step) (sr_data r)) w1 ds' w'
  | _, _ => False
  end.

(** An edge of the dependency graph: a step with id [a] declares a
    dependency on step [b]. *)
Definition dep_edge (plan : PlannerOutput) (a b : Z) : Prop :=
  exists s d, s ∈ steps plan /\ d ∈ dependencies s /\ step_id s = a /\ from_step d = b.

(** The dependency graph has a cycle: some step reaches itself along one
    or more edges. *)
Definition has_cycle (plan : PlannerOutput) : Prop :=
  exists a, tc (dep_edge plan) a a.

(** Every Executor run of [plan], in whatever state the outside world is,
    fails at step [sid] with an error that is classified TRANSIENT. *)
Definition always_fails_transiently_at {World : Type} `{!Collaborators World}
    (plan : PlannerOutput) (sid : Z) : Prop :=
  forall w : World, exists output w' msg,
    execute_plan w plan = (output, w') /\
    execution_status output = "failed" /\
    md_failed_step_id (metadata output) = Some sid /\
    md_error (metadata output) = Some msg /\
    classify_failure msg (_get_tool_name plan (Some sid)) = TRANSIENT.

(** Sum of the counters of the [retries] dict. *)
Definition total_retries (retries : gmap (option Z) Z) : Z :=
  map_fold (fun _ v acc => v + acc) 0 retries.

(** The values [failed_step_id] can take for a plan: absent, or the id of
    one of its steps. *)
Definition plan_keys (plan : PlannerOutput) : list (option Z) :=
  None :: (Some <$> (step_id <$> steps plan)).

(** Retries still allowed for the keys [l]: the variant of the loop
    between two replans. *)
Fixpoint budget_over (max_retries : Z) (retries : gmap (option Z) Z)
    (l : list (option Z)) : nat :=
  match l with
  | [] => O
  | k :: l' =>
      Nat.add (Z.to_nat (max_retries - default 0 (retries !! k)))
              (budget_over max_retries retries l')
  end.

(** Every key of the [retries] dict is a [failed_step_id] value of a plan
    that has been executed. *)
Definition keys_executed (retries : gmap (option Z) Z) (tr : list Event) : Prop :=
  forall k, is_Some (retries !! k) ->
            exists p, EvExecute p ∈ tr /\ k ∈ plan_keys p.

(** What holds of the local variables of [run_with_recovery] and of the
    events so far each time the loop is entered. *)
Record LoopInv (max_retries max_replans : Z) (retries : gmap (option Z) Z)
    (replans : Z) (tr : list Event) : Prop := {
  inv_executions : executions tr = count_events is_retry tr + count_events is_replanned tr;
  inv_retries_of : forall k, retries_of k tr = default 0 (retries !! k);
  inv_retry_range : forall k v, retries !! k = Some v -> 1 <= v <= max_retries;
  inv_retry_total : count_events is_retry tr = total_retries retries;
  inv_replanned : count_events is_replanned tr = replans;
  inv_replan_calls : replan_calls tr = replans;
  inv_no_denial : quota_denials tr = 0;
  inv_no_quota_raised : count_events is_quota_raised tr = 0;
  inv_replans_range : 0 <= replans <= Z.max 0 max_replans;
  inv_keys : keys_executed retries tr
}.

(** What holds of a finished run. *)
Record RunFacts (max_retries max_replans : Z) (r : RecoveryRun) : Prop := {
  run_executions :
    executions (trace r)
    = 1 + count_events is_retry (trace r) + count_events is_replanned (trace r);
  run_retries_of : forall k,
    retries_of k (trace r) <= default 0 (final_retries r !! k) <= retries_of k (trace r) + 1 /\
    retries_of k (trace r) <= Z.max 0 max_retries;
  run_retry_total :
    count_events is_retry (trace r) <= Z.max 0 max_retries * Z.of_nat (size (final_retries r));
  run_replanned : count_events is_replanned (trace r) <= replan_calls (trace r);
  run_replans :
    final_replans r
    = replan_calls (trace r) + quota_denials (trace r)
      + count_events is_quota_raised (trace r);
  run_replans_range : 0 <= final_replans r <= Z.max 0 max_replans;
  run_denial :
    quota_denials (trace r) = 0 \/
    (quota_denials (trace r) = 1 /\
     count_events is_quota_raised (trace r) = 0 /\
     (exists tr0, trace r = (tr0 ++ [EvExecute (final_plan r); EvQuotaDenied])%list) /\
     (forall k, default 0 (final_retries r !! k) = retries_of k (trace r)));
  run_keys : keys_executed (final_retries r) (trace r)
}.

(** What holds of the adjacency dict of [_validate_no_cycles] while it is
    being filled: its keys are the step ids of the plan and every listed
    parent is a declared dependency. *)
Definition graph_ok (plan : PlannerOutput) (g : gmap Z (list Z)) : Prop :=
  (forall k, is_Some (g !! k) <-> k ∈ plan_step_ids plan) /\
  (forall k ps p, g !! k = Some ps -> p ∈ ps -> dep_edge plan k p).

(** The number of step ids below [k]: it bounds the depth of the walk
    that starts at [k] when every edge leads to a smaller id. *)
Definition rank (plan : PlannerOutput) (k : Z) : nat :=
  size (filter (fun x => x < k) (plan_step_ids plan)).

(** The run of the recovery loop that starts in the given loop state
    returns. *)
Definition loop_returns {World : Type} `{!Collaborators World} `{!ToolRules}
    (max_retries max_replans : Z) (user_input : string)
    (plan : PlannerOutput) (retries : gmap (option Z) Z) (replans : Z)
    (tr : list Event) (w : World) : Prop :=
  exists fuel res,
    recovery_loop max_retries max_replans user_input fuel plan retries replans tr w
    = Some res.

(** Counting the events of a trace that grows at its end; uses the lemma
    [count_events_app] of the counting section. *)
Ltac count_events_simpl lem :=
  unfold executions, replan_calls, quota_denials in *;
  rewrite ?lem; cbn [count_events is_execute is_retry is_replanned
                      is_replan_call is_quota_denied is_quota_raised].

(* ===================================================================== *)
(** * Concrete collaborators, plans and scenarios                          *)
(* ===================================================================== *)

Module Scenario.

(** Tool rules that accept every plan: the registry knows every tool. *)
Definition permissive : ToolRules :=
  {| registered := fun _ => true;
     _validate_tools := fun _ => None;
     _validate_query_intent := fun _ _ => None;
     _validate_datetime_usage := fun _ _ => None;
     _validate_pipelines := fun _ => None |}.

(** Scripted collaborators.  The world is the number of tool and planner
    calls made so far; the scripts answer from it. *)
Definition scripted (tool : nat -> string -> Z -> ToolResult) (quota : nat -> bool)
    (planner : nat -> Exn + PlannerOutput) : Collaborators nat :=
  {| run_tool := fun w name _ id => (inr (tool w name id), S w);
     plan_gateway_replan := fun w _ _ => (planner w, S w);
     can_call := fun w _ => (inr (quota w), w);
     record_call := fun w _ => (inr tt, w) |}.

Definition timeout_failure (name : string) : ToolResult :=
  tool_response name false VNone (Some "Connection timeout").

Definition type_failure (name : string) : ToolResult :=
  tool_response name false VNone (Some "Input should be a valid integer").

Definition success (name : string) : ToolResult :=
  tool_response name true (VStr "2026-01-29 00:00:00") None.

Definition no_planner (w : nat) : Exn + PlannerOutput :=
  inl (OtherException "planner unavailable").

(** Step 1 asks for the current date, step 2 adds five days to it. *)
Definition step_now : Step :=
  {| step_id := 1; instruction := "Get the current date"; tool_name := "datetime";
     tool_args := {[ "operation" := VStr "now" ]}; dependencies := [] |}.

Definition step_add : Step :=
  {| step_id := 2; instruction := "Add five days"; tool_name := "datetime";
     tool_args := {[ "operation" := VStr "add_days"; "days" := VInt 5;
                     "base_datetime" := VNone ]};
     dependencies := [ {| from_step := 1; from_field := "data.value";
                          to_arg := "base_datetime" |} ] |}.

Definition plan_two : PlannerOutput :=
  {| goal := "date in five days"; plan_status := "possible";
     steps := [step_now; step_add]; fail_reason := None |}.

Definition plan_one : PlannerOutput :=
  {| goal := "current date"; plan_status := "possible";
     steps := [step_now]; fail_reason := None |}.

(** Step 1 names itself as its dependency: a cycle of length one. *)
Definition step_self : Step :=
  {| step_id := 1; instruction := "Get the current date"; tool_name := "datetime";
     tool_args := {[ "operation" := VStr "day_of_week"; "base_datetime" := VNone ]};
     dependencies := [ {| from_step := 1; from_field := "data.value";
                          to_arg := "base_datetime" |} ] |}.

Definition plan_self_cycle : PlannerOutput :=
  {| goal := "day of week"; plan_status := "possible";
     steps := [step_self]; fail_reason := None |}.

(** Step 2 always times out; step 1 times out on the first two tool
    calls of the request and succeeds afterwards. *)
Definition flaky_then_stuck (w : nat) (name : string) (id : Z) : ToolResult :=
  if bool_decide (id = 2) then timeout_failure name
  else if (w <? 2)%nat then timeout_failure name
  else success name.

Definition flaky_world : Collaborators nat :=
  scripted flaky_then_stuck (fun _ => true) no_planner.

(** Step 1 always succeeds, step 2 always times out. *)
Definition stuck_at_two (w : nat) (name : string) (id : Z) : ToolResult :=
  if bool_decide (id = 2) then timeout_failure name else success name.

Definition stuck_world : Collaborators nat :=
  scripted stuck_at_two (fun _ => true) no_planner.

(** What every Executor run of [plan_two] returns in [stuck_world]. *)
Definition stuck_output : ExecutionResult :=
  _create_failed_result
    [ {| sr_step_id := 1; sr_tool_name := "datetime"; sr_success := true;
         sr_data := success "datetime" |};
      {| sr_step_id := 2; sr_tool_name := "datetime"; sr_success := false;
         sr_data := timeout_failure "datetime" |} ]
    2 step_add (Some "Connection timeout").


(** Every tool call fails with a type error; the planner repairs nothing
    but returns the same plan again. *)
Definition replanning_world : Collaborators nat :=
  scripted (fun _ name _ => type_failure name) (fun _ => true) (fun _ => inr plan_one).

(** Every tool call fails with a type error, the quota is available and
    the planner is down. *)
Definition planner_down_world : Collaborators nat :=
  scripted (fun _ name _ => type_failure name) (fun _ => true) no_planner.

(** The third call of the request fails with a type error, every other
    tool call times out; the planner answers with the one-step plan. *)
Definition timeout_around_replan (w : nat) (name : string) (id : Z) : ToolResult :=
  if (w =? 2)%nat then type_failure name else timeout_failure name.

Definition retry_replan_world : Collaborators nat :=
  scripted timeout_around_replan (fun _ => true) (fun _ => inr plan_one).

(** Collaborators whose world is the log of the tool calls made so far. *)
Definition logging_world : Collaborators (list (string * Z)) :=
  {| run_tool := fun w name _ id => (inr (success name), (w ++ [(name, id)])%list);
     plan_gateway_replan := fun w _ _ => (no_planner 0%nat, w);
     can_call := fun w _ => (inr true, w);
     record_call := fun w _ => (inr tt, w) |}.

Definition plan_impossible : PlannerOutput :=
  {| goal := "launch a rocket"; plan_status := "impossible";
     steps := []; fail_reason := Some "scope_mismatch" |}.


(** The quota manager itself is down: [can_call] raises. *)
Definition quota_down_world : Collaborators nat :=
  {| run_tool := fun w name _ _ => (inr (type_failure name), S w);
     plan_gateway_replan := fun w _ _ => (inr plan_two, S w);
     can_call := fun w _ => (inl (OtherException "usage file not readable"), w);
     record_call := fun w _ => (inr tt, w) |}.

(** Steps 2 and 3 depend on each other; everything else is in order. *)
Definition step_from (id src : Z) : Step :=
  {| step_id := id; instruction := "Add five days"; tool_name := "datetime";
     tool_args := {[ "operation" := VStr "add_days"; "days" := VInt 5;
                     "base_datetime" := VNone ]};
     dependencies := [ {| from_step := src; from_field := "data.value";
                          to_arg := "base_datetime" |} ] |}.

Definition plan_mutual_cycle : PlannerOutput :=
  {| goal := "date in ten days"; plan_status := "possible";
     steps := [step_now; step_from 2 3; step_from 3 2]; fail_reason := None |}.

(** Step 3 uses the outputs of steps 1 and 2. *)
Definition plan_chain : PlannerOutput :=
  {| goal := "date in ten days"; plan_status := "possible";
     steps := [step_now; step_from 2 1; step_from 3 2]; fail_reason := None |}.

(** The same chain declared backwards: step 1 uses step 2, which uses
    step 3.  There is no cycle, and the walk from step 1 is three calls of
    [dfs] deep. *)
Definition step_last : Step :=
  {| step_id := 3; instruction := "Get the current date"; tool_name := "datetime";
     tool_args := {[ "operation" := VStr "now" ]}; dependencies := [] |}.

Definition plan_descending : PlannerOutput :=
  {| goal := "date in ten days"; plan_status := "possible";
     steps := [step_from 1 2; step_from 2 3; step_last]; fail_reason := None |}.

End Scenario.

(* ===================================================================== *)
(** * Vocabulary of the statements on dependency resolution                *)
(* ===================================================================== *)

(** [self._state[id]["data"]["value"]], when the step is stored and its
    output has that field. *)
Definition stored_value (self : DependencyState.t) (id : Z) : option Value :=
  match self !! id with
  | Some output =>
      match tr_data output with
      | Some (Some v) => Some v
      | _ => None
      end
  | None => None
  end.

(** The three messages of the [KeyError]s of [resolve_dependencies]. *)
Definition resolve_messages (id : Z) : list string :=
  [ "Step " ++ PyStr.str_int id ++ " not executed or not found in state";
    "Step " ++ PyStr.str_int id ++ " output missing 'data' field";
    "Step " ++ PyStr.str_int id ++ " output missing 'data.value' field" ].

(** Every dependency of every step of [l] names a step of [avail] or an
    earlier step of [l]. *)
Fixpoint deps_available (avail : gset Z) (l : list Step) : Prop :=
  match l with
  | [] => True
  | s :: rest =>
      (forall d, d ∈ dependencies s -> from_step d ∈ avail) /\
      deps_available ({[step_id s]} ∪ avail) rest
  end.

(** The tools keep the response contract of [tool_response]: a result that
    reports success carries [data.value]; and a tool does not raise the
    Executor's own [DependencyResolutionError]. *)
Definition tools_well_behaved {World : Type} `{!Collaborators World} : Prop :=
  forall (w : World) name args id,
    match fst (run_tool w name args id) with
    | inr result => tr_success result = true -> exists v, tr_data result = Some (Some v)
    | inl (DependencyResolutionError _) => False
    | inl _ => True
    end.

(** Tools that always succeed with the given value. *)
Definition constant_world (v : Value) : Collaborators nat :=
  {| run_tool := fun w name _ _ => (inr (tool_response name true v None), S w);
     plan_gateway_replan := fun w _ _ => (inl (OtherException "planner unavailable"), w);
     can_call := fun w _ => (inr true, w);
     record_call := fun w _ => (inr tt, w) |}.

(* ===================================================================== *)
(** * Vocabulary of the statements on the dependency graph                 *)
(* ===================================================================== *)

(** An edge of an adjacency dict: [b] is listed among the parents of [a]. *)
Definition graph_edge (g : gmap Z (list Z)) (a b : Z) : Prop :=
  exists ps, g !! a = Some ps /\ b ∈ ps.

(** Every parent listed in the adjacency dict is one of its keys. *)
Definition graph_closed (g : gmap Z (list Z)) : Prop :=
  forall a b, graph_edge g a b -> is_Some (g !! b).

(** Every dependency of the plan names the id of one of its steps. *)
Definition deps_name_steps (plan : PlannerOutput) : Prop :=
  forall s d, s ∈ steps plan -> d ∈ dependencies s -> from_step d ∈ plan_step_ids plan.

(** The error raised for a cycle. *)
Definition cycle_fault : ValidationFault :=
  PlannerValidationError (_fail "DEPENDENCY_ERROR" "Cyclic dependency detected" None).

(* ===================================================================== *)
(** * Vocabulary of the statements on the Replanner                        *)
(* ===================================================================== *)

(** The entry of [successful_steps] that describes a step of the plan. *)
Definition step_info (s : Step) : SuccessfulStep :=
  {| ss_step_id := step_id s; ss_tool := tool_name s; ss_instruction := instruction s |}.

(* ===================================================================== *)
(** * tools/registry.py and app/runner.py                                  *)
(* ===================================================================== *)

Module Runner.

(** An entry of [TOOL_REGISTRY], as far as the control flow of the runner
    reads it.  The schema and the handler of the entry are the interface
    [Toolbox] below; the timeout enters through the handler's answer. *)
Record ToolEntry := {
  max_retries : Z;
  deterministic : bool
}.

Definition TOOL_REGISTRY : gmap string ToolEntry :=
  list_to_map
    [ ("calculator", {| max_retries := 0; deterministic := true |});
      ("text_transform", {| max_retries := 0; deterministic := true |});
      ("datetime", {| max_retries := 0; deterministic := false |});
      ("normalize_datetime", {| max_retries := 1; deterministic := false |});
      ("weather", {| max_retries := 1; deterministic := false |});
      ("web_search", {| max_retries := 2; deterministic := false |});
      ("combine_search_results", {| max_retries := 0; deterministic := true |});
      ("extract_from_text", {| max_retries := 0; deterministic := false |}) ].

(** What one call [handler(validated_input)] gives, with the comparison of
    its duration with the timeout of the entry:
    - it raised, and [str(e)] is [msg];
    - it returned after more than the timeout; [elapsed] is the text
      [f"{duration:.2f}s > {timeout}s"] of the message;
    - it returned in time something that is no dict with a "success" key;
    - it returned in time a response dict. *)
Inductive HandlerAnswer :=
| HRaises (msg : string)
| HLate (elapsed : string)
| HInvalid
| HResponse (result : ToolResult).

(** The registry, the pydantic schemas (a schema applied to the arguments of the call, [None] when
    it raises) and the handlers, which act on the outside world. *)
Class Toolbox (World : Type) := {
  registry : gmap string ToolEntry;
  schema : string -> gmap string Value -> option (gmap string Value);
  handler : World -> string -> gmap string Value -> HandlerAnswer * World
}.

Section Runner.
Context {World : Type} `{!Toolbox World}.

Definition _execute_single_attempt (tool_name : string)
    (validated_input : gmap string Value) (w : World) : ToolResult * World :=
  match handler w tool_name validated_input with
  | (HRaises msg, w') => (tool_response tool_name false VNone (Some msg), w')
  | (HLate elapsed, w') =>
      (tool_response tool_name false VNone (Some ("Timeout exceeded (" ++ elapsed ++ ")")),
       w')
  | (HInvalid, w') =>
      (tool_response tool_name false VNone (Some "Tool returned invalid response format"),
       w')
  | (HResponse result, w') => (result, w')
  end.

(** [result.get("success") == False and "error" in result]. *)
Definition _is_tool_declared_failure (result : ToolResult) : bool :=
  negb (tr_success result) && bool_decide (is_Some (tr_error result)).

(** The [for attempt in range(1, attempts_allowed + 1)] loop, entered with
    [remaining] iterations left.  The last component counts the calls of
    the handler.  The log line of a tool-declared failure evaluates
    [result.get('error', 'unknown')[:100]], which raises [TypeError] when
    the error is [None]. *)
Fixpoint attempts (remaining : nat) (attempt attempts_allowed : Z) (det : bool)
    (tool_name : string) (validated_input : gmap string Value) (w : World) (calls : nat)
    : ((Exn + ToolResult) * World) * nat :=
  match remaining with
  | O =>
      ((inr (tool_response tool_name false VNone
               (Some ("Exhausted " ++ PyStr.str_int attempts_allowed ++ " attempts"))),
        w), calls)
  | S remaining' =>
      let '(result, w1) := _execute_single_attempt tool_name validated_input w in
      if tr_success result then ((inr result, w1), S calls)
      else if _is_tool_declared_failure result then
        match tr_error result with
        | Some None =>
            ((inl (TypeError "'NoneType' object is not subscriptable"), w1), S calls)
        | _ => ((inr result, w1), S calls)
        end
      else if det || bool_decide (attempt >= attempts_allowed) then
        ((inr result, w1), S calls)
      else
        attempts remaining' (attempt + 1) attempts_allowed det tool_name validated_input
          w1 (S calls)
  end.

Definition attempts_allowed (entry : ToolEntry) : Z :=
  if deterministic entry then 1 else max_retries entry + 1.

Definition _execute_with_retries (tool_name : string) (tool_entry : ToolEntry)
    (validated_input : gmap string Value) (w : World)
    : ((Exn + ToolResult) * World) * nat :=
  attempts (Z.to_nat (attempts_allowed tool_entry)) 1 (attempts_allowed tool_entry)
    (deterministic tool_entry) tool_name validated_input w 0.

(** [run_tool(tool_name, tool_args, context)]; the context is only logged. *)
Definition run_tool (w : World) (tool_name : string) (tool_args : gmap string Value)
    : ((Exn + ToolResult) * World) * nat :=
  match registry !! tool_name with
  | None =>
      ((inr (tool_response tool_name false VNone (Some ("Unknown tool: " ++ tool_name))),
        w), O)
  | Some tool_entry =>
      match schema tool_name tool_args with
      | None =>
          ((inr (tool_response tool_name false VNone (Some "Input validation failed")),
            w), O)
      | Some validated_input =>
          _execute_with_retries tool_name tool_entry validated_input w
      end
  end.

(** The handlers build their results with [tool_response], whose dict
    always has the key "error". *)
Definition handlers_use_tool_response : Prop :=
  forall w name input result w',
    handler w name input = (HResponse result, w') -> is_Some (tr_error result).

(** A response of a handler that reports success carries [data.value]. *)
Definition handlers_carry_value : Prop :=
  forall w name input result w',
    handler w name input = (HResponse result, w') ->
    tr_success result = true -> exists v, tr_data result = Some (Some v).

End Runner.

(** A toolbox over the shipped registry whose handlers all report the
    same failure; the world counts the handler calls. *)
Definition declaring_toolbox (msg : string) : Toolbox nat :=
  {| registry := TOOL_REGISTRY;
     schema := fun _ args => Some args;
     handler := fun w name _ => (HResponse (tool_response name false VNone (Some msg)), S w) |}.

(** A toolbox whose handlers always succeed with the given value. *)
Definition constant_toolbox (v : Value) : Toolbox nat :=
  {| registry := TOOL_REGISTRY;
     schema := fun _ args => Some args;
     handler := fun w name _ => (HResponse (tool_response name true v None), S w) |}.

(** A toolbox whose handlers are always late. *)
Definition late_toolbox : Toolbox nat :=
  {| registry := TOOL_REGISTRY;
     schema := fun _ args => Some args;
     handler := fun w _ _ => (HLate "31.50s > 30.0s", S w) |}.

(** A toolbox whose handlers answer a failure without error text. *)
Definition silent_toolbox : Toolbox nat :=
  {| registry := TOOL_REGISTRY;
     schema := fun _ args => Some args;
     handler := fun w name _ => (HResponse (tool_response name false VNone None), S w) |}.

End Runner.

(** The Executor's collaborators when its tools are run by
    [Runner.run_tool]; the planner and the quota manager stay abstract. *)
Definition runner_collaborators {World : Type} `{!Runner.Toolbox World}
    (planner : World -> string -> ReplanContext -> (Exn + PlannerOutput) * World)
    (quota_check : World -> string -> (Exn + bool) * World)
    (quota_record : World -> string -> (Exn + unit) * World) : Collaborators World :=
  {| run_tool := fun w name args _ => fst (Runner.run_tool w name args);
     plan_gateway_replan := planner;
     can_call := quota_check;
     record_call := quota_record |}.

(* ===================================================================== *)
(** * tools/usage_tracker.py                                               *)
(* ===================================================================== *)

Module Usage.

(** [data["models"][model]] in the usage file. *)
Record ModelUsage := {
  used_calls : Z;
  call_limit : Z
}.

(** The usage file of the day: [None] while it does not exist, else its
    dict [data["models"]].  A single day is considered, so that [_today()]
    names one file throughout. *)
Definition File : Type := option (gmap string ModelUsage).

(** The calls on a [QuotaManager] that read or write the file. *)
Inductive Call :=
| CanCall (model : string)
| RecordCall (model : string)
| GetUsageToday (model : string)
| GetRemainingCalls (model : string).

Section QuotaManager.

(** [self.call_limits]. *)
Variable call_limits : gmap string Z.

(** [_load_today]: the file is created when it is missing. *)
Definition _load_today (file : File) : gmap string ModelUsage * File :=
  match file with
  | None => (∅, Some ∅)
  | Some models => (models, file)
  end.

(** The entry written for a model that the file does not list. *)
Definition new_entry (model : string) : ModelUsage :=
  {| used_calls := 0; call_limit := default 0 (call_limits !! model) |}.

Definition can_call (file : File) (model : string) : bool * File :=
  let '(models, file1) := _load_today file in
  match models !! model with
  | None =>
      let entry := new_entry model in
      (bool_decide (used_calls entry < call_limit entry), Some (<[model := entry]> models))
  | Some entry => (bool_decide (used_calls entry < call_limit entry), file1)
  end.

Definition record_call (file : File) (model : string) : File :=
  let '(models, _) := _load_today file in
  let entry := default (new_entry model) (models !! model) in
  Some (<[model := {| used_calls := used_calls entry + 1;
                      call_limit := call_limit entry |}]> models).

Definition get_usage_today (file : File) (model : string) : Z * File :=
  let '(models, file1) := _load_today file in
  (match models !! model with
   | None => 0
   | Some entry => used_calls entry
   end, file1).

Definition get_remaining_calls (file : File) (model : string) : Z * File :=
  let '(models, file1) := _load_today file in
  (match models !! model with
   | None => default 0 (call_limits !! model)
   | Some entry => Z.max 0 (call_limit entry - used_calls entry)
   end, file1).

(** The file after a call. *)
Definition after (file : File) (c : Call) : File :=
  match c with
  | CanCall model => snd (can_call file model)
  | RecordCall model => record_call file model
  | GetUsageToday model => snd (get_usage_today file model)
  | GetRemainingCalls model => snd (get_remaining_calls file model)
  end.

End QuotaManager.

(** How often [record_call(model)] occurs among the calls. *)
Fixpoint recorded (model : string) (calls : list Call) : Z :=
  match calls with
  | [] => 0
  | RecordCall m :: rest => (if decide (m = model) then 1 else 0) + recorded model rest
  | _ :: rest => recorded model rest
  end.

End Usage.

(** The collaborators of the recovery loop when the quota is kept by a
    [QuotaManager]: the outside world is the usage file together with the
    world of the tools and of the planner, which do not touch the file.
    On a well-formed file the two methods do not raise. *)
Definition quota_collaborators {W : Type} (call_limits : gmap string Z)
    (tool : W -> string -> gmap string Value -> Z -> (Exn + ToolResult) * W)
    (planner : W -> string -> ReplanContext -> (Exn + PlannerOutput) * W)
    : Collaborators (Usage.File * W) :=
  {| run_tool := fun s name args id =>
       let '(result, w') := tool (snd s) name args id in (result, (fst s, w'));
     plan_gateway_replan := fun s user_input context =>
       let '(answer, w') := planner (snd s) user_input context in (answer, (fst s, w'));
     can_call := fun s model =>
       let '(ok, file') := Usage.can_call call_limits (fst s) model in
       (inr ok, (file', snd s));
     record_call := fun s model =>
       (inr tt, (Usage.record_call call_limits (fst s) model, snd s)) |}.

(* ===================================================================== *)
(** * Token budget: track_cost and the response strategy                   *)
(* ===================================================================== *)

Module Cost.

Definition MAX_CONTEXT_TOKENS : Z := 128000.

(** A ratio is kept as the exact fraction [(numerator, denominator)].  The
    limits 0.50 and 0.75 are exact in binary floating point, and so are the
    comparisons of [total / 128000] with them for token counts below 2^53. *)
Definition SAFE_LIMIT : Z * Z := (1, 2).
Definition WARNING_LIMIT : Z * Z := (3, 4).

(** [a < b] for fractions with positive denominators. *)
Definition ratio_lt (a b : Z * Z) : bool :=
  bool_decide (fst a * snd b < fst b * snd a).

Record CostDict := {
  prompt_tokens : Z;
  completion_tokens : Z;
  total_tokens : Z;
  token_utilization_ratio : Z * Z;
  budget_state : string
}.

Definition utilization (total : Z) : Z * Z :=
  if bool_decide (MAX_CONTEXT_TOKENS > 0) then (total, MAX_CONTEXT_TOKENS) else (0, 1).

Definition state_of (ratio : Z * Z) : string :=
  if ratio_lt ratio SAFE_LIMIT then "safe"
  else if ratio_lt ratio WARNING_LIMIT then "warning"
  else "danger".

(** [track_cost(usage)], given the three token counts read from [usage]. *)
Definition track_cost (prompt completion total : Z) : CostDict :=
  let ratio := utilization total in
  {| prompt_tokens := prompt; completion_tokens := completion; total_tokens := total;
     token_utilization_ratio := ratio; budget_state := state_of ratio |}.

Definition sum_of (f : CostDict -> Z) (cost_dicts : list CostDict) : Z :=
  foldr (fun c acc => f c + acc) 0 cost_dicts.

Definition aggregate_costs (cost_dicts : list CostDict) : CostDict :=
  track_cost (sum_of prompt_tokens cost_dicts) (sum_of completion_tokens cost_dicts)
    (sum_of total_tokens cost_dicts).

(** [_determine_response_strategy(planner_cost)] of core/agent.py. *)
Definition _determine_response_strategy (planner_cost : CostDict) : string :=
  if bool_decide (budget_state planner_cost = "critical")
     || bool_decide (budget_state planner_cost = "exceeded")
  then "compressed" else "normal".

End Cost.

(* ===================================================================== *)
(** * core/responder.py and core/agent.py: run_agent                       *)
(* ===================================================================== *)

(** The token counts of a usage object: what [track_cost] reads of it. *)
Record Tokens := {
  tk_prompt : Z;
  tk_completion : Z;
  tk_total : Z
}.

(** The two calls of the language model that [run_agent] makes besides
    the replans, and the post-processing of the responder's text, which is
    a function of the text (it is made of regular expressions).
    - [plan_gateway_plan]: [plan_gateway(user_input, mode="plan")];
    - [llm_responder]: [_llm_responder], which hands back the text and the
      prompt and completion tokens of the call. *)
Class Frontend (World : Type) := {
  plan_gateway_plan : World -> string -> (Exn + (PlannerOutput * Tokens)) * World;
  llm_responder :
    World -> PlannerOutput -> ExecutionResult -> string -> (Exn + (string * (Z * Z))) * World;
  _format_response : string -> string
}.

Module Responder.

Definition FALLBACK_skipped : string :=
  "This request is not supported with the current capabilities.".

Definition FALLBACK_failed : string :=
  "The request could not be completed due to an error.".

Definition _empty_usage : Tokens :=
  {| tk_prompt := 0; tk_completion := 0; tk_total := 0 |}.

Definition _extract_usage (tokens : Z * Z) : Tokens :=
  {| tk_prompt := fst tokens; tk_completion := snd tokens;
     tk_total := fst tokens + snd tokens |}.

Section Responder.
Context {World : Type} `{!Frontend World}.

(** [USE_LLM_RESPONDER] is [True]: the language model is asked first, and
    the template is the fallback when the call raises. *)
Definition _handle_failed (w : World) (planner_output : PlannerOutput)
    (execution_result : ExecutionResult) (prompt_strategy : string)
    : (string * Tokens) * World :=
  match llm_responder w planner_output execution_result prompt_strategy with
  | (inr (text, tokens), w') => ((text, _extract_usage tokens), w')
  | (inl _, w') =>
      let error := default "Unknown error" (md_error (metadata execution_result)) in
      let response :=
        match md_failed_step_id (metadata execution_result) with
        | Some failed_step_id =>
            if bool_decide (failed_step_id ≠ 0) then
              "The request failed at step " ++ PyStr.str_int failed_step_id ++ ": " ++ error
            else FALLBACK_failed
        | None => FALLBACK_failed
        end in
      ((response, _empty_usage), w')
  end.

Definition _handle_completed (w : World) (planner_output : PlannerOutput)
    (execution_result : ExecutionResult) (prompt_strategy : string)
    : (Exn + (string * Tokens)) * World :=
  match llm_responder w planner_output execution_result prompt_strategy with
  | (inr (text, tokens), w') => (inr (_format_response text, _extract_usage tokens), w')
  | (inl e, w') => (inl e, w')
  end.

(** [respond]: whatever is raised inside is answered by the fallback. *)
Definition respond (w : World) (planner_output : PlannerOutput)
    (execution_result : ExecutionResult) (prompt_strategy : string)
    : (string * Tokens) * World :=
  if bool_decide (execution_status execution_result = "skipped") then
    ((FALLBACK_skipped, _empty_usage), w)
  else if bool_decide (execution_status execution_result = "failed") then
    _handle_failed w planner_output execution_result prompt_strategy
  else
    match _handle_completed w planner_output execution_result prompt_strategy with
    | (inr answer, w') => (answer, w')
    | (inl _, w') => ((FALLBACK_failed, _empty_usage), w')
    end.

End Responder.

End Responder.

(** What [run_agent] raises. *)
Inductive AgentFault :=
| InputError (msg : string)              (* ValueError of [_validate_user_input] *)
| PlanRejected (f : ValidationFault)     (* raised by [validate_plan] *)
| Propagated (e : Exn).                  (* raised by the planner or the quota manager *)

(** How [run_agent] ends: with the responder's text and the cost of the
    run, with the quota message, or by raising. *)
Inductive AgentOutcome :=
| Answered (response : string) (run_cost : Cost.CostDict)
| QuotaStopped
| AgentRaised (e : AgentFault).

(** The [except] clauses of [run_agent] for what a collaborator raises:
    [QuotaExceeded] is answered by the quota message, every other exception
    is raised again. *)
Definition agent_except (e : Exn) : AgentOutcome :=
  match e with
  | QuotaExceeded _ => QuotaStopped
  | _ => AgentRaised (Propagated e)
  end.

Definition _validate_user_input (user_input : string) : option string :=
  if negb (PyStr.truthy user_input) || negb (PyStr.strip_nonempty user_input) then
    Some "User input cannot be empty"
  else if bool_decide (2000 < Z.of_nat (String.length user_input)) then
    Some "User input too long (max 2000 characters)"
  else None.

Definition cost_of (usage : Tokens) : Cost.CostDict :=
  Cost.track_cost (tk_prompt usage) (tk_completion usage) (tk_total usage).

Section RunAgent.
Context {World : Type} `{!Collaborators World} `{!ToolRules} `{!Frontend World}.

(** [run_agent(user_input, request_id, quota)].  A refused quota check
    raises [QuotaExceeded]; [None] means that the recovery loop ran out of
    fuel. *)
Definition run_agent (fuel : nat) (w : World) (user_input : string)
    : option (AgentOutcome * World) :=
  match _validate_user_input user_input with
  | Some msg => Some (AgentRaised (InputError msg), w)
  | None =>
      match can_call w Config.MODEL_NAME with
      | (inl e, w1) => Some (agent_except e, w1)
      | (inr false, w1) => Some (QuotaStopped, w1)
      | (inr true, w1) =>
          match plan_gateway_plan w1 user_input with
          | (inl e, w2) => Some (agent_except e, w2)
          | (inr (planner_output, planner_usage), w2) =>
              match record_call w2 Config.MODEL_NAME with
              | (inl e, w3) => Some (agent_except e, w3)
              | (inr _, w3) =>
                  let planner_cost := cost_of planner_usage in
                  match validate_plan planner_output user_input with
                  | inl f => Some (AgentRaised (PlanRejected f), w3)
                  | inr normalized_plan =>
                      match run_with_recovery fuel w3 user_input normalized_plan with
                      | None => None
                      | Some (run, w4) =>
                          let prompt_strategy :=
                            Cost._determine_response_strategy planner_cost in
                          match can_call w4 Config.MODEL_NAME with
                          | (inl e, w5) => Some (agent_except e, w5)
                          | (inr false, w5) => Some (QuotaStopped, w5)
                          | (inr true, w5) =>
                              let '((responder_output, responder_usage), w6) :=
                                Responder.respond w5 (final_plan run) (executor_output run)
                                  prompt_strategy in
                              match record_call w6 Config.MODEL_NAME with
                              | (inl e, w7) => Some (agent_except e, w7)
                              | (inr _, w7) =>
                                  let run_cost :=
                                    Cost.aggregate_costs
                                      [planner_cost; cost_of responder_usage] in
                                  Some (Answered responder_output run_cost, w7)
                              end
                          end
                      end
                  end
              end
          end
      end
  end.

End RunAgent.

(** The language-model calls of [run_agent] over the world of
    [quota_collaborators]: they do not touch the usage file. *)
Definition quota_frontend {W : Type}
    (planner : W -> string -> (Exn + (PlannerOutput * Tokens)) * W)
    (responder :
       W -> PlannerOutput -> ExecutionResult -> string -> (Exn + (string * (Z * Z))) * W)
    (format : string -> string) : Frontend (Usage.File * W) :=
  {| plan_gateway_plan := fun s user_input =>
       let '(answer, w') := planner (snd s) user_input in (answer, (fst s, w'));
     llm_responder := fun s plan result strategy =>
       let '(answer, w') := responder (snd s) plan result strategy in (answer, (fst s, w'));
     _format_response := format |}.

(* ===================================================================== *)
(** * Properties of the string primitives                                  *)
(* ===================================================================== *)

Section PyStrFacts.
Import PyStr.

Lemma append_cons (a : ascii) (s t : string) : String a s ++ t = String a (s ++ t).
Proof. reflexivity. Qed.

Lemma append_nil (t : string) : "" ++ t = t.
Proof. reflexivity. Qed.

Lemma startswith_app (p s : string) :
  startswith p s = true <-> exists post, s = p ++ post.
Proof.
  revert s. induction p as [|a p IH]; intros s; simpl.
  - split; [eauto | done].
  - destruct s as [|b s]; simpl.
    + split; [done | intros [post Hp]; discriminate].
    + destruct (decide (a = b)) as [->|Hne].
      * rewrite IH. split; intros [post Hp]; exists post;
          rewrite append_cons in *; congruence.
      * split; [done | intros [post Hp]; rewrite append_cons in Hp; congruence].
Qed.

Lemma contains_infix (k s : string) :
  contains k s = true <-> exists pre post, s = pre ++ k ++ post.
Proof.
  induction s as [|c s IH]; simpl.
  - rewrite orb_false_r, startswith_app. split.
    + intros [post Hp]. by exists "", post.
    + intros (pre & post & Hp). destruct pre; [eauto | discriminate].
  - rewrite orb_true_iff, startswith_app, IH. split.
    + intros [[post Hp] | (pre & post & Hp)].
      * by exists "", post.
      * exists (String c pre), post. rewrite append_cons. by rewrite Hp.
    + intros (pre & post & Hp). destruct pre as [|c' pre].
      * left. eauto.
      * right. exists pre, post. rewrite append_cons in Hp. congruence.
Qed.

Lemma any_in_exists (ks : list string) (s : string) :
  any_in ks s = true <-> exists k, k ∈ ks /\ contains k s = true.
Proof.
  unfold any_in. rewrite existsb_exists. setoid_rewrite list_elem_of_In. done.
Qed.

Lemma lower_truthy (s : string) : truthy (lower s) = truthy s.
Proof. by destruct s. Qed.

Lemma app_truthy (a k b : string) : truthy k = true -> truthy (a ++ k ++ b) = true.
Proof. destruct a; [destruct k |]; done. Qed.

End PyStrFacts.

Section CaseFacts.
Import PyStr.

(** [lower] leaves a character as it is or takes a capital to its small
    form. *)
Lemma lower_ascii_letter (a : ascii) :
  lower_ascii a = a \/ (a, lower_ascii a) ∈ letters.
Proof.
  destruct a as [[] [] [] [] [] [] [] []];
    first [ left; vm_compute; reflexivity
          | right; apply (bool_decide_unpack _); vm_compute; reflexivity ].
Qed.

Lemma letters_lower (a b : ascii) :
  (a, b) ∈ letters -> lower_ascii a = b /\ lower_ascii b = b.
Proof.
  assert (Hall : Forall (fun p => lower_ascii p.1 = p.2 /\ lower_ascii p.2 = p.2) letters)
    by (apply (bool_decide_unpack _); vm_compute; reflexivity).
  intros Hin. exact (proj1 (Forall_forall _ _) Hall _ Hin).
Qed.

Lemma letters_capital_unique (a b c : ascii) :
  (a, c) ∈ letters -> (b, c) ∈ letters -> a = b.
Proof.
  assert (Hall : Forall (fun p => Forall (fun q => p.2 = q.2 -> p.1 = q.1) letters) letters)
    by (apply (bool_decide_unpack _); vm_compute; reflexivity).
  intros Ha Hb.
  pose proof (proj1 (Forall_forall _ _) Hall _ Ha) as Hrow.
  exact (proj1 (Forall_forall _ _) Hrow _ Hb eq_refl).
Qed.

Lemma same_letter_lower (a b : ascii) :
  same_letter a b <-> lower_ascii a = lower_ascii b.
Proof.
  split.
  - intros [->|[Hab|Hba]]; [done| |].
    + destruct (letters_lower _ _ Hab) as [-> ->]. done.
    + destruct (letters_lower _ _ Hba) as [-> ->]. done.
  - intros Heq.
    destruct (lower_ascii_letter a) as [Ha|Ha], (lower_ascii_letter b) as [Hb|Hb].
    + left. congruence.
    + right; right. rewrite <- Ha, Heq. done.
    + right; left. rewrite <- Hb, <- Heq. done.
    + left. rewrite Heq in Ha. by eapply letters_capital_unique.
Qed.

Lemma same_up_to_case_lower (s t : string) :
  same_up_to_case s t <-> lower s = lower t.
Proof.
  revert t. induction s as [|a s IH]; intros [|b t]; cbn [same_up_to_case lower]; try done.
  rewrite same_letter_lower, IH. split; [intros [-> ->]; done | intros [= -> ->]; done].
Qed.

Lemma lower_app (a b : string) : lower (a ++ b) = lower a ++ lower b.
Proof.
  induction a as [|c a IH]; [done|].
  rewrite append_cons. cbn [lower]. by rewrite append_cons, IH.
Qed.

Lemma lower_split (s a b : string) :
  lower s = a ++ b -> exists s1 s2, s = s1 ++ s2 /\ lower s1 = a /\ lower s2 = b.
Proof.
  revert s. induction a as [|c a IH]; intros s Hs.
  - by exists "", s.
  - destruct s as [|c' s]; [done|]. rewrite append_cons in Hs. cbn [lower] in Hs.
    injection Hs as Hc Hs. destruct (IH s Hs) as (s1 & s2 & -> & Ha & Hb).
    exists (String c' s1), s2. rewrite append_cons. cbn [lower]. by rewrite Hc, Ha.
Qed.

End CaseFacts.

(* ===================================================================== *)
(** * Failure classifier                                                   *)
(* ===================================================================== *)

(** The keywords are written in small letters. *)
Lemma indicators_lower :
  Forall (fun k => PyStr.lower k = k)
    (transient_indicators ++ structural_indicators ++ terminal_indicators)%list.
Proof. repeat constructor. Qed.

(** The test of the classifier, a substring search in the lower-cased
    message, finds a keyword exactly when the message has it in whatever
    case. *)
Lemma any_in_mentions (ks : list string) (error : string) :
  Forall (fun k => PyStr.lower k = k) ks ->
  PyStr.any_in ks (PyStr.lower error) = true <-> mentions ks error.
Proof.
  intros Hks. rewrite any_in_exists. unfold mentions. split.
  - intros (k & Hk & Hc). apply contains_infix in Hc as (pre & post & Hc).
    apply lower_split in Hc as (s1 & s23 & -> & <- & Hc).
    apply lower_split in Hc as (s2 & s3 & -> & Hmid & <-).
    exists k, s1, s2, s3. split_and!; [done | done |].
    apply same_up_to_case_lower. rewrite Hmid. symmetry.
    exact (proj1 (Forall_forall _ _) Hks _ Hk).
  - intros (k & pre & mid & post & Hk & -> & Hmid). exists k. split; [done|].
    apply contains_infix. exists (PyStr.lower pre), (PyStr.lower post).
    rewrite !lower_app. apply same_up_to_case_lower in Hmid. rewrite Hmid.
    by rewrite (proj1 (Forall_forall _ _) Hks _ Hk).
Qed.

Lemma any_in_not_mentions (ks : list string) (error : string) :
  Forall (fun k => PyStr.lower k = k) ks ->
  PyStr.any_in ks (PyStr.lower error) = false <-> ~ mentions ks error.
Proof. intros Hks. rewrite <- (any_in_mentions _ _ Hks). by destruct (PyStr.any_in _ _). Qed.

Lemma mentions_truthy (ks : list string) (error : string) :
  Forall (fun k => PyStr.truthy k = true) ks -> mentions ks error ->
  PyStr.truthy error = true.
Proof.
  intros Hks (k & pre & mid & post & Hk & -> & Hmid).
  apply app_truthy. pose proof (proj1 (Forall_forall _ _) Hks _ Hk) as Htrue.
  destruct k; [done|]. by destruct mid.
Qed.

Lemma indicators_truthy :
  Forall (fun k => PyStr.truthy k = true)
    (transient_indicators ++ structural_indicators ++ terminal_indicators)%list.
Proof. repeat constructor. Qed.

(** C6.  [classify_failure] depends on the error message only (the tool
    name is ignored); it maps "Connection timeout" to TRANSIENT, "Input
    should be a valid integer" to STRUCTURAL, "Permission denied" to TERMINAL
    and the empty message to STRUCTURAL; a message is classified by the
    first keyword set, in the order transient, structural, terminal, of
    which it contains a keyword as a substring in whatever case (so
    "CONNECTION TIMEOUT" is TRANSIENT too), and STRUCTURAL when it contains
    none; messages that differ only in the case of their letters are
    classified alike. *)
Theorem classify_failure_spec :
  (forall error t1 t2, classify_failure error t1 = classify_failure error t2) /\
  (forall t, classify_failure "Connection timeout" t = TRANSIENT) /\
  (forall t, classify_failure "Input should be a valid integer" t = STRUCTURAL) /\
  (forall t, classify_failure "Permission denied" t = TERMINAL) /\
  (forall t, classify_failure "" t = STRUCTURAL) /\
  (forall t, classify_failure "CONNECTION TIMEOUT" t = TRANSIENT) /\
  (forall error t,
      (mentions transient_indicators error -> classify_failure error t = TRANSIENT) /\
      (~ mentions transient_indicators error -> mentions structural_indicators error ->
       classify_failure error t = STRUCTURAL) /\
      (~ mentions transient_indicators error -> ~ mentions structural_indicators error ->
       mentions terminal_indicators error -> classify_failure error t = TERMINAL) /\
      (~ mentions transient_indicators error -> ~ mentions structural_indicators error ->
       ~ mentions terminal_indicators error -> classify_failure error t = STRUCTURAL)) /\
  (forall e1 e2 t, same_up_to_case e1 e2 ->
                   classify_failure e1 t = classify_failure e2 t).
Proof.
  pose proof indicators_truthy as Hall.
  apply Forall_app in Hall as [Htr Hall]. apply Forall_app in Hall as [Hst Hte].
  pose proof indicators_lower as Hlow.
  apply Forall_app in Hlow as [Ltr Hlow]. apply Forall_app in Hlow as [Lst Lte].
  repeat split; try done.
  - intros Hm. unfold classify_failure.
    rewrite (mentions_truthy _ _ Htr Hm). cbn [negb].
    apply any_in_mentions in Hm; [|done]. by rewrite Hm.
  - intros Hn Hm. unfold classify_failure.
    rewrite (mentions_truthy _ _ Hst Hm). cbn [negb].
    apply any_in_not_mentions in Hn; [|done]. apply any_in_mentions in Hm; [|done].
    by rewrite Hn, Hm.
  - intros Hn1 Hn2 Hm. unfold classify_failure.
    rewrite (mentions_truthy _ _ Hte Hm). cbn [negb].
    apply any_in_not_mentions in Hn1; [|done]. apply any_in_not_mentions in Hn2; [|done].
    apply any_in_mentions in Hm; [|done].
    by rewrite Hn1, Hn2, Hm.
  - intros Hn1 Hn2 Hn3. unfold classify_failure. cbv zeta.
    apply any_in_not_mentions in Hn1; [|done]. apply any_in_not_mentions in Hn2; [|done].
    apply any_in_not_mentions in Hn3; [|done]. rewrite Hn1, Hn2, Hn3.
    by destruct (negb _).
  - intros e1 e2 t He%same_up_to_case_lower. unfold classify_failure. cbv zeta.
    rewrite <- (lower_truthy e1), <- (lower_truthy e2), He. done.
Qed.

(* ===================================================================== *)
(** * Dependency State                                                     *)
(* ===================================================================== *)

Lemma store_lookup_eq (self : DependencyState.t) (id : Z) (output : ToolResult) :
  DependencyState.get_step_output (DependencyState.store self id output) id = Some output.
Proof. unfold DependencyState.get_step_output, DependencyState.store. apply lookup_insert_eq. Qed.

Lemma store_lookup_ne (self : DependencyState.t) (id j : Z) (output : ToolResult) :
  id ≠ j ->
  DependencyState.get_step_output (DependencyState.store self id output) j
  = DependencyState.get_step_output self j.
Proof.
  intros Hne. unfold DependencyState.get_step_output, DependencyState.store.
  by apply lookup_insert_ne.
Qed.

(** C7, refuted as stated.  After [store(1, a)], a second [store(1, b)]
    with a different output ends normally and step 1 now maps to [b]: the
    first stored value has been replaced. *)
Lemma store_twice_replaces :
  let a := Scenario.success "datetime" in
  let b := Scenario.timeout_failure "datetime" in
  let once := DependencyState.store DependencyState.init 1 a in
  DependencyState.get_step_output once 1 = Some a /\
  DependencyState.get_step_output (DependencyState.store once 1 b) 1 = Some b /\
  a <> b.
Proof. repeat split; try apply store_lookup_eq. discriminate. Qed.

(** C7, amended.  [store] never fails; calling it again with a step_id that
    is already stored overwrites the earlier output: afterwards the step_id
    maps to the output stored last, the state is the one a single store of
    that output would give, and no other step_id is affected. *)
Theorem store_overwrites (self : DependencyState.t) (id : Z) (a b : ToolResult) :
  let twice := DependencyState.store (DependencyState.store self id a) id b in
  DependencyState.get_step_output twice id = Some b /\
  twice = DependencyState.store self id b /\
  (forall j, j <> id ->
     DependencyState.get_step_output twice j = DependencyState.get_step_output self j).
Proof.
  cbv zeta. split; [apply store_lookup_eq|]. split.
  - unfold DependencyState.store. apply insert_insert_eq.
  - intros j Hj. by rewrite !store_lookup_ne.
Qed.

(* ===================================================================== *)
(** * Executor                                                             *)
(* ===================================================================== *)

Section ExecutorFacts.
Context {World : Type} `{!Collaborators World}.

Lemma stored_view_snoc (rs : list StepResult) (r : StepResult) :
  stored_view (rs ++ [r]) =
  if sr_success r then DependencyState.store (stored_view rs) (sr_step_id r) (sr_data r)
  else stored_view rs.
Proof. unfold stored_view. by rewrite foldl_app. Qed.

(** The step record built by [_execute_single_step] carries the id of the
    step and the success flag of the tool result. *)
Lemma _execute_single_step_result (step : Step) (ds : DependencyState.t) (w w' : World)
    (r : StepResult) :
  _execute_single_step step ds w = (inr r, w') ->
  sr_step_id r = step_id step /\ sr_tool_name r = tool_name step /\
  sr_success r = tr_success (sr_data r).
Proof.
  unfold _execute_single_step. intros Hs.
  repeat case_match; simplify_eq; done.
Qed.

(** Loop invariant of [execute_plan]: the Dependency State holds exactly the
    outputs of the steps recorded as successful, and a failing step is
    recorded in [step_results] without being stored. *)
Lemma execute_steps_stored (l : list Step) (st st' : ExecState) (w w' : World)
    (exit : LoopExit) :
  execute_steps l st w = ((exit, st'), w') ->
  dependency_state st = stored_view (es_step_results st) ->
  dependency_state st' = stored_view (es_step_results st') /\
  (forall failed error, exit = LoopStepFailed failed error ->
     exists rs r, es_step_results st' = (rs ++ [r])%list /\
                  sr_step_id r = step_id failed /\ sr_success r = false /\
                  dependency_state st' = stored_view rs).
Proof.
  revert st w. induction l as [|step rest IH]; intros st w Hrun Hinv; simpl in Hrun.
  - simplify_eq. split; [done | intros ?? [=]].
  - destruct (_execute_single_step step (dependency_state st) w) as [[e|r] w1] eqn:Hstep.
    + simplify_eq. split; [done | intros ?? [=]].
    + apply _execute_single_step_result in Hstep as (Hid & _ & _).
      destruct (sr_success r) eqn:Hok; simpl in Hrun.
      * apply IH in Hrun; [done|]. simpl.
        by rewrite stored_view_snoc, Hok, Hinv, Hid.
      * destruct (tr_error (sr_data r)) as [[m|]|]; simplify_eq; simpl;
          rewrite stored_view_snoc, Hok; (split; [done|]); intros ?? [=]; subst;
          eauto 10.
Qed.

Lemma execute_steps_failed_in (l : list Step) (st st' : ExecState) (w w' : World)
    (failed : Step) (error : option string) :
  execute_steps l st w = ((LoopStepFailed failed error, st'), w') -> failed ∈ l.
Proof.
  revert st w. induction l as [|step rest IH]; intros st w Hrun; simpl in Hrun.
  - simplify_eq.
  - repeat case_match; simplify_eq; try (apply list_elem_of_here).
    apply list_elem_of_further. eauto.
Qed.

Lemma execute_plan_state_fst (w : World) (plan : PlannerOutput) :
  execute_plan w plan =
  (fst (fst (execute_plan_state w plan)), snd (execute_plan_state w plan)).
Proof. unfold execute_plan. by destruct (execute_plan_state w plan) as [[??]?]. Qed.

(** The step named in [metadata.failed_step_id] is a step of the plan. *)
Lemma execute_plan_failed_id (w w' : World) (plan : PlannerOutput)
    (output : ExecutionResult) (sid : Z) :
  execute_plan w plan = (output, w') ->
  md_failed_step_id (metadata output) = Some sid ->
  sid ∈ step_id <$> steps plan.
Proof.
  rewrite execute_plan_state_fst. unfold execute_plan_state.
  case_bool_decide; [intros [= <- <-]; done|].
  destruct (execute_steps _ _ _) as [[[]?]?] eqn:Hrun; intros [= <- <-]; simpl; try done.
  intros [= <-]. apply execute_steps_failed_in in Hrun.
  by apply list_elem_of_fmap_2.
Qed.

(** C4.  For a plan with [plan_status = "impossible"], [execute_plan]
    returns at once the result with status "skipped", [executed_steps = 0]
    and no step results; the outside world is left as it was (no tool has
    been invoked, whatever the tools are) and no Dependency State has been
    created. *)
Theorem execute_plan_impossible (w : World) (plan : PlannerOutput) :
  plan_status plan = "impossible" ->
  exists result,
    execute_plan w plan = (result, w) /\
    execute_plan_state w plan = ((result, None), w) /\
    execution_status result = "skipped" /\
    executed_steps result = 0 /\
    step_results result = [].
Proof.
  intros Himp. exists _create_skipped_result.
  unfold execute_plan, execute_plan_state. rewrite bool_decide_eq_true_2 by done. done.
Qed.

(** C2, amended.  For a plan that is not impossible, the Dependency State
    at the moment [execute_plan] returns holds exactly the tool results of
    the steps recorded as successful in [step_results], stored in order;
    when the run stops at a failing step, that step's result is the last
    entry of [step_results] and has not been stored. *)
Theorem execute_plan_stores_successes (w : World) (plan : PlannerOutput) :
  plan_status plan <> "impossible" ->
  exists result ds w',
    execute_plan_state w plan = ((result, Some ds), w') /\
    ds = stored_view (step_results result) /\
    (forall sid, md_failed_step_id (metadata result) = Some sid ->
       exists rs r, step_results result = (rs ++ [r])%list /\
                    sr_step_id r = sid /\ sr_success r = false /\
                    ds = stored_view rs).
Proof.
  intros Hposs. unfold execute_plan_state. rewrite bool_decide_eq_false_2 by done.
  destruct (execute_steps (steps plan) exec_init w) as [[exit st] w'] eqn:Hrun.
  apply execute_steps_stored in Hrun as [Hview Hfail]; [|done].
  destruct exit as [|failed error|e]; eexists _, _, _; (split; [reflexivity|]);
    simpl; (split; [done|]); intros sid [=].
  subst. destruct (Hfail _ _ eq_refl) as (rs & r & ? & ? & ? & ?). eauto 10.
Qed.

End ExecutorFacts.

(** C2, refuted as stated.  Step 1 succeeds and step 2 times out: the run
    returns the failed result naming step 2, whose output is in
    [step_results], while the Dependency State holds step 1 only. *)
Lemma failed_step_not_stored :
  exists result ds w',
    @execute_plan_state nat Scenario.stuck_world 0%nat Scenario.plan_two
    = ((result, Some ds), w') /\
    execution_status result = "failed" /\
    md_failed_step_id (metadata result) = Some 2 /\
    sr_data <$> last (step_results result) = Some (Scenario.timeout_failure "datetime") /\
    DependencyState.has_step ds 1 = true /\
    DependencyState.has_step ds 2 = false /\
    DependencyState.get_step_output ds 2 = None.
Proof. eexists _, _, _. split; [reflexivity|]. vm_compute. done. Qed.

Lemma execute_plan_stores_successes_witness :
  exists result ds w',
    @execute_plan_state nat Scenario.stuck_world 0%nat Scenario.plan_two
    = ((result, Some ds), w') /\
    ds = stored_view (step_results result) /\
    (forall sid, md_failed_step_id (metadata result) = Some sid ->
       exists rs r, step_results result = (rs ++ [r])%list /\
                    sr_step_id r = sid /\ sr_success r = false /\
                    ds = stored_view rs).
Proof.
  apply (@execute_plan_stores_successes nat Scenario.stuck_world 0%nat Scenario.plan_two).
  vm_compute. discriminate.
Defined.

Lemma execute_plan_impossible_witness :
  exists result,
    @execute_plan _ Scenario.logging_world [] Scenario.plan_impossible = (result, []) /\
    @execute_plan_state _ Scenario.logging_world [] Scenario.plan_impossible
    = ((result, None), []) /\
    execution_status result = "skipped" /\
    executed_steps result = 0 /\
    step_results result = [].
Proof.
  apply (@execute_plan_impossible _ Scenario.logging_world [] Scenario.plan_impossible).
  reflexivity.
Defined.

(* ===================================================================== *)
(** * Plan validator: dependencies and cycles                              *)
(* ===================================================================== *)

Section DependencyFacts.
Implicit Types (plan : PlannerOutput) (step : Step) (ids : gset Z).

(** A plan is dependency-sound when every declared dependency names an
    existing step with a strictly smaller id. *)
Lemma dependencies_deps_None ids step deps :
  dependencies_deps ids step deps = None ->
  forall d, d ∈ deps -> from_step d ∈ ids /\ from_step d < step_id step.
Proof.
  induction deps as [|dep rest IH]; simpl; intros Hok d Hd.
  - by apply elem_of_nil in Hd.
  - repeat case_decide; try done. destruct (negb _); [done|].
    apply elem_of_cons in Hd as [->|Hd]; [split; [done | lia] | by apply IH].
Qed.

Lemma dependencies_deps_Some ids step deps e :
  dependencies_deps ids step deps = Some e -> category e = "DEPENDENCY_ERROR".
Proof.
  induction deps as [|dep rest IH]; simpl; [done|].
  repeat case_decide; try (by intros [= <-]).
  destruct (negb _); [by intros [= <-] | done].
Qed.

Lemma dependencies_steps_None ids l :
  dependencies_steps ids l = None ->
  forall s d, s ∈ l -> d ∈ dependencies s -> from_step d ∈ ids /\ from_step d < step_id s.
Proof.
  induction l as [|step rest IH]; simpl; intros Hok s d Hs Hd.
  - by apply elem_of_nil in Hs.
  - destruct (dependencies_deps ids step (dependencies step)) eqn:Hdeps; [done|].
    apply elem_of_cons in Hs as [->|Hs]; [by eapply dependencies_deps_None | by eapply IH].
Qed.

Lemma dependencies_steps_Some ids l e :
  dependencies_steps ids l = Some e -> category e = "DEPENDENCY_ERROR".
Proof.
  induction l as [|step rest IH]; simpl; [done|].
  destruct (dependencies_deps ids step (dependencies step)) eqn:Hdeps; [|done].
  intros [= <-]. by eapply dependencies_deps_Some.
Qed.

(** Every failure of [_validate_dependencies] is a DEPENDENCY_ERROR. *)
Lemma _validate_dependencies_category plan e :
  _validate_dependencies plan = Some e -> category e = "DEPENDENCY_ERROR".
Proof. apply dependencies_steps_Some. Qed.

(** A plan that passes [_validate_dependencies] has only edges that lead
    to an existing step with a strictly smaller id. *)
Lemma _validate_dependencies_edges plan a b :
  _validate_dependencies plan = None -> dep_edge plan a b ->
  b ∈ plan_step_ids plan /\ b < a.
Proof.
  intros Hok (s & d & Hs & Hd & <- & <-). by eapply dependencies_steps_None.
Qed.

Lemma decreasing_tc (R : relation Z) (a b : Z) :
  (forall x y, R x y -> y < x) -> tc R a b -> b < a.
Proof.
  intros Hdec Hab. induction Hab as [x y Hxy | x y z Hxy _ IH].
  - by apply Hdec.
  - apply Hdec in Hxy. lia.
Qed.

(** Hence such a plan has no cycle. *)
Lemma _validate_dependencies_acyclic plan :
  _validate_dependencies plan = None -> ~ has_cycle plan.
Proof.
  intros Hok [a Hcyc].
  apply (decreasing_tc (dep_edge plan)) in Hcyc; [lia|].
  intros x y Hxy. by eapply _validate_dependencies_edges.
Qed.

End DependencyFacts.

Section ValidateFacts.
Context `{!ToolRules}.

Lemma first_failure_cons_None (checks : list (option ValidationFault)) :
  first_failure (None :: checks) = first_failure checks.
Proof. done. Qed.

(** A plan with a cyclic dependency graph is rejected, and with category
    DEPENDENCY_ERROR once the three earlier checks are passed. *)
Lemma validate_plan_cycle (plan : PlannerOutput) (user_query : string) :
  has_cycle plan ->
  exists e,
    validate_plan plan user_query = inl (PlannerValidationError e) /\
    (_validate_schema plan = None -> _validate_fail_reason plan = None ->
     _validate_tools plan = None -> category e = "DEPENDENCY_ERROR").
Proof.
  intros Hcyc. unfold validate_plan.
  destruct (_validate_schema plan) as [e|] eqn:Hschema;
    [exists e; simpl; split; [done | by intros [=]] |].
  destruct (_validate_fail_reason plan) as [e|] eqn:Hreason;
    [exists e; simpl; split; [done | by intros _ [=]] |].
  destruct (_validate_tools plan) as [e|] eqn:Htools;
    [exists e; simpl; split; [done | by intros _ _ [=]] |].
  destruct (_validate_dependencies plan) as [e|] eqn:Hdeps.
  - exists e. simpl. split; [done|]. intros _ _ _.
    by eapply _validate_dependencies_category.
  - by apply _validate_dependencies_acyclic in Hdeps.
Qed.

(** [validate_plan] hands back the plan it was given. *)
Lemma validate_plan_inr (plan plan' : PlannerOutput) (user_query : string) :
  validate_plan plan user_query = inr plan' -> plan' = plan.
Proof. unfold validate_plan. destruct (first_failure _); congruence. Qed.

End ValidateFacts.

(* ===================================================================== *)
(** * Plan validator: the depth-first walk                                 *)
(* ===================================================================== *)

Section GraphFacts.
Variable plan : PlannerOutput.

Local Abbreviation graph_ok := (graph_ok plan).
Local Abbreviation rank := (rank plan).

Lemma graph_init_lookup (l : list Step) (g : gmap Z (list Z)) (k : Z) :
  foldl (fun g s => <[step_id s := []]> g) g l !! k
  = if decide (k ∈ step_id <$> l) then Some [] else g !! k.
Proof.
  revert g. induction l as [|s l IH]; intros g; cbn [foldl].
  - rewrite fmap_nil, decide_False; [done | apply not_elem_of_nil].
  - rewrite IH, fmap_cons. destruct (decide (k ∈ step_id <$> l)) as [Hin|Hout].
    + rewrite decide_True; [done | by apply list_elem_of_further].
    + destruct (decide (k = step_id s)) as [->|Hne].
      * rewrite lookup_insert_eq, decide_True; [done | apply list_elem_of_here].
      * rewrite lookup_insert_ne by done. rewrite decide_False; [done|].
        intros [?|?]%elem_of_cons; done.
Qed.

Lemma graph_init_ok : graph_ok (graph_init (steps plan)).
Proof.
  unfold graph_init. split.
  - intros k. rewrite graph_init_lookup, lookup_empty. unfold plan_step_ids.
    rewrite elem_of_list_to_set. case_decide; split; try done.
  - intros k ps p. rewrite graph_init_lookup, lookup_empty.
    case_decide; [|done]. intros [= <-] Hp. by apply elem_of_nil in Hp.
Qed.

Lemma graph_add_deps_ok (s : Step) (ds : list Dependency) (g : gmap Z (list Z)) :
  s ∈ steps plan -> (forall d, d ∈ ds -> d ∈ dependencies s) -> graph_ok g ->
  graph_ok (foldl (fun g d => alter (fun ps => (ps ++ [from_step d])%list) (step_id s) g) g ds).
Proof.
  intros Hs. revert g. induction ds as [|d ds IH]; intros g Hds Hg; simpl; [done|].
  apply IH; [intros d' Hd'; apply Hds; by apply list_elem_of_further|].
  destruct Hg as [Hkeys Hedges]. split.
  - intros k. rewrite <- Hkeys, lookup_alter.
    case_decide; [subst; by rewrite fmap_is_Some | done].
  - intros k ps p. rewrite lookup_alter. case_decide as Hk; [|apply Hedges].
    subst k. destruct (g !! step_id s) as [ps0|] eqn:Hps0; [|done].
    intros [= <-] [Hp | ->%list_elem_of_singleton]%elem_of_app; [by eapply Hedges|].
    exists s, d. repeat split; [done | apply Hds, list_elem_of_here].
Qed.

Lemma graph_add_steps_ok (l : list Step) (g : gmap Z (list Z)) :
  (forall s, s ∈ l -> s ∈ steps plan) -> graph_ok g ->
  graph_ok (foldl graph_add_step g l).
Proof.
  revert g. induction l as [|s l IH]; intros g Hl Hg; simpl; [done|].
  apply IH; [intros s' Hs'; apply Hl; by apply list_elem_of_further|].
  apply graph_add_deps_ok; [apply Hl, list_elem_of_here | done | done].
Qed.

Lemma build_graph_ok : graph_ok (build_graph plan).
Proof. apply graph_add_steps_ok; [done | apply graph_init_ok]. Qed.

Lemma keys_in_order_elem (ids : list Z) (seen : gset Z) (k : Z) :
  k ∈ keys_in_order ids seen -> k ∈ ids.
Proof.
  revert seen. induction ids as [|i ids IH]; intros seen; simpl; [done|].
  case_decide.
  - intros Hk. apply list_elem_of_further. by eapply IH.
  - intros [->|Hk]%elem_of_cons; [apply list_elem_of_here|].
    apply list_elem_of_further. by eapply IH.
Qed.

Lemma graph_keys_elem (k : Z) : k ∈ graph_keys plan -> k ∈ plan_step_ids plan.
Proof.
  intros Hk%keys_in_order_elem. unfold plan_step_ids. by apply elem_of_list_to_set.
Qed.

Lemma size_list_to_set_le (l : list Z) : (size (list_to_set l : gset Z) <= length l)%nat.
Proof.
  induction l as [|x l IH]; [by rewrite list_to_set_nil, size_empty|].
  rewrite list_to_set_cons, size_union_alt, size_singleton. cbn [length].
  assert (Hsub : (list_to_set l ∖ {[x]} : gset Z) ⊆ list_to_set l)
    by (by intros y [??]%elem_of_difference).
  apply subseteq_size in Hsub. lia.
Qed.

Lemma rank_lt (p k : Z) : p ∈ plan_step_ids plan -> p < k -> (rank p < rank k)%nat.
Proof.
  intros Hp Hlt. unfold rank. apply subset_size. split.
  - intros x. rewrite !elem_of_filter. intros [??]. split; [lia | done].
  - intros Hsub. specialize (Hsub p). rewrite !elem_of_filter in Hsub.
    destruct Hsub; [done | lia].
Qed.

Lemma rank_lt_steps (k : Z) :
  k ∈ plan_step_ids plan -> (rank k < S (length (steps plan)))%nat.
Proof.
  intros Hk.
  assert (rank k < size (plan_step_ids plan))%nat.
  { unfold rank. apply subset_size. split.
    - intros x. rewrite elem_of_filter. by intros [??].
    - intros Hsub. specialize (Hsub k Hk). rewrite elem_of_filter in Hsub.
      destruct Hsub; lia. }
  pose proof (size_list_to_set_le (step_id <$> steps plan)) as Hle.
  rewrite length_fmap in Hle. unfold plan_step_ids in *. lia.
Qed.

Hypothesis deps_ok : _validate_dependencies plan = None.

Lemma graph_parent (k p : Z) (ps : list Z) :
  build_graph plan !! k = Some ps -> p ∈ ps ->
  p < k /\ p ∈ plan_step_ids plan /\ is_Some (build_graph plan !! p).
Proof.
  intros Hk Hp. destruct build_graph_ok as [Hkeys Hedges].
  pose proof (Hedges _ _ _ Hk Hp) as Hedge.
  apply _validate_dependencies_edges in Hedge as [Hin Hlt]; [|done].
  repeat split; [done | done | by apply Hkeys].
Qed.

(** A call [dfs(node)] made while every node on the walk stack has a
    larger id than [node] never finds [node] on the stack: it returns with
    the stack as it found it, or, in the model, runs out of its recursion
    budget, which needs a budget not above the rank of [node]. *)
Lemma dfs_returns (fuel : nat) (node : Z) (visited stack : gset Z) :
  node ∈ plan_step_ids plan ->
  (forall x, x ∈ stack -> node < x) ->
  (exists visited', dfs fuel (build_graph plan) node visited stack
                    = DfsReturn visited' stack) \/
  (dfs fuel (build_graph plan) node visited stack = DfsOutOfFuel /\ (fuel <= rank node)%nat).
Proof.
  revert node visited stack.
  induction fuel as [|fuel IH]; intros node visited stack Hnode Hstack; simpl.
  { right. split; [done | lia]. }
  rewrite decide_False by (intros Hin%Hstack; lia).
  case_decide; [by eauto|].
  destruct (build_graph plan !! node) as [parents|] eqn:Hparents;
    [| by apply build_graph_ok in Hnode as [? ?]; simplify_eq].
  assert (Hloop : forall ps visited0,
             (forall p, p ∈ ps -> p ∈ parents) ->
             (exists visited', dfs_parents (dfs fuel (build_graph plan)) ps visited0
                                 ({[node]} ∪ stack)
                               = DfsReturn visited' ({[node]} ∪ stack)) \/
             (dfs_parents (dfs fuel (build_graph plan)) ps visited0 ({[node]} ∪ stack)
              = DfsOutOfFuel /\ (S fuel <= rank node)%nat)).
  { induction ps as [|p ps IHps]; intros visited0 Hps; simpl; [by eauto|].
    destruct (graph_parent node p parents Hparents) as (Hlt & Hin & _);
      [apply Hps, list_elem_of_here|].
    destruct (IH p visited0 ({[node]} ∪ stack) Hin) as [[v' ->] | [-> Hfuel]].
    - intros x [->%elem_of_singleton | Hx%Hstack]%elem_of_union; lia.
    - apply IHps. intros p' Hp'. by apply Hps, list_elem_of_further.
    - right. split; [done|]. pose proof (rank_lt p node Hin Hlt). lia. }
  destruct (Hloop parents visited) as [[v' ->] | [-> Hfuel]]; [done | | by right].
  left. eexists. f_equal.
  assert (Hfresh : node ∉ stack) by (intros Hin%Hstack; lia).
  apply set_eq. intros x.
  rewrite elem_of_difference, elem_of_union, !elem_of_singleton.
  split; [tauto|]. intros Hx. split; [tauto | by intros ->].
Qed.

Lemma walk_returns (fuel : nat) (keys : list Z) (visited : gset Z) :
  (forall k, k ∈ keys -> k ∈ plan_step_ids plan) ->
  (length (steps plan) < fuel)%nat ->
  exists visited', dfs_parents (dfs fuel (build_graph plan)) keys visited ∅
                   = DfsReturn visited' ∅.
Proof.
  intros Hkeys Hfuel. revert visited.
  induction keys as [|k keys IH]; intros visited; simpl; [by eauto|].
  assert (Hk : k ∈ plan_step_ids plan) by apply Hkeys, list_elem_of_here.
  destruct (dfs_returns fuel k visited ∅ Hk) as [[v' ->] | [_ Hlow]]; [set_solver | |].
  - apply IH. intros k' Hk'. by apply Hkeys, list_elem_of_further.
  - pose proof (rank_lt_steps k Hk). lia.
Qed.

Lemma walk_never_cycles (fuel : nat) (keys : list Z) (visited : gset Z) :
  (forall k, k ∈ keys -> k ∈ plan_step_ids plan) ->
  dfs_parents (dfs fuel (build_graph plan)) keys visited ∅ <> DfsCycle.
Proof.
  intros Hkeys. revert visited.
  induction keys as [|k keys IH]; intros visited; simpl; [done|].
  assert (Hk : k ∈ plan_step_ids plan) by apply Hkeys, list_elem_of_here.
  destruct (dfs_returns fuel k visited ∅ Hk) as [[v' ->] | [-> _]]; [set_solver | | done].
  apply IH. intros k' Hk'. by apply Hkeys, list_elem_of_further.
Qed.

End GraphFacts.

(** After [_validate_dependencies], [_validate_no_cycles] passes. *)
Lemma _validate_no_cycles_passes (plan : PlannerOutput) :
  _validate_dependencies plan = None -> _validate_no_cycles plan = None.
Proof.
  intros Hdeps. unfold _validate_no_cycles, _validate_no_cycles_within, no_cycles_walk.
  destruct (walk_returns plan Hdeps (S (length (steps plan))) (graph_keys plan) ∅)
    as [v' ->]; [apply graph_keys_elem | lia | done].
Qed.

(** [validate_plan] is total: it accepts the plan or raises a
    PlannerValidationError; the walk of [_validate_no_cycles] neither meets a
    missing key nor exhausts its recursion budget. *)
Lemma validate_plan_outcome `{!ToolRules} (plan : PlannerOutput) (user_query : string) :
  validate_plan plan user_query = inr plan \/
  exists e, validate_plan plan user_query = inl (PlannerValidationError e).
Proof.
  unfold validate_plan.
  destruct (_validate_schema plan) as [e|]; [right; by exists e|].
  destruct (_validate_fail_reason plan) as [e|]; [right; by exists e|].
  destruct (_validate_tools plan) as [e|]; [right; by exists e|].
  destruct (_validate_dependencies plan) as [e|] eqn:Hdeps; [right; by exists e|].
  simpl. rewrite (_validate_no_cycles_passes plan Hdeps).
  destruct (_validate_query_intent plan user_query) as [e|]; [right; by exists e|].
  destruct (_validate_datetime_usage plan user_query) as [e|]; [right; by exists e|].
  destruct (_validate_pipelines plan) as [e|]; [right; by exists e|].
  by left.
Qed.

(** C10.  For a plan that passes [_validate_dependencies], the walk of
    [_validate_no_cycles] never meets a node that is on its stack: every
    call of [dfs] is made with a stack of nodes of larger id, the walk ends
    normally, and the branch that raises "Cyclic dependency detected" is
    taken for no recursion budget whatever. *)
Theorem no_cycles_unreachable (plan : PlannerOutput) :
  _validate_dependencies plan = None ->
  _validate_no_cycles plan = None /\
  (forall fuel, no_cycles_walk fuel plan <> DfsCycle) /\
  (forall fuel node visited stack,
     node ∈ plan_step_ids plan -> (forall x, x ∈ stack -> node < x) ->
     dfs fuel (build_graph plan) node visited stack <> DfsCycle) /\
  ~ has_cycle plan.
Proof.
  intros Hdeps. repeat split.
  - by apply _validate_no_cycles_passes.
  - intros fuel. apply walk_never_cycles; [done | apply graph_keys_elem].
  - intros fuel node visited stack Hnode Hstack.
    destruct (dfs_returns plan Hdeps fuel node visited stack Hnode Hstack)
      as [[v' ->] | [-> _]]; done.
  - by apply _validate_dependencies_acyclic.
Qed.

Lemma no_cycles_unreachable_witness :
  _validate_no_cycles Scenario.plan_chain = None /\
  (forall fuel, no_cycles_walk fuel Scenario.plan_chain <> DfsCycle) /\
  (forall fuel node visited stack,
     node ∈ plan_step_ids Scenario.plan_chain -> (forall x, x ∈ stack -> node < x) ->
     dfs fuel (build_graph Scenario.plan_chain) node visited stack <> DfsCycle) /\
  ~ has_cycle Scenario.plan_chain.
Proof. apply (no_cycles_unreachable Scenario.plan_chain). vm_compute. reflexivity. Defined.

(* ===================================================================== *)
(** * Recovery loop: counting                                              *)
(* ===================================================================== *)

Lemma count_events_app (p : Event -> bool) (a b : list Event) :
  count_events p (a ++ b) = count_events p a + count_events p b.
Proof. induction a as [|e a IH]; simpl; [done | rewrite IH; lia]. Qed.

Lemma count_events_nonneg (p : Event -> bool) (tr : list Event) : 0 <= count_events p tr.
Proof. induction tr as [|e tr IH]; simpl; [done | destruct (p e); lia]. Qed.

Lemma total_retries_empty : total_retries ∅ = 0.
Proof. apply map_fold_empty. Qed.

Lemma total_retries_insert (m : gmap (option Z) Z) (k : option Z) (v : Z) :
  m !! k = None -> total_retries (<[k := v]> m) = v + total_retries m.
Proof.
  intros Hk. unfold total_retries.
  rewrite map_fold_insert_L; [done | intros; lia | done].
Qed.

Lemma total_retries_bump (m : gmap (option Z) Z) (k : option Z) :
  total_retries (bump m k) = total_retries m + 1.
Proof.
  unfold bump. destruct (m !! k) as [v|] eqn:Hk; simpl.
  - rewrite <- (insert_delete_eq m), total_retries_insert by apply lookup_delete_eq.
    rewrite <- (insert_delete_id m k v) at 2 by done.
    rewrite total_retries_insert by apply lookup_delete_eq. lia.
  - rewrite total_retries_insert by done. lia.
Qed.

Lemma total_retries_le (M : Z) (m : gmap (option Z) Z) :
  (forall k v, m !! k = Some v -> v <= M) ->
  total_retries m <= M * Z.of_nat (size m).
Proof.
  induction m as [|k v m Hk IH] using map_ind; intros Hle.
  - rewrite total_retries_empty, map_size_empty. lia.
  - rewrite total_retries_insert, map_size_insert_None by done.
    assert (v <= M) by (apply (Hle k); apply lookup_insert_eq).
    assert (total_retries m <= M * Z.of_nat (size m)).
    { apply IH. intros k' v' Hk'. apply (Hle k').
      rewrite lookup_insert_ne; [done | congruence]. }
    lia.
Qed.

Lemma bump_lookup (m : gmap (option Z) Z) (k k' : option Z) :
  default 0 (bump m k !! k')
  = if decide (k = k') then default 0 (m !! k) + 1 else default 0 (m !! k').
Proof.
  unfold bump. case_decide as Hk.
  - subst. by rewrite lookup_insert_eq.
  - by rewrite lookup_insert_ne.
Qed.

Lemma retries_of_snoc_retry (k k' : option Z) (tr : list Event) :
  retries_of k' (tr ++ [EvRetry k]) = retries_of k' tr + if decide (k = k') then 1 else 0.
Proof.
  unfold retries_of. rewrite count_events_app. simpl.
  case_decide; [rewrite bool_decide_eq_true_2 | rewrite bool_decide_eq_false_2]; done.
Qed.

Lemma budget_over_bump_le (M : Z) (m : gmap (option Z) Z) (k : option Z)
    (l : list (option Z)) :
  0 <= default 0 (m !! k) ->
  (budget_over M (bump m k) l <= budget_over M m l)%nat.
Proof.
  intros Hk. induction l as [|k' l IH]; simpl; [done|].
  rewrite bump_lookup. case_decide; subst; lia.
Qed.

Lemma budget_over_bump_lt (M : Z) (m : gmap (option Z) Z) (k : option Z)
    (l : list (option Z)) :
  0 <= default 0 (m !! k) -> k ∈ l -> default 0 (bump m k !! k) <= M ->
  (budget_over M (bump m k) l < budget_over M m l)%nat.
Proof.
  intros Hk Hin Hle. rewrite bump_lookup, decide_True in Hle by done.
  induction l as [|k' l IH]; simpl; [by apply elem_of_nil in Hin|].
  pose proof (budget_over_bump_le M m k l Hk).
  rewrite bump_lookup. apply elem_of_cons in Hin as [<-|Hin].
  - rewrite decide_True by done. lia.
  - specialize (IH Hin). case_decide; subst; lia.
Qed.

(* ===================================================================== *)
(** * Recovery loop: invariant                                             *)
(* ===================================================================== *)

Section LoopInvariant.
Variables (max_retries max_replans : Z).
Implicit Types (retries : gmap (option Z) Z) (replans : Z) (tr : list Event).
Implicit Types (plan : PlannerOutput) (k : option Z).

Lemma retries_of_snoc_execute k tr plan :
  retries_of k (tr ++ [EvExecute plan]) = retries_of k tr.
Proof. unfold retries_of. rewrite count_events_app. simpl. lia. Qed.

Lemma retries_of_snoc_other k tr (e : Event) :
  is_retry e = false -> retries_of k (tr ++ [e]) = retries_of k tr.
Proof.
  intros He. unfold retries_of. rewrite count_events_app.
  destruct e; simpl in *; (done || lia).
Qed.

Lemma keys_executed_app retries tr tr' :
  keys_executed retries tr -> keys_executed retries (tr ++ tr').
Proof.
  intros Hk k Hsome. destruct (Hk k Hsome) as (p & Hp & Hin).
  exists p. split; [apply elem_of_app; by left | done].
Qed.

Lemma keys_executed_bump retries tr tr' plan k :
  keys_executed retries tr -> k ∈ plan_keys plan ->
  keys_executed (bump retries k) ((tr ++ [EvExecute plan]) ++ tr').
Proof.
  intros Hk Hin k' Hsome. destruct (decide (k = k')) as [<-|Hne].
  - exists plan. split; [|done]. rewrite !elem_of_app, list_elem_of_singleton. tauto.
  - unfold bump in Hsome. rewrite lookup_insert_ne in Hsome by done.
    destruct (Hk k' Hsome) as (p & Hp & Hin'). exists p. split; [|done].
    rewrite !elem_of_app. tauto.
Qed.

Lemma LoopInv_init : LoopInv max_retries max_replans ∅ 0 [].
Proof.
  split; try done; [lia|]. intros k. rewrite lookup_empty. by intros [? ?].
Qed.

Lemma LoopInv_counter_nonneg retries replans tr k :
  LoopInv max_retries max_replans retries replans tr -> 0 <= default 0 (retries !! k).
Proof.
  intros Hinv. destruct (retries !! k) as [v|] eqn:Hk; simpl; [|done].
  apply (inv_retry_range _ _ _ _ _ Hinv) in Hk. lia.
Qed.

Lemma LoopInv_retry retries replans tr plan k :
  LoopInv max_retries max_replans retries replans tr ->
  k ∈ plan_keys plan ->
  default 0 (bump retries k !! k) <= max_retries ->
  LoopInv max_retries max_replans (bump retries k) replans
    ((tr ++ [EvExecute plan]) ++ [EvRetry k]).
Proof.
  intros Hinv Hkey Hle. pose proof (LoopInv_counter_nonneg _ _ _ k Hinv) as Hk0.
  destruct Hinv as [Hex Hof Hrange Htot Hrep Hcalls Hden Hqr Hrr Hkeys]. split.
  - count_events_simpl count_events_app. lia.
  - intros k'. rewrite retries_of_snoc_retry, retries_of_snoc_execute, bump_lookup, Hof.
    case_decide; subst; lia.
  - intros k' v Hv. destruct (decide (k = k')) as [<-|Hne].
    + rewrite Hv in Hle. simpl in Hle.
      pose proof (bump_lookup retries k k) as Hb. rewrite Hv, decide_True in Hb by done.
      simpl in Hb. lia.
    + unfold bump in Hv. rewrite lookup_insert_ne in Hv by done. eauto.
  - count_events_simpl count_events_app. rewrite total_retries_bump. lia.
  - count_events_simpl count_events_app. lia.
  - count_events_simpl count_events_app. lia.
  - count_events_simpl count_events_app. lia.
  - rewrite !count_events_app. cbn [count_events is_quota_raised]. lia.
  - done.
  - by apply keys_executed_bump.
Qed.

Lemma LoopInv_replan retries replans tr plan plan' :
  LoopInv max_retries max_replans retries replans tr ->
  replans < max_replans ->
  LoopInv max_retries max_replans retries (replans + 1)
    ((tr ++ [EvExecute plan]) ++ [EvReplanCall; EvReplanned plan']).
Proof.
  intros [Hex Hof Hrange Htot Hrep Hcalls Hden Hqr Hrr Hkeys] Hlt. split.
  - count_events_simpl count_events_app. lia.
  - intros k. unfold retries_of in *. rewrite !count_events_app. simpl. rewrite <- Hof. lia.
  - done.
  - count_events_simpl count_events_app. lia.
  - count_events_simpl count_events_app. lia.
  - count_events_simpl count_events_app. lia.
  - count_events_simpl count_events_app. lia.
  - rewrite !count_events_app. cbn [count_events is_quota_raised]. lia.
  - lia.
  - by do 2 apply keys_executed_app.
Qed.

Lemma retries_le_max retries replans tr k v :
  LoopInv max_retries max_replans retries replans tr ->
  retries !! k = Some v -> v <= Z.max 0 max_retries.
Proof. intros Hinv Hk. apply (inv_retry_range _ _ _ _ _ Hinv) in Hk. lia. Qed.

Lemma retries_of_le_max retries replans tr k :
  LoopInv max_retries max_replans retries replans tr ->
  retries_of k tr <= Z.max 0 max_retries.
Proof.
  intros Hinv. rewrite (inv_retries_of _ _ _ _ _ Hinv).
  destruct (retries !! k) as [v|] eqn:Hk; simpl; [by eapply retries_le_max | lia].
Qed.

(** The loop is left after an Executor run without a further attempt:
    completion, a terminal failure, or an exhausted replan budget. *)
Lemma RunFacts_stop retries replans tr plan (output : ExecutionResult) :
  LoopInv max_retries max_replans retries replans tr ->
  RunFacts max_retries max_replans
    {| executor_output := output; final_plan := plan; final_retries := retries;
       final_replans := replans; trace := tr ++ [EvExecute plan] |}.
Proof.
  intros Hinv. pose proof (fun k => retries_of_le_max _ _ _ k Hinv) as Hmax.
  pose proof (fun k v => retries_le_max _ _ _ k v Hinv) as Hmaxv.
  destruct Hinv as [Hex Hof Hrange Htot Hrep Hcalls Hden Hqr Hrr Hkeys]. split; simpl.
  - count_events_simpl count_events_app. lia.
  - intros k. rewrite retries_of_snoc_execute, Hof. split; [lia|]. rewrite <- Hof. apply Hmax.
  - count_events_simpl count_events_app. rewrite Z.add_0_r, Htot. by apply total_retries_le.
  - count_events_simpl count_events_app. lia.
  - count_events_simpl count_events_app. lia.
  - done.
  - left. count_events_simpl count_events_app. lia.
  - by apply keys_executed_app.
Qed.

(** The loop is left because the retries of step [k] are used up. *)
Lemma RunFacts_exhausted retries replans tr plan (output : ExecutionResult) k :
  LoopInv max_retries max_replans retries replans tr ->
  k ∈ plan_keys plan ->
  RunFacts max_retries max_replans
    {| executor_output := output; final_plan := plan; final_retries := bump retries k;
       final_replans := replans; trace := tr ++ [EvExecute plan] |}.
Proof.
  intros Hinv Hkey. pose proof (fun k => retries_of_le_max _ _ _ k Hinv) as Hmax.
  pose proof (fun k v => retries_le_max _ _ _ k v Hinv) as Hmaxv.
  destruct Hinv as [Hex Hof Hrange Htot Hrep Hcalls Hden Hqr Hrr Hkeys]. split; simpl.
  - count_events_simpl count_events_app. lia.
  - intros k'. rewrite retries_of_snoc_execute, bump_lookup. split; [|apply Hmax].
    rewrite Hof. case_decide; subst; lia.
  - count_events_simpl count_events_app. rewrite Z.add_0_r, Htot.
    etrans; [by apply total_retries_le|].
    assert (size retries <= size (bump retries k))%nat.
    { unfold bump. rewrite map_size_insert. destruct (retries !! k); simpl; lia. }
    nia.
  - count_events_simpl count_events_app. lia.
  - count_events_simpl count_events_app. lia.
  - done.
  - left. count_events_simpl count_events_app. lia.
  - rewrite <- (app_nil_r (tr ++ [EvExecute plan])). by apply keys_executed_bump.
Qed.

(** The loop is left because the Replanner raised. *)
Lemma RunFacts_replan_failed retries replans tr plan (output : ExecutionResult) :
  LoopInv max_retries max_replans retries replans tr ->
  replans < max_replans ->
  RunFacts max_retries max_replans
    {| executor_output := output; final_plan := plan; final_retries := retries;
       final_replans := replans + 1;
       trace := (tr ++ [EvExecute plan]) ++ [EvReplanCall] |}.
Proof.
  intros Hinv Hlt. pose proof (fun k => retries_of_le_max _ _ _ k Hinv) as Hmax.
  pose proof (fun k v => retries_le_max _ _ _ k v Hinv) as Hmaxv.
  destruct Hinv as [Hex Hof Hrange Htot Hrep Hcalls Hden Hqr Hrr Hkeys]. split; simpl.
  - count_events_simpl count_events_app. lia.
  - intros k. rewrite retries_of_snoc_other, retries_of_snoc_execute, Hof by done.
    split; [lia|]. rewrite <- Hof. apply Hmax.
  - count_events_simpl count_events_app. rewrite !Z.add_0_r, Htot. by apply total_retries_le.
  - count_events_simpl count_events_app. lia.
  - count_events_simpl count_events_app. lia.
  - lia.
  - left. count_events_simpl count_events_app. lia.
  - by do 2 apply keys_executed_app.
Qed.

(** The loop is left because the quota check before the Replanner failed. *)
Lemma RunFacts_quota_denied retries replans tr plan (output : ExecutionResult) :
  LoopInv max_retries max_replans retries replans tr ->
  replans < max_replans ->
  RunFacts max_retries max_replans
    {| executor_output := output; final_plan := plan; final_retries := retries;
       final_replans := replans + 1;
       trace := (tr ++ [EvExecute plan]) ++ [EvQuotaDenied] |}.
Proof.
  intros Hinv Hlt. pose proof (fun k => retries_of_le_max _ _ _ k Hinv) as Hmax.
  pose proof (fun k v => retries_le_max _ _ _ k v Hinv) as Hmaxv.
  destruct Hinv as [Hex Hof Hrange Htot Hrep Hcalls Hden Hqr Hrr Hkeys]. split; simpl.
  - count_events_simpl count_events_app. lia.
  - intros k. rewrite retries_of_snoc_other, retries_of_snoc_execute, Hof by done.
    split; [lia|]. rewrite <- Hof. apply Hmax.
  - count_events_simpl count_events_app. rewrite !Z.add_0_r, Htot. by apply total_retries_le.
  - count_events_simpl count_events_app. lia.
  - count_events_simpl count_events_app. lia.
  - lia.
  - right. split; [count_events_simpl count_events_app; lia|].
    split; [count_events_simpl count_events_app; lia|]. split.
    + exists tr. by rewrite <- app_assoc.
    + intros k. by rewrite retries_of_snoc_other, retries_of_snoc_execute, Hof.
  - by do 2 apply keys_executed_app.
Qed.

(** The loop is left because the quota check before the Replanner raised. *)
Lemma RunFacts_quota_raised retries replans tr plan (output : ExecutionResult) :
  LoopInv max_retries max_replans retries replans tr ->
  replans < max_replans ->
  RunFacts max_retries max_replans
    {| executor_output := output; final_plan := plan; final_retries := retries;
       final_replans := replans + 1;
       trace := (tr ++ [EvExecute plan]) ++ [EvQuotaRaised] |}.
Proof.
  intros Hinv Hlt. pose proof (fun k => retries_of_le_max _ _ _ k Hinv) as Hmax.
  pose proof (fun k v => retries_le_max _ _ _ k v Hinv) as Hmaxv.
  destruct Hinv as [Hex Hof Hrange Htot Hrep Hcalls Hden Hqr Hrr Hkeys]. split; simpl.
  - count_events_simpl count_events_app. lia.
  - intros k. rewrite retries_of_snoc_other, retries_of_snoc_execute, Hof by done.
    split; [lia|]. rewrite <- Hof. apply Hmax.
  - count_events_simpl count_events_app. rewrite !Z.add_0_r, Htot. by apply total_retries_le.
  - count_events_simpl count_events_app. lia.
  - count_events_simpl count_events_app. lia.
  - lia.
  - left. count_events_simpl count_events_app. lia.
  - by do 2 apply keys_executed_app.
Qed.

(** The loop is left because [record_call] raised after the Replanner had
    handed back a plan: this plan is returned with the result of the
    Executor run on the plan it was to replace. *)
Lemma RunFacts_record_raised retries replans tr plan plan' (output : ExecutionResult) :
  LoopInv max_retries max_replans retries replans tr ->
  replans < max_replans ->
  RunFacts max_retries max_replans
    {| executor_output := output; final_plan := plan'; final_retries := retries;
       final_replans := replans + 1;
       trace := (tr ++ [EvExecute plan]) ++ [EvReplanCall; EvRecordRaised plan'] |}.
Proof.
  intros Hinv Hlt. pose proof (fun k => retries_of_le_max _ _ _ k Hinv) as Hmax.
  pose proof (fun k v => retries_le_max _ _ _ k v Hinv) as Hmaxv.
  destruct Hinv as [Hex Hof Hrange Htot Hrep Hcalls Hden Hqr Hrr Hkeys]. split; simpl.
  - count_events_simpl count_events_app. lia.
  - intros k. unfold retries_of in *. rewrite !count_events_app. simpl. rewrite <- Hof.
    split; [lia|]. specialize (Hmax k). unfold retries_of in Hmax. lia.
  - count_events_simpl count_events_app. rewrite !Z.add_0_r, Htot. by apply total_retries_le.
  - count_events_simpl count_events_app. lia.
  - count_events_simpl count_events_app. lia.
  - lia.
  - left. count_events_simpl count_events_app. lia.
  - by do 2 apply keys_executed_app.
Qed.

End LoopInvariant.

(* ===================================================================== *)
(** * Recovery loop: runs                                                  *)
(* ===================================================================== *)

Section AgentFacts.
Context {World : Type} `{!Collaborators World} `{!ToolRules}.
Variables (max_retries max_replans : Z) (user_input : string).

Local Abbreviation loop := (recovery_loop max_retries max_replans user_input).
Local Abbreviation returns := (loop_returns max_retries max_replans user_input).

(** One iteration of the [while True] loop, case by case. *)
Lemma recovery_loop_unfold (fuel : nat) (plan : PlannerOutput)
    (retries : gmap (option Z) Z) (replans : Z) (tr : list Event) (w : World) :
  loop (S fuel) plan retries replans tr w =
  let '(output, w1) := execute_plan w plan in
  let tr1 := (tr ++ [EvExecute plan])%list in
  let stop retries replans tr w :=
    Some ({| executor_output := output; final_plan := plan;
             final_retries := retries; final_replans := replans;
             trace := tr |}, w) in
  if bool_decide (execution_status output = "completed") then stop retries replans tr1 w1
  else
    let k := md_failed_step_id (metadata output) in
    match classify_failure (default "" (md_error (metadata output)))
            (_get_tool_name plan k) with
    | TRANSIENT =>
        if bool_decide (default 0 (bump retries k !! k) <= max_retries)
        then loop fuel plan (bump retries k) replans (tr1 ++ [EvRetry k])%list w1
        else stop (bump retries k) replans tr1 w1
    | STRUCTURAL =>
        if bool_decide (replans < max_replans) then
          match can_call w1 Config.MODEL_NAME with
          | (inl _, w2) => stop retries (replans + 1) (tr1 ++ [EvQuotaRaised])%list w2
          | (inr false, w2) => stop retries (replans + 1) (tr1 ++ [EvQuotaDenied])%list w2
          | (inr true, w2) =>
              match replan_gateway w2 plan output user_input with
              | (inr plan', w3) =>
                  match record_call w3 Config.MODEL_NAME with
                  | (inr _, w4) =>
                      loop fuel plan' retries (replans + 1)
                        (tr1 ++ [EvReplanCall; EvReplanned plan'])%list w4
                  | (inl _, w4) =>
                      Some ({| executor_output := output; final_plan := plan';
                               final_retries := retries; final_replans := replans + 1;
                               trace := (tr1 ++ [EvReplanCall; EvRecordRaised plan'])%list |},
                            w4)
                  end
              | (inl _, w3) => stop retries (replans + 1) (tr1 ++ [EvReplanCall])%list w3
              end
          end
        else stop retries replans tr1 w1
    | TERMINAL => stop retries replans tr1 w1
    end.
Proof. reflexivity. Qed.

Lemma failed_step_id_key (w w1 : World) (plan : PlannerOutput) (output : ExecutionResult) :
  execute_plan w plan = (output, w1) ->
  md_failed_step_id (metadata output) ∈ plan_keys plan.
Proof.
  intros Hexec. unfold plan_keys.
  destruct (md_failed_step_id (metadata output)) as [sid|] eqn:Hid.
  - apply list_elem_of_further, list_elem_of_fmap_2.
    by eapply execute_plan_failed_id.
  - apply list_elem_of_here.
Qed.

(** Every finished run satisfies [RunFacts]. *)
Lemma recovery_loop_facts (fuel : nat) (plan : PlannerOutput)
    (retries : gmap (option Z) Z) (replans : Z) (tr : list Event) (w w' : World)
    (r : RecoveryRun) :
  LoopInv max_retries max_replans retries replans tr ->
  loop fuel plan retries replans tr w = Some (r, w') ->
  RunFacts max_retries max_replans r.
Proof.
  revert plan retries replans tr w.
  induction fuel as [|fuel IH]; intros plan retries replans tr w Hinv Hrun; [done|].
  rewrite recovery_loop_unfold in Hrun.
  destruct (execute_plan w plan) as [output w1] eqn:Hexec. cbv zeta in Hrun.
  apply failed_step_id_key in Hexec.
  case_bool_decide; [simplify_eq; by apply RunFacts_stop|].
  destruct (classify_failure _ _).
  - case_bool_decide.
    + eapply IH; [|done]. by apply LoopInv_retry.
    + simplify_eq. by apply RunFacts_exhausted.
  - case_bool_decide; [|simplify_eq; by apply RunFacts_stop].
    destruct (can_call w1 Config.MODEL_NAME) as [[e|[|]] w2].
    + simplify_eq. by apply RunFacts_quota_raised.
    + destruct (replan_gateway w2 plan output user_input) as [[f|plan'] w3].
      * simplify_eq. by apply RunFacts_replan_failed.
      * destruct (record_call w3 Config.MODEL_NAME) as [[e|u] w4].
        -- simplify_eq. by apply RunFacts_record_raised.
        -- eapply IH; [|done]. by apply LoopInv_replan.
    + simplify_eq. by apply RunFacts_quota_denied.
  - simplify_eq. by apply RunFacts_stop.
Qed.

(** More fuel does not change the outcome of a run. *)
Lemma recovery_loop_fuel_mono (fuel fuel' : nat) (plan : PlannerOutput)
    (retries : gmap (option Z) Z) (replans : Z) (tr : list Event) (w : World)
    (res : RecoveryRun * World) :
  (fuel <= fuel')%nat ->
  loop fuel plan retries replans tr w = Some res ->
  loop fuel' plan retries replans tr w = Some res.
Proof.
  revert fuel' plan retries replans tr w.
  induction fuel as [|fuel IH]; intros fuel' plan retries replans tr w Hle Hrun; [done|].
  destruct fuel' as [|fuel']; [lia|].
  rewrite recovery_loop_unfold in *.
  destruct (execute_plan w plan) as [output w1]. cbv zeta in *.
  case_bool_decide; [done|].
  destruct (classify_failure _ _); [| |done].
  - case_bool_decide; [|done]. apply IH; [lia | done].
  - case_bool_decide; [|done].
    destruct (can_call w1 Config.MODEL_NAME) as [[e|[|]] w2]; [done| |done].
    destruct (replan_gateway w2 plan output user_input) as [[f|plan'] w3]; [done|].
    destruct (record_call w3 Config.MODEL_NAME) as [[e|u] w4]; [done|].
    apply IH; [lia | done].
Qed.

(** A run has one outcome, whatever fuel it is given. *)
Lemma recovery_loop_deterministic (fuel1 fuel2 : nat) (plan : PlannerOutput)
    (retries : gmap (option Z) Z) (replans : Z) (tr : list Event) (w : World)
    (res1 res2 : RecoveryRun * World) :
  loop fuel1 plan retries replans tr w = Some res1 ->
  loop fuel2 plan retries replans tr w = Some res2 ->
  res1 = res2.
Proof.
  intros H1 H2.
  apply (recovery_loop_fuel_mono fuel1 (fuel1 `max` fuel2)) in H1; [|lia].
  apply (recovery_loop_fuel_mono fuel2 (fuel1 `max` fuel2)) in H2; [|lia].
  congruence.
Qed.

(** A loop state returns as soon as the states it may continue with do. *)
Lemma returns_step (plan : PlannerOutput) (retries : gmap (option Z) Z) (replans : Z)
    (tr : list Event) (w : World) :
  (forall output w1 k,
     execute_plan w plan = (output, w1) -> k = md_failed_step_id (metadata output) ->
     default 0 (bump retries k !! k) <= max_retries ->
     returns plan (bump retries k) replans ((tr ++ [EvExecute plan]) ++ [EvRetry k]) w1) ->
  (forall plan' w3,
     replans < max_replans ->
     returns plan' retries (replans + 1)
       ((tr ++ [EvExecute plan]) ++ [EvReplanCall; EvReplanned plan']) w3) ->
  returns plan retries replans tr w.
Proof.
  intros Hretry Hreplan. unfold loop_returns in *.
  destruct (execute_plan w plan) as [output w1] eqn:Hexec.
  specialize (Hretry output w1 _ eq_refl eq_refl).
  destruct (bool_decide (execution_status output = "completed")) eqn:Hdone.
  { exists 1%nat. eexists. rewrite recovery_loop_unfold, Hexec. cbv zeta.
    by rewrite Hdone. }
  destruct (classify_failure (default "" (md_error (metadata output)))
              (_get_tool_name plan (md_failed_step_id (metadata output)))) eqn:Hclass.
  - destruct (bool_decide (default 0 (bump retries (md_failed_step_id (metadata output))
                                        !! md_failed_step_id (metadata output))
                           <= max_retries)) eqn:Hle.
    + apply bool_decide_eq_true_1 in Hle as Hle'.
      destruct (Hretry Hle') as (fuel & res & Hrun).
      exists (S fuel), res. rewrite recovery_loop_unfold, Hexec. cbv zeta.
      by rewrite Hdone, Hclass, Hle.
    + exists 1%nat. eexists. rewrite recovery_loop_unfold, Hexec. cbv zeta.
      by rewrite Hdone, Hclass, Hle.
  - destruct (bool_decide (replans < max_replans)) eqn:Hlt.
    + destruct (can_call w1 Config.MODEL_NAME) as [[e|[|]] w2] eqn:Hquota.
      * exists 1%nat. eexists. rewrite recovery_loop_unfold, Hexec. cbv zeta.
        by rewrite Hdone, Hclass, Hlt, Hquota.
      * destruct (replan_gateway w2 plan output user_input) as [[f|plan'] w3] eqn:Hgate.
        -- exists 1%nat. eexists. rewrite recovery_loop_unfold, Hexec. cbv zeta.
           by rewrite Hdone, Hclass, Hlt, Hquota, Hgate.
        -- destruct (record_call w3 Config.MODEL_NAME) as [[e|u] w4] eqn:Hrecord.
           ++ exists 1%nat. eexists. rewrite recovery_loop_unfold, Hexec. cbv zeta.
              by rewrite Hdone, Hclass, Hlt, Hquota, Hgate, Hrecord.
           ++ apply bool_decide_eq_true_1 in Hlt as Hlt'.
              destruct (Hreplan plan' w4 Hlt') as (fuel & res & Hrun).
              exists (S fuel), res. rewrite recovery_loop_unfold, Hexec. cbv zeta.
              by rewrite Hdone, Hclass, Hlt, Hquota, Hgate, Hrecord.
      * exists 1%nat. eexists. rewrite recovery_loop_unfold, Hexec. cbv zeta.
        by rewrite Hdone, Hclass, Hlt, Hquota.
    + exists 1%nat. eexists. rewrite recovery_loop_unfold, Hexec. cbv zeta.
      by rewrite Hdone, Hclass, Hlt.
  - exists 1%nat. eexists. rewrite recovery_loop_unfold, Hexec. cbv zeta.
    by rewrite Hdone, Hclass.
Qed.

(** Termination of [run_with_recovery]: the replans left decrease at every
    replan, and between two replans the retries left for the current plan
    decrease at every retry. *)
Lemma recovery_loop_returns (n : nat) :
  forall (b : nat) (plan : PlannerOutput) (retries : gmap (option Z) Z) (replans : Z)
         (tr : list Event) (w : World),
    LoopInv max_retries max_replans retries replans tr ->
    (Z.to_nat (max_replans - replans) <= n)%nat ->
    (budget_over max_retries retries (plan_keys plan) <= b)%nat ->
    returns plan retries replans tr w.
Proof.
  induction n as [n IHn] using lt_wf_ind.
  induction b as [b IHb] using lt_wf_ind.
  intros plan retries replans tr w Hinv Hn Hb. apply returns_step.
  - intros output w1 k Hexec -> Hle.
    pose proof (LoopInv_counter_nonneg _ _ _ _ _ (md_failed_step_id (metadata output)) Hinv).
    pose proof (budget_over_bump_lt max_retries retries _ (plan_keys plan)
                  ltac:(done) (failed_step_id_key _ _ _ _ Hexec) Hle) as Hdec.
    eapply (IHb (budget_over max_retries
                   (bump retries (md_failed_step_id (metadata output))) (plan_keys plan)));
      [lia | apply LoopInv_retry; [done | by eapply failed_step_id_key | done]
       | done | done].
  - intros plan' w3 Hlt.
    eapply (IHn (Z.to_nat (max_replans - (replans + 1))));
      [lia | by apply LoopInv_replan | done | done].
Qed.

Local Abbreviation run := (run_with_recovery_from max_retries max_replans user_input).

Lemma run_facts (fuel : nat) (w w' : World) (plan : PlannerOutput) (r : RecoveryRun) :
  run fuel w plan = Some (r, w') -> RunFacts max_retries max_replans r.
Proof. apply recovery_loop_facts, LoopInv_init. Qed.

Lemma run_returns (w : World) (plan : PlannerOutput) : returns plan ∅ 0 [] w.
Proof. eapply recovery_loop_returns; [apply LoopInv_init | done | done]. Qed.

(** C9.  With a non-negative retry limit, in every run of
    [run_with_recovery] and for every step id (or absent id) [k]: the number
    of retry re-executions triggered by failures of [k], counted over all
    plans executed in the run, is at most [max_retries_per_step]; and the
    counter [retries[k]] is never reset by a replan, for at the end it
    still accounts for every one of these retries (it exceeds their number
    by one exactly when the run stopped on the exhausted budget of [k]). *)
Theorem retries_shared_across_replans (fuel : nat) (w w' : World)
    (plan : PlannerOutput) (r : RecoveryRun) :
  0 <= max_retries ->
  run fuel w plan = Some (r, w') ->
  forall k,
    retries_of k (trace r) <= max_retries /\
    retries_of k (trace r) <= default 0 (final_retries r !! k) <= retries_of k (trace r) + 1.
Proof.
  intros Hmax Hrun k. apply run_facts in Hrun.
  destruct (run_retries_of _ _ _ Hrun k) as [Hcount Hle]. split; [lia | done].
Qed.

(** C1, amended.  With non-negative limits, [run_with_recovery] returns for
    every initial plan and every behaviour of the tools, the planner and
    the quota; the number of Executor runs is at most
    [1 + max_replans_per_run + max_retries_per_step * d], where [d] is the
    number of distinct [failed_step_id] values that failed transiently in
    the run (the keys of [retries]), each of them absent or the id of a step
    of an executed plan.  The result does not depend on the fuel. *)
Theorem run_with_recovery_bounded (w : World) (plan : PlannerOutput) :
  0 <= max_retries -> 0 <= max_replans ->
  exists fuel r w',
    run fuel w plan = Some (r, w') /\
    executions (trace r)
    <= 1 + max_replans + max_retries * Z.of_nat (size (final_retries r)) /\
    keys_executed (final_retries r) (trace r) /\
    (forall fuel' res, run fuel' w plan = Some res -> res = (r, w')).
Proof.
  intros Hretries Hreplans.
  destruct (run_returns w plan) as (fuel & [r w'] & Hrun).
  exists fuel, r, w'. split; [done|].
  pose proof (run_facts _ _ _ _ _ Hrun) as Hfacts. split; [|split].
  - destruct Hfacts as [Hex _ Htot Hrep Hreps Hrange Hden _].
    pose proof (count_events_nonneg is_quota_denied (trace r)).
    pose proof (count_events_nonneg is_quota_raised (trace r)).
    unfold quota_denials in *.
    rewrite Z.max_r in Htot by done. lia.
  - apply (run_keys _ _ _ Hfacts).
  - intros fuel' res Hrun'. symmetry. by eapply recovery_loop_deterministic.
Qed.


(** A step that is stuck: [n] retries are left for it. *)
Lemma stuck_step_run (plan : PlannerOutput) (sid : Z) (n : nat) :
  always_fails_transiently_at plan sid ->
  forall (retries : gmap (option Z) Z) (replans : Z) (tr : list Event) (w : World),
    default 0 (retries !! Some sid) = max_retries - Z.of_nat n ->
    exists fuel r w' w_last,
      loop fuel plan retries replans tr w = Some (r, w') /\
      executions (trace r) = executions tr + Z.of_nat n + 1 /\
      retries_of (Some sid) (trace r) = retries_of (Some sid) tr + Z.of_nat n /\
      replan_calls (trace r) = replan_calls tr /\
      final_plan r = plan /\
      execute_plan w_last plan = (executor_output r, w') /\
      execution_status (executor_output r) = "failed" /\
      md_failed_step_id (metadata (executor_output r)) = Some sid.
Proof.
  intros Hfail. induction n as [|n IH]; intros retries replans tr w Hleft;
    destruct (Hfail w) as (output & w1 & msg & Hexec & Hstatus & Hid & Herr & Hclass).
  - exists 1%nat. eexists _, _, w.
    rewrite recovery_loop_unfold, Hexec. cbv zeta. rewrite Hstatus, Herr, Hid. simpl.
    rewrite Hclass, bump_lookup, decide_True, bool_decide_eq_false_2 by (done || lia).
    split; [reflexivity|]. cbn [executor_output final_plan trace].
    rewrite Hstatus, Hid, retries_of_snoc_execute. count_events_simpl count_events_app.
    repeat split; (done || lia).
  - destruct (IH (bump retries (Some sid)) replans
                ((tr ++ [EvExecute plan]) ++ [EvRetry (Some sid)])%list w1)
      as (fuel & r & w' & w_last & Hrun & Hexecs & Hretries & Hcalls & Hrest).
    { rewrite bump_lookup, decide_True by done. lia. }
    exists (S fuel), r, w', w_last.
    rewrite recovery_loop_unfold, Hexec. cbv zeta. rewrite Hstatus, Herr, Hid. simpl.
    rewrite Hclass, bump_lookup, decide_True, bool_decide_eq_true_2 by (done || lia).
    split; [done|]. split; [|split; [|split; [|done]]].
    + rewrite Hexecs. count_events_simpl count_events_app. lia.
    + rewrite Hretries, retries_of_snoc_retry, retries_of_snoc_execute, decide_True by done.
      lia.
    + rewrite Hcalls. count_events_simpl count_events_app. lia.
Qed.

(** C3, amended.  If every Executor run of the plan fails at one and the
    same step with an error classified TRANSIENT, then, for a non-negative
    retry limit, [run_with_recovery] invokes [execute_plan] exactly
    [1 + max_retries_per_step] times, never calls the Replanner, and returns
    the result of the last Executor run, which has status "failed" and
    names that step, together with the unchanged plan. *)
Theorem stuck_step_exact_runs (plan : PlannerOutput) (sid : Z) (w : World) :
  0 <= max_retries ->
  always_fails_transiently_at plan sid ->
  exists fuel r w' w_last,
    run fuel w plan = Some (r, w') /\
    executions (trace r) = 1 + max_retries /\
    retries_of (Some sid) (trace r) = max_retries /\
    replan_calls (trace r) = 0 /\
    final_plan r = plan /\
    execute_plan w_last plan = (executor_output r, w') /\
    execution_status (executor_output r) = "failed" /\
    md_failed_step_id (metadata (executor_output r)) = Some sid.
Proof.
  intros Hmax Hfail.
  destruct (stuck_step_run plan sid (Z.to_nat max_retries) Hfail ∅ 0 [] w)
    as (fuel & r & w' & w_last & Hrun & Hexecs & Hretries & Hcalls & Hrest).
  { rewrite lookup_empty. simpl. lia. }
  exists fuel, r, w', w_last. split; [done|].
  rewrite Hexecs, Hretries, Hcalls. cbn. repeat split; try lia. all: apply Hrest.
Qed.

(** A plan handed back by [replan_gateway] has passed [validate_plan]. *)
Lemma replan_gateway_validated (w w' : World) (original plan' : PlannerOutput)
    (result : ExecutionResult) :
  replan_gateway w original result user_input = (inr plan', w') ->
  validate_plan plan' user_input = inr plan'.
Proof.
  unfold replan_gateway.
  destruct (plan_gateway_replan _ _ _) as [[e|candidate] w1]; [done|].
  destruct (_validate_tools_exist _); [done|].
  destruct (validate_plan candidate user_input) as [f|normalized] eqn:Hvalid; [done|].
  intros [= <- <-]. apply validate_plan_inr in Hvalid as Heq. by rewrite Heq in *.
Qed.

(** The plans the loop executes: the plan it is entered with and plans
    that [replan_gateway] has validated. *)
Lemma recovery_loop_executes (fuel : nat) (plan : PlannerOutput)
    (retries : gmap (option Z) Z) (replans : Z) (tr : list Event) (w w' : World)
    (r : RecoveryRun) (p : PlannerOutput) :
  loop fuel plan retries replans tr w = Some (r, w') ->
  EvExecute p ∈ trace r ->
  EvExecute p ∈ tr \/ p = plan \/ validate_plan p user_input = inr p.
Proof.
  revert plan retries replans tr w.
  induction fuel as [|fuel IH]; intros plan retries replans tr w Hrun Hin; [done|].
  rewrite recovery_loop_unfold in Hrun.
  destruct (execute_plan w plan) as [output w1]. cbv zeta in Hrun.
  assert (Hstop : forall tr' : list Event,
             EvExecute p ∈ ((tr ++ [EvExecute plan]) ++ tr')%list ->
             (forall e, e ∈ tr' -> is_execute e = false) ->
             EvExecute p ∈ tr \/ p = plan).
  { intros tr' [[?|Hp%list_elem_of_singleton]%elem_of_app|Hp]%elem_of_app Hno;
      [by left | right; congruence | by apply Hno in Hp]. }
  assert (Hnil : forall e : Event, e ∈ [] -> is_execute e = false)
    by (intros e He; by apply elem_of_nil in He).
  assert (Hend : EvExecute p ∈ (tr ++ [EvExecute plan])%list ->
                 EvExecute p ∈ tr \/ p = plan).
  { intros Hp. apply (Hstop []); [by rewrite app_nil_r | done]. }
  case_bool_decide; [simplify_eq; simpl in Hin; destruct (Hend Hin); eauto|].
  destruct (classify_failure _ _).
  - case_bool_decide.
    + destruct (IH _ _ _ _ _ Hrun Hin) as [Hp | [-> | Hp]]; [|by eauto|by eauto].
      destruct (Hstop [EvRetry (md_failed_step_id (metadata output))] Hp); [|by eauto..].
      intros e He%list_elem_of_singleton. by subst.
    + simplify_eq. simpl in Hin. destruct (Hend Hin); eauto.
  - case_bool_decide; [|simplify_eq; simpl in Hin; destruct (Hend Hin); eauto].
    destruct (can_call w1 Config.MODEL_NAME) as [[e0|[|]] w2].
    + simplify_eq. simpl in Hin. destruct (Hstop [EvQuotaRaised] Hin); [|by eauto..].
      intros e He%list_elem_of_singleton. by subst.
    + destruct (replan_gateway w2 plan output user_input) as [[f|plan'] w3] eqn:Hgate.
      * simplify_eq. simpl in Hin. destruct (Hstop [EvReplanCall] Hin); [|by eauto..].
        intros e He%list_elem_of_singleton. by subst.
      * apply replan_gateway_validated in Hgate.
        destruct (record_call w3 Config.MODEL_NAME) as [[e0|u] w4].
        -- simplify_eq. simpl in Hin.
           destruct (Hstop [EvReplanCall; EvRecordRaised plan'] Hin); [|by eauto..].
           intros e [->|He%list_elem_of_singleton]%elem_of_cons; by subst.
        -- destruct (IH _ _ _ _ _ Hrun Hin) as [Hp | [-> | Hp]]; [|by eauto|by eauto].
           destruct (Hstop [EvReplanCall; EvReplanned plan'] Hp); [|by eauto..].
           intros e [->|He%list_elem_of_singleton]%elem_of_cons; by subst.
    + simplify_eq. simpl in Hin. destruct (Hstop [EvQuotaDenied] Hin); [|by eauto..].
      intros e He%list_elem_of_singleton. by subst.
  - simplify_eq. simpl in Hin. destruct (Hend Hin); eauto.
Qed.

End AgentFacts.

(* ===================================================================== *)
(** * Cyclic plans                                                         *)
(* ===================================================================== *)

(** C5, amended.  A plan whose dependency graph has a cycle never passes
    [validate_plan]: it is rejected with a PlannerValidationError, and the
    category of that error is DEPENDENCY_ERROR whenever the plan passes
    the schema, fail-reason and tool checks, which run first.  Hence a
    cyclic plan does not reach the Executor: in a run of the recovery loop
    the only plan executed without having passed [validate_plan] is the
    initial plan, which the caller validates. *)
Theorem validate_plan_rejects_cycles `{!ToolRules} (plan : PlannerOutput)
    (user_query : string) :
  has_cycle plan ->
  (exists e,
      validate_plan plan user_query = inl (PlannerValidationError e) /\
      (_validate_schema plan = None -> _validate_fail_reason plan = None ->
       _validate_tools plan = None -> category e = "DEPENDENCY_ERROR")) /\
  (forall (World : Type) (C : Collaborators World) (max_retries max_replans : Z)
          (fuel : nat) (w w' : World) (initial_plan : PlannerOutput) (r : RecoveryRun),
      run_with_recovery_from max_retries max_replans user_query fuel w initial_plan
      = Some (r, w') ->
      EvExecute plan ∈ trace r -> plan = initial_plan).
Proof.
  intros Hcyc. split; [by apply validate_plan_cycle|].
  intros World C max_retries max_replans fuel w w' initial_plan r Hrun Hin.
  destruct (recovery_loop_executes _ _ _ _ _ _ _ _ _ _ _ _ Hrun Hin)
    as [Hnil | [-> | Hvalid]]; [by apply elem_of_nil in Hnil | done |].
  destruct (validate_plan_cycle plan user_query Hcyc) as (e & He & _). congruence.
Qed.

(** C5, refuted as stated.  The plan whose only step, step 1, depends on
    itself has a cyclic dependency graph and nothing else wrong with it;
    [validate_plan] rejects it with category SCHEMA_ERROR ("Step 1 must not
    have dependencies"), not DEPENDENCY_ERROR. *)
Lemma cyclic_plan_schema_error :
  has_cycle Scenario.plan_self_cycle /\
  exists e,
    @validate_plan Scenario.permissive Scenario.plan_self_cycle "what day is it"
    = inl (PlannerValidationError e) /\
    category e = "SCHEMA_ERROR" /\
    category e <> "DEPENDENCY_ERROR".
Proof.
  split.
  - exists 1. apply tc_once. exists Scenario.step_self. eexists. 
    split; [apply list_elem_of_here|]. split; [apply list_elem_of_here|]. done.
  - eexists. split; [vm_compute; reflexivity|]. split; [done | discriminate].
Qed.

Lemma validate_plan_rejects_cycles_witness :
  has_cycle Scenario.plan_mutual_cycle /\
  exists e,
    @validate_plan Scenario.permissive Scenario.plan_mutual_cycle "date in ten days"
    = inl (PlannerValidationError e) /\
    category e = "DEPENDENCY_ERROR".
Proof.
  assert (Hcyc : has_cycle Scenario.plan_mutual_cycle).
  { exists 2. apply tc_l with 3.
    - exists (Scenario.step_from 2 3). eexists.
      split; [apply list_elem_of_further, list_elem_of_here|].
      split; [apply list_elem_of_here | done].
    - apply tc_once. exists (Scenario.step_from 3 2). eexists.
      split; [do 2 apply list_elem_of_further; apply list_elem_of_here|].
      split; [apply list_elem_of_here | done]. }
  split; [exact Hcyc|].
  destruct (@validate_plan_rejects_cycles Scenario.permissive
              Scenario.plan_mutual_cycle "date in ten days" Hcyc)
    as [(e & He & Hcat) _].
  exists e. split; [exact He|]. apply Hcat; reflexivity.
Defined.

(* ===================================================================== *)
(** * Recovery loop: the scenarios                                         *)
(* ===================================================================== *)

(** C1, refuted as stated.  The two-step plan passes [validate_plan]; its
    step 1 times out twice and then succeeds, its step 2 times out every
    time.  With the limits of app/config.py the claimed bound is
    [2 * (1 + 1) = 4] Executor runs, and the run makes five. *)
Lemma five_runs_exceed_bound :
  @validate_plan Scenario.permissive Scenario.plan_two "date in five days"
  = inr Scenario.plan_two /\
  exists r w',
    @run_with_recovery nat Scenario.flaky_world Scenario.permissive 10 0%nat
      "date in five days" Scenario.plan_two = Some (r, w') /\
    executions (trace r) = 5 /\
    Config.MAX_RETRIES_PER_STEP * (Config.MAX_REPLANS_PER_RUN + 1) = 4 /\
    ~ executions (trace r)
      <= Config.MAX_RETRIES_PER_STEP * (Config.MAX_REPLANS_PER_RUN + 1).
Proof.
  split; [by vm_compute|].
  eexists _, _. split; [vm_compute; reflexivity|].
  split; [by vm_compute|]. split; [done|]. by vm_compute.
Qed.

Lemma run_with_recovery_bounded_witness :
  exists fuel r w',
    @run_with_recovery_from nat Scenario.flaky_world Scenario.permissive 2 1
      "date in five days" fuel 0%nat Scenario.plan_two = Some (r, w') /\
    executions (trace r) <= 1 + 1 + 2 * Z.of_nat (size (final_retries r)) /\
    keys_executed (final_retries r) (trace r) /\
    (forall fuel' res,
        @run_with_recovery_from nat Scenario.flaky_world Scenario.permissive 2 1
          "date in five days" fuel' 0%nat Scenario.plan_two = Some res ->
        res = (r, w')).
Proof.
  apply (@run_with_recovery_bounded nat Scenario.flaky_world Scenario.permissive 2 1
           "date in five days" 0%nat Scenario.plan_two); lia.
Defined.

(** C3, refuted as stated.  In the same scenario the tool invocation of
    step 2 fails on every call with "Connection timeout", which is
    classified TRANSIENT, and yet [execute_plan] is invoked five times, not
    [1 + 2 = 3]: the two retries spent on step 1 come on top. *)
Lemma stuck_step_after_flaky_step :
  (forall w args,
      @run_tool nat Scenario.flaky_world w "datetime" args 2
      = (inr (Scenario.timeout_failure "datetime"), S w)) /\
  classify_failure "Connection timeout" (Some "datetime") = TRANSIENT /\
  exists r w',
    @run_with_recovery nat Scenario.flaky_world Scenario.permissive 10 0%nat
      "date in five days" Scenario.plan_two = Some (r, w') /\
    md_failed_step_id (metadata (executor_output r)) = Some 2 /\
    executions (trace r) = 5 /\
    executions (trace r) <> 1 + Config.MAX_RETRIES_PER_STEP.
Proof.
  split; [done|]. split; [by vm_compute|].
  eexists _, _. split; [vm_compute; reflexivity|].
  split; [by vm_compute|]. split; by vm_compute.
Qed.

Lemma stuck_world_execute (w : nat) :
  @execute_plan nat Scenario.stuck_world w Scenario.plan_two
  = (Scenario.stuck_output, S (S w)).
Proof. vm_compute. reflexivity. Qed.

Lemma stuck_world_always_fails :
  @always_fails_transiently_at nat Scenario.stuck_world Scenario.plan_two 2.
Proof.
  intros w. exists Scenario.stuck_output, (S (S w)), "Connection timeout".
  split; [apply stuck_world_execute|]. by vm_compute.
Qed.

Lemma stuck_step_exact_runs_witness :
  exists fuel r w' w_last,
    @run_with_recovery nat Scenario.stuck_world Scenario.permissive fuel 0%nat
      "date in five days" Scenario.plan_two = Some (r, w') /\
    executions (trace r) = 1 + 2 /\
    retries_of (Some 2) (trace r) = 2 /\
    replan_calls (trace r) = 0 /\
    final_plan r = Scenario.plan_two /\
    @execute_plan nat Scenario.stuck_world w_last Scenario.plan_two
    = (executor_output r, w') /\
    execution_status (executor_output r) = "failed" /\
    md_failed_step_id (metadata (executor_output r)) = Some 2.
Proof.
  apply (@stuck_step_exact_runs nat Scenario.stuck_world Scenario.permissive 2 1
           "date in five days" Scenario.plan_two 2 0%nat);
    [lia | exact stuck_world_always_fails].
Defined.


(** Step 1 is retried twice under the original plan, then fails with a
    type error and the plan is replaced; the first timeout of step 1 under
    the repaired plan finds the budget of step 1 already spent and ends the
    run without a further retry. *)
Lemma retries_shared_across_replans_witness :
  exists r w',
    @run_with_recovery nat Scenario.retry_replan_world Scenario.permissive 10 0%nat
      "current date" Scenario.plan_one = Some (r, w') /\
    final_replans r = 1 /\
    executions (trace r) = 4 /\
    retries_of (Some 1) (trace r) = 2 /\
    final_retries r !! Some 1 = Some 3 /\
    forall k,
      retries_of k (trace r) <= 2 /\
      retries_of k (trace r) <= default 0 (final_retries r !! k)
                             <= retries_of k (trace r) + 1.
Proof.
  destruct (@run_with_recovery nat Scenario.retry_replan_world Scenario.permissive 10
              0%nat "current date" Scenario.plan_one) as [[r w']|] eqn:Hrun;
    [|vm_compute in Hrun; discriminate].
  exists r, w'. split; [reflexivity|].
  pose proof (@retries_shared_across_replans nat Scenario.retry_replan_world
                Scenario.permissive 2 1 "current date" 10%nat 0%nat w'
                Scenario.plan_one r ltac:(lia) Hrun) as Hshared.
  vm_compute in Hrun. injection Hrun as <- <-.
  do 4 (split; [by vm_compute|]). exact Hshared.
Defined.

(* ===================================================================== *)
(** * Dependency resolution                                                *)
(* ===================================================================== *)

Section ResolveFacts.
Implicit Types (self : DependencyState.t) (args r : gmap string Value).
Implicit Types (deps : list Dependency) (d : Dependency).

Lemma resolve_one_inr self args d r :
  DependencyState.resolve_one self args d = inr r <->
  exists v, stored_value self (from_step d) = Some v /\ r = <[to_arg d := v]> args.
Proof.
  unfold DependencyState.resolve_one, stored_value.
  destruct (self !! from_step d) as [output|]; [|split; [done | by intros (? & ? & ?)]].
  destruct (tr_data output) as [[v|]|]; try (split; [done | by intros (? & ? & ?)]).
  split; [intros [= <-]; eauto | intros (v' & [= <-] & ->); done].
Qed.

Lemma resolve_one_inl self args d msg :
  DependencyState.resolve_one self args d = inl msg ->
  stored_value self (from_step d) = None /\ msg ∈ resolve_messages (from_step d) /\
  (self !! from_step d = None ->
   msg = "Step " ++ PyStr.str_int (from_step d) ++ " not executed or not found in state").
Proof.
  unfold DependencyState.resolve_one, stored_value, resolve_messages.
  destruct (self !! from_step d) as [output|].
  - destruct (tr_data output) as [[v|]|]; [done | |]; intros [= <-];
      (split; [done|]); (split; [|done]); set_solver.
  - intros [= <-]. split; [done|]. split; [set_solver | done].
Qed.

(** A resolution succeeds exactly when every dependency names a stored
    step whose output has [data.value]. *)
Lemma resolve_loop_inr self args deps :
  (forall d, d ∈ deps -> is_Some (stored_value self (from_step d))) ->
  exists r, DependencyState.resolve_loop self args deps = inr r.
Proof.
  revert args. induction deps as [|d deps IH]; intros args Hall; simpl; [by eauto|].
  destruct (Hall d) as [v Hv]; [apply list_elem_of_here|].
  destruct (DependencyState.resolve_one self args d) as [msg|r] eqn:Hone.
  - apply resolve_one_inl in Hone as [Hnone _]. congruence.
  - apply IH. intros d' Hd'. by apply Hall, list_elem_of_further.
Qed.

Lemma resolve_loop_inl self args deps msg :
  DependencyState.resolve_loop self args deps = inl msg ->
  exists pre d post,
    deps = (pre ++ d :: post)%list /\
    (forall d', d' ∈ pre -> is_Some (stored_value self (from_step d'))) /\
    stored_value self (from_step d) = None /\
    msg ∈ resolve_messages (from_step d) /\
    (self !! from_step d = None ->
     msg = "Step " ++ PyStr.str_int (from_step d) ++ " not executed or not found in state").
Proof.
  revert args. induction deps as [|d deps IH]; intros args; simpl; [done|].
  destruct (DependencyState.resolve_one self args d) as [msg'|r] eqn:Hone.
  - intros [= <-]. apply resolve_one_inl in Hone as (Hnone & Hmsg & Hwhy).
    exists [], d, deps. repeat split; try done. intros d' Hd'. by apply elem_of_nil in Hd'.
  - intros Hrest. apply IH in Hrest as (pre & d0 & post & -> & Hpre & Hrest).
    apply resolve_one_inr in Hone as (v & Hv & _).
    exists (d :: pre), d0, post. split; [done|]. split; [|done].
    intros d' [->|Hd']%elem_of_cons; [by rewrite Hv | by apply Hpre].
Qed.

Lemma resolve_loop_untouched self args deps r (k : string) :
  DependencyState.resolve_loop self args deps = inr r ->
  k ∉ to_arg <$> deps -> r !! k = args !! k.
Proof.
  revert args. induction deps as [|d deps IH]; intros args; simpl; [by intros [= <-]|].
  destruct (DependencyState.resolve_one self args d) as [msg|r'] eqn:Hone; [done|].
  intros Hrest Hk. apply not_elem_of_cons in Hk as [Hne Hk].
  rewrite (IH _ Hrest Hk). apply resolve_one_inr in Hone as (v & _ & ->).
  by rewrite lookup_insert_ne.
Qed.

Lemma resolve_loop_stored self args deps r d :
  DependencyState.resolve_loop self args deps = inr r -> d ∈ deps ->
  is_Some (stored_value self (from_step d)).
Proof.
  revert args. induction deps as [|d0 deps IH]; intros args; simpl.
  - intros _ Hd. by apply elem_of_nil in Hd.
  - destruct (DependencyState.resolve_one self args d0) as [msg|r'] eqn:Hone; [done|].
    intros Hrest [->|Hd]%elem_of_cons; [|by eapply IH].
    apply resolve_one_inr in Hone as (v & -> & _). done.
Qed.

Lemma resolve_loop_injected self args pre d post r :
  DependencyState.resolve_loop self args (pre ++ d :: post) = inr r ->
  to_arg d ∉ to_arg <$> post ->
  r !! to_arg d = stored_value self (from_step d).
Proof.
  revert args. induction pre as [|d0 pre IH]; intros args; simpl.
  - destruct (DependencyState.resolve_one self args d) as [msg|r'] eqn:Hone; [done|].
    intros Hrest Hpost. rewrite (resolve_loop_untouched _ _ _ _ _ Hrest Hpost).
    apply resolve_one_inr in Hone as (v & -> & ->). by rewrite lookup_insert_eq.
  - destruct (DependencyState.resolve_one self args d0) as [msg|r'] eqn:Hone; [done|].
    apply IH.
Qed.

(** X1.  When [resolve_dependencies] returns, every dependency named a
    stored step whose output has [data.value]; the returned arguments
    agree with [tool_args] on every key that is no [to_arg], and each
    [to_arg] holds the [data.value] of the step named by the last
    dependency that targets it. *)
Theorem resolve_dependencies_injects self args deps r :
  DependencyState.resolve_dependencies self args deps = inr r ->
  (forall d, d ∈ deps -> is_Some (stored_value self (from_step d))) /\
  (forall k, k ∉ to_arg <$> deps -> r !! k = args !! k) /\
  (forall pre d post,
      deps = (pre ++ d :: post)%list -> to_arg d ∉ to_arg <$> post ->
      r !! to_arg d = stored_value self (from_step d)).
Proof.
  unfold DependencyState.resolve_dependencies. intros Hr. split; [|split].
  - intros d Hd. by eapply resolve_loop_stored.
  - intros k Hk. by eapply resolve_loop_untouched.
  - intros pre d post -> Hpost. by eapply resolve_loop_injected.
Qed.

(** X2.  [resolve_dependencies] raises [KeyError] exactly when some
    dependency names a step that was never stored or whose stored output
    lacks [data] or [data.value]; the message is the one for the first such
    dependency, and says "not executed or not found in state" when that
    step was never stored. *)
Theorem resolve_dependencies_fails self args deps :
  ((exists msg, DependencyState.resolve_dependencies self args deps = inl msg) <->
   (exists d, d ∈ deps /\ stored_value self (from_step d) = None)) /\
  (forall msg,
      DependencyState.resolve_dependencies self args deps = inl msg ->
      exists pre d post,
        deps = (pre ++ d :: post)%list /\
        (forall d', d' ∈ pre -> is_Some (stored_value self (from_step d'))) /\
        stored_value self (from_step d) = None /\
        msg ∈ resolve_messages (from_step d) /\
        (self !! from_step d = None ->
         msg = "Step " ++ PyStr.str_int (from_step d)
               ++ " not executed or not found in state")).
Proof.
  unfold DependencyState.resolve_dependencies. split; [split|].
  - intros [msg Hmsg]. apply resolve_loop_inl in Hmsg as (pre & d & post & -> & _ & Hd & _).
    exists d. split; [|done]. apply elem_of_app. right. apply list_elem_of_here.
  - intros (d & Hd & Hnone).
    destruct (DependencyState.resolve_loop self args deps) as [msg|r] eqn:Hr; [by eauto|].
    pose proof (resolve_loop_stored _ _ _ _ _ Hr Hd) as [v Hv]. congruence.
  - intros msg. apply resolve_loop_inl.
Qed.

End ResolveFacts.

(** The example of the documentation: step 1 is stored with the value
    "2026-01-29 00:00:00" and step 2 declares a dependency on it for
    [base_datetime]. *)
Lemma resolve_dependencies_injects_witness :
  let self := DependencyState.store DependencyState.init 1 (Scenario.success "datetime") in
  exists r,
    DependencyState.resolve_dependencies self (tool_args Scenario.step_add)
      (dependencies Scenario.step_add) = inr r /\
    r !! "base_datetime" = Some (VStr "2026-01-29 00:00:00") /\
    r !! "days" = Some (VInt 5) /\
    r !! "operation" = Some (VStr "add_days").
Proof.
  cbv zeta. eexists. split; [reflexivity|].
  destruct (resolve_dependencies_injects
              (DependencyState.store DependencyState.init 1 (Scenario.success "datetime"))
              (tool_args Scenario.step_add) (dependencies Scenario.step_add) _ eq_refl)
    as (_ & Hother & Hinj).
  split; [|split].
  - apply (Hinj [] {| from_step := 1; from_field := "data.value";
                      to_arg := "base_datetime" |} []); [done|].
    apply not_elem_of_nil.
  - rewrite Hother; [done|]. simpl. by intros [?|[]%elem_of_nil]%elem_of_cons.
  - rewrite Hother; [done|]. simpl. by intros [?|[]%elem_of_nil]%elem_of_cons.
Defined.

(* ===================================================================== *)
(** * Executor: order of the steps                                         *)
(* ===================================================================== *)

Section ExecutorOrder.
Context {World : Type} `{!Collaborators World}.

(** The steps are run in the declared order, one result per step run, and
    the loop is left at the first result that is no success. *)
Lemma execute_steps_prefix (l : list Step) (st st' : ExecState) (w w' : World)
    (exit : LoopExit) :
  execute_steps l st w = ((exit, st'), w') ->
  exists (n : nat) (ok rest : list StepResult),
    es_step_results st' = (es_step_results st ++ ok ++ rest)%list /\
    (n <= length l)%nat /\
    sr_step_id <$> (ok ++ rest)%list = step_id <$> take n l /\
    sr_tool_name <$> (ok ++ rest)%list = tool_name <$> take n l /\
    es_executed_steps st' = es_executed_steps st + Z.of_nat n /\
    Forall (fun r => sr_success r = true) ok /\
    (rest = [] \/ exists r, rest = [r] /\ sr_success r = false) /\
    (exit = LoopCompleted <-> rest = [] /\ n = length l) /\
    (forall failed error, exit = LoopStepFailed failed error -> rest <> []).
Proof.
  revert st w. induction l as [|step l IH]; intros st w Hrun; simpl in Hrun.
  - simplify_eq. exists 0%nat, [], []. rewrite !app_nil_r.
    split_and!; try done; [lia | by left].
  - destruct (_execute_single_step step (dependency_state st) w) as [[e|r] w1] eqn:Hstep.
    + simplify_eq. exists 0%nat, [], []. rewrite !app_nil_r.
      split_and!; try done; [simpl; lia | lia | by left | by split; [|intros [_ [=]]]].
    + apply _execute_single_step_result in Hstep as (Hid & Hname & _).
      destruct (sr_success r) eqn:Hok; simpl in Hrun.
      * apply IH in Hrun
          as (n & ok & rest & Hres & Hn & Hids & Hnames & Hcount & Hall & Hrest & Hdone & Hfail).
        cbn [es_step_results es_executed_steps] in Hres, Hcount.
        exists (S n), (r :: ok), rest.
        change ((r :: ok) ++ rest)%list with (r :: (ok ++ rest))%list.
        change (take (S n) (step :: l)) with (step :: take n l).
        split_and!; try done.
        -- by rewrite Hres, <- !app_assoc.
        -- simpl. lia.
        -- by rewrite !fmap_cons, Hids, Hid.
        -- by rewrite !fmap_cons, Hnames, Hname.
        -- lia.
        -- by constructor.
        -- rewrite Hdone. simpl. split; intros [? ?]; split; (done || lia).
      * assert (Hone : exit <> LoopCompleted /\
                   st' = {| dependency_state := dependency_state st;
                            es_step_results := (es_step_results st ++ [r])%list;
                            es_executed_steps := es_executed_steps st + 1 |}).
        { destruct (tr_error (sr_data r)) as [[m|]|]; by simplify_eq. }
        destruct Hone as (Hnot & ->). simpl.
        exists 1%nat, [], [r]. simpl. rewrite Hid, Hname.
        split_and!; try done; [lia | right; by eauto | by split; [|intros [[=] _]]].
Qed.

(** Sufficient for a run without resolution faults: what each step
    depends on is stored with its [data.value] when the step is reached. *)
Lemma execute_steps_resolves (l : list Step) (avail : gset Z) (st st' : ExecState)
    (w w' : World) (exit : LoopExit) :
  tools_well_behaved ->
  deps_available avail l ->
  (forall j, j ∈ avail -> is_Some (stored_value (dependency_state st) j)) ->
  execute_steps l st w = ((exit, st'), w') ->
  forall m, exit <> LoopRaised (DependencyResolutionError m).
Proof.
  intros Htools. revert avail st w.
  induction l as [|step l IH]; intros avail st w Hdeps Havail Hrun m; simpl in Hrun.
  - by simplify_eq.
  - destruct Hdeps as [Hstep Hrest].
    unfold _execute_single_step in Hrun.
    destruct (resolve_loop_inr (dependency_state st) (tool_args step) (dependencies step))
      as [args Hargs]; [intros d Hd; by apply Havail, Hstep|].
    unfold DependencyState.resolve_dependencies in Hrun. rewrite Hargs in Hrun.
    assert (Hresolved :
              (if bool_decide (dependencies step ≠ [])
               then @inr Exn _ args else inr (tool_args step))
              = inr (if bool_decide (dependencies step ≠ []) then args else tool_args step))
      by (by case_bool_decide).
    rewrite Hresolved in Hrun. clear Hresolved.
    pose proof (Htools w (tool_name step)
                  (if bool_decide (dependencies step ≠ []) then args else tool_args step)
                  (step_id step)) as Hcall.
    destruct (run_tool w (tool_name step) _ (step_id step)) as [[e|result] w1];
      simpl in Hcall, Hrun.
    + simplify_eq. destruct e; done.
    + destruct (tr_success result) eqn:Hok; simpl in Hrun.
      * destruct (Hcall eq_refl) as [v Hv].
        eapply (IH ({[step_id step]} ∪ avail)); [done | | done].
        intros j Hj. simpl. unfold DependencyState.store, stored_value.
        destruct (decide (j = step_id step)) as [->|Hne].
        -- rewrite lookup_insert_eq, Hv. done.
        -- rewrite lookup_insert_ne by done. apply Havail.
           apply elem_of_union in Hj as [Hj%elem_of_singleton|Hj]; done.
      * destruct (tr_error result) as [[?|]|]; by simplify_eq.
Qed.

End ExecutorOrder.

Lemma schema_steps_ids (l : list Step) (expected_id : Z) (seen : gset Z) :
  schema_steps l expected_id seen = None ->
  step_id <$> l = seqZ expected_id (Z.of_nat (length l)).
Proof.
  revert expected_id seen. induction l as [|step l IH]; intros e seen; [done|].
  cbn [schema_steps].
  destruct (decide (step_id step ∈ seen)); [done|].
  destruct (decide (step_id step ≠ e)) as [|Heq]; [done|].
  destruct (negb _); [done|]. destruct (_ && _); [done|].
  intros Hrest. apply IH in Hrest.
  rewrite fmap_cons, Hrest. cbn [length]. rewrite Nat2Z.inj_succ, (seqZ_cons e) by lia.
  f_equal; [lia|]. f_equal; lia.
Qed.

Lemma sequential_deps_available (l : list Step) (e : Z) (avail : gset Z) :
  step_id <$> l = seqZ e (Z.of_nat (length l)) ->
  (forall s d, s ∈ l -> d ∈ dependencies s -> 1 <= from_step d < step_id s) ->
  (forall j, 1 <= j < e -> j ∈ avail) ->
  deps_available avail l.
Proof.
  revert e avail. induction l as [|s l IH]; intros e avail Hids Hdeps Havail; [done|].
  cbn [length] in Hids. rewrite fmap_cons, Nat2Z.inj_succ, (seqZ_cons e) in Hids by lia.
  injection Hids as Hs Hrest. split.
  - intros d Hd. apply Havail.
    destruct (Hdeps s d) as [? ?]; [apply list_elem_of_here | done | lia].
  - apply (IH (Z.succ e)).
    + rewrite Hrest. f_equal. lia.
    + intros s' d Hs' Hd. apply Hdeps; [by apply list_elem_of_further | done].
    + intros j Hj. destruct (decide (j = e)) as [->|Hne].
      * apply elem_of_union. left. apply elem_of_singleton. done.
      * apply elem_of_union. right. apply Havail. lia.
Qed.

(** In a plan that passed the schema and the dependency checks, every
    dependency names a step that comes earlier in the list. *)
Lemma validated_deps_available (plan : PlannerOutput) :
  plan_status plan = "possible" ->
  _validate_schema plan = None -> _validate_dependencies plan = None ->
  deps_available ∅ (steps plan).
Proof.
  intros Hposs Hschema Hdeps.
  assert (Hids : step_id <$> steps plan = seqZ 1 (Z.of_nat (length (steps plan)))).
  { unfold _validate_schema in Hschema. rewrite Hposs in Hschema. simpl in Hschema.
    destruct (bool_decide (steps plan = [])); [done|]. by eapply schema_steps_ids. }
  pose proof (dependencies_steps_None _ _ Hdeps) as Hedges.
  apply (sequential_deps_available _ 1); [done | | intros j Hj; lia].
  intros s d Hs Hd. destruct (Hedges s d Hs Hd) as [Hin Hlt]. split; [|done].
  unfold plan_step_ids in Hin. rewrite Hids in Hin.
  apply elem_of_list_to_set, elem_of_seqZ in Hin. lia.
Qed.

Section ExecutorRuns.
Context {World : Type} `{!Collaborators World}.

(** What [_execute_single_step] returns is what [run_tool] answers on the
    resolved arguments. *)
Lemma _execute_single_step_runs_tool (step : Step) (ds : DependencyState.t) (w w' : World)
    (r : StepResult) :
  _execute_single_step step ds w = (inr r, w') <->
  exists args,
    (if bool_decide (dependencies step ≠ []) then
       DependencyState.resolve_dependencies ds (tool_args step) (dependencies step)
       = inr args
     else args = tool_args step) /\
    run_tool w (tool_name step) args (step_id step) = (inr (sr_data r), w') /\
    r = {| sr_step_id := step_id step; sr_tool_name := tool_name step;
           sr_success := tr_success (sr_data r); sr_data := sr_data r |}.
Proof.
  unfold _execute_single_step. split.
  - destruct (bool_decide (dependencies step ≠ [])).
    + destruct (DependencyState.resolve_dependencies _ _ _) as [m|args]; [done|].
      destruct (run_tool w (tool_name step) args (step_id step)) as [[e|result] w1] eqn:Hcall;
        [done|].
      intros [= <- <-]. exists args. cbn [sr_data]. by rewrite Hcall.
    + destruct (run_tool w (tool_name step) (tool_args step) (step_id step))
        as [[e|result] w1] eqn:Hcall; [done|].
      intros [= <- <-]. exists (tool_args step). cbn [sr_data]. by rewrite Hcall.
  - intros (args & Hargs & Hcall & Hr).
    destruct (bool_decide (dependencies step ≠ [])).
    + rewrite Hargs, Hcall. by rewrite Hr at 3.
    + subst args. rewrite Hcall. by rewrite Hr at 3.
Qed.

(** The loop of [execute_plan]: it runs a first part of the steps with
    success, and stops at the end of the list, at a step whose result is no
    success, or at a step that raises. *)
Lemma execute_steps_run (l : list Step) (st st' : ExecState) (w w' : World)
    (exit : LoopExit) :
  execute_steps l st w = ((exit, st'), w') ->
  exists (done todo : list Step) (ok : list StepResult) (w_n : World),
    l = (done ++ todo)%list /\
    steps_run done ok (dependency_state st) w (dependency_state st') w_n /\
    match exit with
    | LoopCompleted =>
        todo = [] /\ w' = w_n /\ es_step_results st' = (es_step_results st ++ ok)%list
    | LoopStepFailed failed error =>
        exists rest r,
          todo = failed :: rest /\
          _execute_single_step failed (dependency_state st') w_n = (inr r, w') /\
          sr_success r = false /\
          es_step_results st' = (es_step_results st ++ ok ++ [r])%list
    | LoopRaised e =>
        exists step rest,
          todo = step :: rest /\
          ((exists r,
              _execute_single_step step (dependency_state st') w_n = (inr r, w') /\
              sr_success r = false /\ tr_error (sr_data r) = Some None /\
              es_step_results st' = (es_step_results st ++ ok ++ [r])%list) \/
           (_execute_single_step step (dependency_state st') w_n = (inl e, w') /\
            es_step_results st' = (es_step_results st ++ ok)%list))
    end.
Proof.
  revert st w. induction l as [|step l IH]; intros st w Hrun; cbn [execute_steps] in Hrun.
  - injection Hrun as <- <- <-. exists [], [], [], w. cbn [steps_run app].
    rewrite app_nil_r. by split_and!.
  - destruct (_execute_single_step step (dependency_state st) w) as [[e|r] w1] eqn:Hstep.
    + injection Hrun as <- <- <-. exists [], (step :: l), [], w. cbn [steps_run].
      split_and!; [done | done | done |]. exists step, l. split; [done|]. right.
      by rewrite app_nil_r.
    + cbv zeta in Hrun. destruct (sr_success r) eqn:Hok; cbn [negb] in Hrun.
      * apply IH in Hrun as (done & todo & ok & w_n & -> & Hsteps & Hexit).
        cbn [dependency_state es_step_results] in Hsteps, Hexit.
        exists (step :: done), todo, (r :: ok), w_n. split_and!; [done | |].
        -- cbn [steps_run]. by exists w1.
        -- destruct exit as [|failed error|e'].
           ++ destruct Hexit as (-> & -> & ->). by rewrite <- app_assoc.
           ++ destruct Hexit as (rest & r' & -> & Hfail & Hno & ->).
              exists rest, r'. by rewrite <- !app_assoc.
           ++ destruct Hexit as (step' & rest & -> & [(r' & Hfail & Hno & Herr & ->)|[Hfail ->]]);
                exists step', rest; (split; [done|]); [left | right].
              ** exists r'. by rewrite <- !app_assoc.
              ** by rewrite <- !app_assoc.
      * exists [], (step :: l), [], w.
        destruct (tr_error (sr_data r)) as [[m|]|] eqn:Herr; injection Hrun as <- <- <-;
          cbn [dependency_state es_step_results steps_run];
          (split_and!; [done | done | done |]).
        -- by exists l, r.
        -- exists step, l. split; [done|]. left. by exists r.
        -- by exists l, r.
Qed.

(** X3.  For a plan that is not impossible, [execute_plan] runs the steps
    in the declared order, each through [_execute_single_step], that is, by
    one call of [run_tool] on the arguments resolved from the outputs stored
    so far, whose answer is the [data] of the step result, and it goes on as
    long as the results report success.  It stops at the end of the plan,
    with status "completed" and these results; or at the first step whose
    result reports no success, with status "failed" and this result as the
    last one; or at the first step that raises, with status "failed" and
    the message of the exception.  It never stops for another reason, and
    [executed_steps] is the number of results. *)
Theorem execute_plan_sequential (w : World) (plan : PlannerOutput) :
  plan_status plan <> "impossible" ->
  exists result ds w' (done todo : list Step) (ok : list StepResult) (w_n : World),
    execute_plan_state w plan = ((result, Some ds), w') /\
    steps plan = (done ++ todo)%list /\
    steps_run done ok DependencyState.init w ds w_n /\
    executed_steps result = Z.of_nat (length (step_results result)) /\
    ((todo = [] /\ w' = w_n /\ step_results result = ok /\
      execution_status result = "completed") \/
     (exists step rest r,
        todo = step :: rest /\ _execute_single_step step ds w_n = (inr r, w') /\
        sr_success r = false /\ step_results result = (ok ++ [r])%list /\
        execution_status result = "failed" /\
        (md_failed_step_id (metadata result) = Some (step_id step) \/
         tr_error (sr_data r) = Some None)) \/
     (exists step rest e,
        todo = step :: rest /\ _execute_single_step step ds w_n = (inl e, w') /\
        step_results result = ok /\ execution_status result = "failed" /\
        md_error (metadata result) = Some (str_exn e))) /\
    (forall step ds0 w0 r w1,
       _execute_single_step step ds0 w0 = (inr r, w1) <->
       exists args,
         (if bool_decide (dependencies step ≠ []) then
            DependencyState.resolve_dependencies ds0 (tool_args step) (dependencies step)
            = inr args
          else args = tool_args step) /\
         run_tool w0 (tool_name step) args (step_id step) = (inr (sr_data r), w1) /\
         r = {| sr_step_id := step_id step; sr_tool_name := tool_name step;
                sr_success := tr_success (sr_data r); sr_data := sr_data r |}).
Proof.
  intros Hposs. unfold execute_plan_state. rewrite bool_decide_eq_false_2 by done.
  destruct (execute_steps (steps plan) exec_init w) as [[exit st] w'] eqn:Hrun.
  pose proof (execute_steps_prefix _ _ _ _ _ _ Hrun)
    as (n & ok0 & rest0 & Hres0 & Hn & Hids & _ & Hcount & _).
  assert (Hexecuted : es_executed_steps st = Z.of_nat (length (es_step_results st))).
  { rewrite Hcount, Hres0. cbn [exec_init es_executed_steps es_step_results app].
    apply (f_equal length) in Hids. rewrite !length_fmap, length_take in Hids. lia. }
  apply execute_steps_run in Hrun as (done & todo & ok & w_n & Hsplit & Hsteps & Hexit).
  cbn [exec_init dependency_state es_step_results app] in Hsteps, Hexit.
  destruct exit as [|failed error|e].
  - destruct Hexit as (-> & -> & Hres).
    eexists _, _, _, done, [], ok, w_n. split; [reflexivity|].
    cbn [step_results executed_steps execution_status].
    split_and!; [done | done | done | | intros *; apply _execute_single_step_runs_tool].
    left. by split_and!.
  - destruct Hexit as (rest & r & -> & Hfail & Hno & Hres).
    eexists _, _, _, done, (failed :: rest), ok, w_n. split; [reflexivity|].
    cbn [_create_failed_result step_results executed_steps execution_status metadata
         md_failed_step_id].
    split_and!; [done | done | done | | intros *; apply _execute_single_step_runs_tool].
    right; left. exists failed, rest, r. split_and!; try done. by left.
  - destruct Hexit as (step & rest & -> & [(r & Hfail & Hno & Herr & Hres)|[Hfail Hres]]).
    + eexists _, _, _, done, (step :: rest), ok, w_n. split; [reflexivity|].
      cbn [raised_result step_results executed_steps execution_status metadata
           md_failed_step_id].
      split_and!; [done | done | done | | intros *; apply _execute_single_step_runs_tool].
      right; left. exists step, rest, r. split_and!; try done. by right.
    + eexists _, _, _, done, (step :: rest), ok, w_n. split; [reflexivity|].
      cbn [raised_result step_results executed_steps execution_status metadata md_error].
      split_and!; [done | done | done | | intros *; apply _execute_single_step_runs_tool].
      right; right. exists step, rest, e. by split_and!.
Qed.

(** Resolution cannot fail when every dependency is available in time. *)
Lemma execute_plan_resolves (w : World) (plan : PlannerOutput) :
  tools_well_behaved ->
  plan_status plan = "possible" ->
  _validate_schema plan = None ->
  _validate_dependencies plan = None ->
  md_error_type (metadata (fst (execute_plan w plan))) <> Some "dependency_resolution".
Proof.
  intros Htools Hposs Hschema Hdeps.
  rewrite execute_plan_state_fst. unfold execute_plan_state. rewrite Hposs. simpl.
  destruct (execute_steps (steps plan) exec_init w) as [[exit st] w'] eqn:Hrun.
  pose proof (execute_steps_resolves _ ∅ _ _ _ _ _ Htools
                (validated_deps_available plan Hposs Hschema Hdeps)
                ltac:(intros j Hj; by apply elem_of_empty in Hj) Hrun) as Hnever.
  destruct exit as [| |e]; simpl; try done. destruct e; try done. by destruct (Hnever msg).
Qed.

(** X4.  A possible plan that has passed the schema and the dependency
    checks never fails on dependency resolution, provided the tools keep
    the response contract (a successful result carries [data.value]): the
    result of [execute_plan] never has [error_type] "dependency_resolution". *)
Theorem validated_plan_resolves (w : World) (plan : PlannerOutput) :
  tools_well_behaved ->
  plan_status plan = "possible" ->
  _validate_schema plan = None ->
  _validate_dependencies plan = None ->
  md_error_type (metadata (fst (execute_plan w plan))) <> Some "dependency_resolution".
Proof. apply execute_plan_resolves. Qed.

End ExecutorRuns.

Lemma execute_plan_sequential_witness :
  exists result ds w' (done todo : list Step) (ok : list StepResult) (w_n : nat),
    @execute_plan_state nat Scenario.stuck_world 0%nat Scenario.plan_two
    = ((result, Some ds), w') /\
    steps Scenario.plan_two = (done ++ todo)%list /\
    @steps_run nat Scenario.stuck_world done ok DependencyState.init 0%nat ds w_n /\
    executed_steps result = Z.of_nat (length (step_results result)) /\
    ((todo = [] /\ w' = w_n /\ step_results result = ok /\
      execution_status result = "completed") \/
     (exists step rest r,
        todo = step :: rest /\
        @_execute_single_step nat Scenario.stuck_world step ds w_n = (inr r, w') /\
        sr_success r = false /\ step_results result = (ok ++ [r])%list /\
        execution_status result = "failed" /\
        (md_failed_step_id (metadata result) = Some (step_id step) \/
         tr_error (sr_data r) = Some None)) \/
     (exists step rest e,
        todo = step :: rest /\
        @_execute_single_step nat Scenario.stuck_world step ds w_n = (inl e, w') /\
        step_results result = ok /\ execution_status result = "failed" /\
        md_error (metadata result) = Some (str_exn e))) /\
    (forall step ds0 w0 r w1,
       @_execute_single_step nat Scenario.stuck_world step ds0 w0 = (inr r, w1) <->
       exists args,
         (if bool_decide (dependencies step ≠ []) then
            DependencyState.resolve_dependencies ds0 (tool_args step) (dependencies step)
            = inr args
          else args = tool_args step) /\
         @run_tool nat Scenario.stuck_world w0 (tool_name step) args (step_id step)
         = (inr (sr_data r), w1) /\
         r = {| sr_step_id := step_id step; sr_tool_name := tool_name step;
                sr_success := tr_success (sr_data r); sr_data := sr_data r |}).
Proof.
  apply (@execute_plan_sequential nat Scenario.stuck_world 0%nat Scenario.plan_two).
  vm_compute. discriminate.
Defined.

Lemma constant_world_well_behaved (v : Value) :
  @tools_well_behaved nat (constant_world v).
Proof. intros w name args id. simpl. eauto. Qed.

Lemma validated_plan_resolves_witness :
  md_error_type
    (metadata (fst (@execute_plan nat (constant_world (VStr "2026-01-29 00:00:00"))
                      0%nat Scenario.plan_chain)))
  <> Some "dependency_resolution".
Proof.
  apply (@validated_plan_resolves nat (constant_world (VStr "2026-01-29 00:00:00"))
           0%nat Scenario.plan_chain);
    [apply constant_world_well_behaved | reflexivity | by vm_compute | by vm_compute].
Defined.

(* ===================================================================== *)
(** * Validator: what the schema and dependency checks accept              *)
(* ===================================================================== *)

Lemma schema_steps_passes (l : list Step) (e : Z) (seen : gset Z) :
  (forall j, j ∈ seen -> j < e) ->
  schema_steps l e seen = None <->
  step_id <$> l = seqZ e (Z.of_nat (length l)) /\
  Forall (fun s => PyStr.strip_nonempty (instruction s) = true) l /\
  Forall (fun s => step_id s = 1 -> dependencies s = []) l.
Proof.
  revert e seen. induction l as [|s l IH]; intros e seen Hseen.
  - split; [intros _; split_and!; done | done].
  - cbn [schema_steps length]. rewrite fmap_cons, Nat2Z.inj_succ, (seqZ_cons e) by lia.
    replace (Z.pred (Z.succ (Z.of_nat (length l)))) with (Z.of_nat (length l)) by lia.
    assert (Hnext : forall j, j ∈ ({[step_id s]} ∪ seen : gset Z) -> j < step_id s + 1 \/ step_id s <> e).
    { intros j [->%elem_of_singleton|Hj%Hseen]%elem_of_union; [lia|].
      destruct (decide (step_id s = e)); [left; lia | by right]. }
    rewrite !Forall_cons.
    destruct (decide (step_id s ∈ seen)) as [Hdup|Hfresh].
    { split; [done|]. intros ([= Hs _] & _). apply Hseen in Hdup. lia. }
    destruct (decide (step_id s ≠ e)) as [Hne|Heq].
    { split; [done|]. by intros ([= Hs _] & _). }
    apply dec_stable in Heq.
    destruct (PyStr.strip_nonempty (instruction s)) eqn:Hi; cbn [negb];
      [|split; [done | by intros (_ & [? _] & _)]].
    destruct (bool_decide (step_id s = 1) && bool_decide (dependencies s ≠ [])) eqn:Hfirst.
    { split; [done|]. intros (_ & _ & [Hd _]).
      apply andb_true_iff in Hfirst as [H1%bool_decide_eq_true H2%bool_decide_eq_true].
      exfalso. by apply H2, Hd. }
    rewrite (IH (e + 1) ({[step_id s]} ∪ seen)).
    + replace (Z.succ e) with (e + 1) by lia. split.
      * intros (Hids & Hins & Hdeps). split_and!; try done; [by rewrite Heq, Hids|].
        intros H1. apply andb_false_iff in Hfirst as [H|H]; apply bool_decide_eq_false in H;
          [done | by apply dec_stable in H].
      * intros ([= _ Hids] & [_ Hins] & [_ Hdeps]). done.
    + intros j Hj. destruct (Hnext j Hj); [lia | done].
Qed.

(** X5.  What [_validate_schema] accepts: an impossible plan without
    steps, or a possible plan with at least one step whose ids are
    1, 2, ..., n in this order, whose instructions are not blank and whose
    first step declares no dependency.  Everything else raises. *)
Theorem _validate_schema_accepts (plan : PlannerOutput) :
  _validate_schema plan = None <->
  (plan_status plan = "impossible" /\ steps plan = []) \/
  (plan_status plan = "possible" /\ steps plan <> [] /\
   step_id <$> steps plan = seqZ 1 (Z.of_nat (length (steps plan))) /\
   Forall (fun s => PyStr.strip_nonempty (instruction s) = true) (steps plan) /\
   forall s, head (steps plan) = Some s -> dependencies s = []).
Proof.
  unfold _validate_schema.
  destruct (decide (plan_status plan = "impossible")) as [Himp|Hnimp].
  - rewrite Himp. cbn. destruct (steps plan) as [|s l] eqn:Hsteps.
    + split; [by left | done].
    + split; [done|]. intros [[_ [=]]|[[=] _]].
  - rewrite (bool_decide_eq_false_2 _ Hnimp), orb_false_r.
    destruct (decide (plan_status plan = "possible")) as [Hposs|Hnposs].
    + rewrite (bool_decide_eq_true_2 _ Hposs). cbn [negb].
      case_bool_decide as Hempty.
      { split; [done|]. intros [[? _]|(_ & ? & _)]; done. }
      rewrite schema_steps_passes by (intros j Hj; by apply elem_of_empty in Hj).
      split.
      * intros (Hids & Hins & Hdeps). right. split_and!; try done.
        intros s Hs. destruct (steps plan) as [|s0 l]; [done|]. simplify_eq/=.
        apply Forall_cons in Hdeps as [Hd _]. apply Hd.
        rewrite Nat2Z.inj_succ, (seqZ_cons 1) in Hids by lia. by injection Hids.
      * intros [[? _]|(_ & _ & Hids & Hins & Hhead)]; [done|]. split_and!; try done.
        apply Forall_forall. intros s Hs H1.
        destruct (steps plan) as [|s0 l]; [done|].
        apply elem_of_cons in Hs as [->|Hs]; [by apply Hhead|].
        cbn [length] in Hids. rewrite fmap_cons, Nat2Z.inj_succ, (seqZ_cons 1) in Hids by lia.
        injection Hids as _ Hids.
        assert (Hin : step_id s ∈ step_id <$> l) by (by apply list_elem_of_fmap_2).
        rewrite Hids in Hin. apply elem_of_seqZ in Hin. lia.
    + rewrite (bool_decide_eq_false_2 _ Hnposs). cbn [negb].
      split; [done|]. intros [[? _]|[? _]]; done.
Qed.

Lemma dependencies_deps_passes (ids : gset Z) (step : Step) (deps : list Dependency) :
  dependencies_deps ids step deps = None <->
  forall d, d ∈ deps ->
    from_field d = "data.value" /\ from_step d ∈ ids /\ from_step d < step_id step /\
    is_Some (tool_args step !! PyStr.split_root (to_arg d)).
Proof.
  induction deps as [|d deps IH]; cbn [dependencies_deps].
  - split; [by intros _ d ?%elem_of_nil | done].
  - destruct (decide (from_field d ≠ "data.value")) as [Hf|Hf].
    { split; [done|]. intros Hall. by destruct (Hall d (list_elem_of_here _ _)). }
    destruct (decide (from_step d ∉ ids)) as [Hm|Hm].
    { split; [done|]. intros Hall. by destruct (Hall d (list_elem_of_here _ _)) as (_ & ? & _). }
    destruct (decide (from_step d >= step_id step)) as [Hge|Hlt].
    { split; [done|]. intros Hall.
      destruct (Hall d (list_elem_of_here _ _)) as (_ & _ & ? & _). lia. }
    unfold _to_arg_root_exists. case_bool_decide as Hroot; cbn [negb].
    + rewrite IH. apply dec_stable in Hf, Hm. split.
      * intros Hall d' [->|Hd']%elem_of_cons; [split_and!; try done; lia | by apply Hall].
      * intros Hall d' Hd'. by apply Hall, list_elem_of_further.
    + split; [done|]. intros Hall.
      by destruct (Hall d (list_elem_of_here _ _)) as (_ & _ & _ & ?).
Qed.

(** X6.  What [_validate_dependencies] accepts: exactly the plans in which
    every declared dependency reads the field "data.value", comes from the
    id of a step of the plan that is smaller than the id of the dependent
    step, and writes to an argument whose root key (the part before the
    first dot) is among the step's [tool_args]. *)
Theorem _validate_dependencies_accepts (plan : PlannerOutput) :
  _validate_dependencies plan = None <->
  forall s d, s ∈ steps plan -> d ∈ dependencies s ->
    from_field d = "data.value" /\
    from_step d ∈ plan_step_ids plan /\
    from_step d < step_id s /\
    is_Some (tool_args s !! PyStr.split_root (to_arg d)).
Proof.
  unfold _validate_dependencies. generalize (plan_step_ids plan) as ids. intros ids.
  induction (steps plan) as [|s l IH]; cbn [dependencies_steps].
  - split; [by intros _ s d ?%elem_of_nil | done].
  - destruct (dependencies_deps ids s (dependencies s)) as [e|] eqn:Hs.
    + split; [done|]. intros Hall.
      assert (dependencies_deps ids s (dependencies s) = None) as Hnone; [|congruence].
      apply dependencies_deps_passes. intros d Hd. by apply Hall; [apply list_elem_of_here|].
    + rewrite IH. pose proof (proj1 (dependencies_deps_passes _ _ _) Hs) as Hhere. split.
      * intros Hall s' d [->|Hs']%elem_of_cons Hd; [by apply Hhere | by apply Hall].
      * intros Hall s' d Hs' Hd. by apply Hall; [apply list_elem_of_further|].
Qed.

(* ===================================================================== *)
(** * Validator: the cycle walk decides whether the graph has a cycle      *)
(* ===================================================================== *)

Section DfsFacts.
Variable g : gmap Z (list Z).
Hypothesis g_closed : graph_closed g.

Local Abbreviation E := (graph_edge g).

(** A node from which every chain of edges ends lies on no cycle. *)
Lemma acc_no_cycle (a : Z) : Acc (flip E) a -> ~ tc E a a.
Proof.
  induction 1 as [a _ IH]. intros Htc. inversion Htc as [? ? Hedge|? y ? Hedge Hrest]; subst.
  - by apply (IH a Hedge), tc_once.
  - apply (IH y Hedge). by eapply tc_r.
Qed.

Lemma size_difference_insert (node : Z) (St : gset Z) :
  is_Some (g !! node) -> node ∉ St ->
  (size (dom g ∖ ({[node]} ∪ St)) < size (dom g ∖ St))%nat.
Proof.
  intros Hnode Hout. apply subset_size. split.
  - intros x [Hx Hnot]%elem_of_difference. apply elem_of_difference. split; [done|].
    intros Hin. apply Hnot, elem_of_union. by right.
  - intros Hsub. specialize (Hsub node).
    rewrite !elem_of_difference, elem_of_dom in Hsub.
    destruct Hsub as [_ Hnot]; [done|]. apply Hnot, elem_of_union. left.
    by apply elem_of_singleton.
Qed.

(** The loop over the parents, given that the calls it makes behave.  The
    frames run out only if there are no more of them than keys of the
    graph off the stack. *)
Lemma dfs_parents_correct (fuel : nat) :
  (forall node V St,
     is_Some (g !! node) ->
     (forall v, v ∈ V -> Acc (flip E) v) -> (forall x, x ∈ St -> tc E x node) ->
     match dfs fuel g node V St with
     | DfsReturn V' St' =>
         St' = St /\ V ⊆ V' /\ node ∈ V' /\ (forall v, v ∈ V' -> Acc (flip E) v)
     | DfsCycle => exists a, tc E a a
     | DfsKeyError _ => False
     | DfsOutOfFuel => (fuel <= size (dom g ∖ St))%nat
     end) ->
  forall ps V St,
    (forall p, p ∈ ps -> is_Some (g !! p)) ->
    (forall v, v ∈ V -> Acc (flip E) v) ->
    (forall x p, x ∈ St -> p ∈ ps -> tc E x p) ->
    match dfs_parents (dfs fuel g) ps V St with
    | DfsReturn V' St' =>
        St' = St /\ V ⊆ V' /\ (forall p, p ∈ ps -> p ∈ V') /\
        (forall v, v ∈ V' -> Acc (flip E) v)
    | DfsCycle => exists a, tc E a a
    | DfsKeyError _ => False
    | DfsOutOfFuel => (fuel <= size (dom g ∖ St))%nat
    end.
Proof.
  intros Hdfs ps. induction ps as [|p ps IH]; intros V St Hkeys Hacc Hpath.
  - cbn [dfs_parents]. split_and!; try done. by intros p ?%elem_of_nil.
  - cbn [dfs_parents].
    pose proof (Hdfs p V St (Hkeys p (list_elem_of_here _ _)) Hacc
                  (fun x Hx => Hpath x p Hx (list_elem_of_here _ _))) as Hhead.
    destruct (dfs fuel g p V St) as [V1 St1| | |];
      [|exact Hhead|destruct Hhead|exact Hhead].
    destruct Hhead as (-> & Hsub & Hp & Hacc1).
    specialize (IH V1 St (fun q Hq => Hkeys q (list_elem_of_further _ _ _ Hq)) Hacc1
                  (fun x q Hx Hq => Hpath x q Hx (list_elem_of_further _ _ _ Hq))).
    destruct (dfs_parents (dfs fuel g) ps V1 St) as [V2 St2| | |];
      [|exact IH|destruct IH|exact IH].
    destruct IH as (-> & Hsub2 & Hps & Hacc2). split_and!.
    + reflexivity.
    + intros x Hx. by apply Hsub2, Hsub.
    + intros q [->|Hq]%elem_of_cons; [by apply Hsub2 | by apply Hps].
    + exact Hacc2.
Qed.

(** A call of [dfs] on a key of the graph: it returns having marked the
    node as visited and with the stack as it found it; or it reports a
    cycle, and then there is one; or it runs out of frames, and then it had
    no more of them than there are keys off the stack. *)
Lemma dfs_correct (fuel : nat) (node : Z) (V St : gset Z) :
  is_Some (g !! node) ->
  (forall v, v ∈ V -> Acc (flip E) v) -> (forall x, x ∈ St -> tc E x node) ->
  match dfs fuel g node V St with
  | DfsReturn V' St' =>
      St' = St /\ V ⊆ V' /\ node ∈ V' /\ (forall v, v ∈ V' -> Acc (flip E) v)
  | DfsCycle => exists a, tc E a a
  | DfsKeyError _ => False
  | DfsOutOfFuel => (fuel <= size (dom g ∖ St))%nat
  end.
Proof.
  revert node V St. induction fuel as [|fuel IH]; intros node V St Hnode Hacc Hpath;
    [cbn [dfs]; lia|].
  cbn [dfs]. destruct (decide (node ∈ St)) as [Hin|Hout]; [by exists node; apply Hpath|].
  destruct (decide (node ∈ V)) as [Hvis|Hnew]; [by split_and!|].
  destruct Hnode as [ps Hps]. rewrite Hps.
  pose proof (size_difference_insert node St (mk_is_Some _ _ Hps) Hout) as Hsize.
  assert (Hkeys : forall p, p ∈ ps -> is_Some (g !! p)).
  { intros p Hp. apply (g_closed node). by exists ps. }
  assert (Hpath' : forall x p, x ∈ {[node]} ∪ St -> p ∈ ps -> tc E x p).
  { intros x p [->%elem_of_singleton|Hx]%elem_of_union Hp.
    - apply tc_once. by exists ps.
    - eapply tc_r; [by apply Hpath|]. by exists ps. }
  pose proof (dfs_parents_correct fuel IH ps V ({[node]} ∪ St) Hkeys Hacc Hpath') as Hloop.
  destruct (dfs_parents (dfs fuel g) ps V ({[node]} ∪ St)) as [V1 St1| | |];
    [|exact Hloop|destruct Hloop|lia].
  destruct Hloop as (-> & Hsub & Hparents & Hacc1). split_and!.
  - apply set_eq. intros x. rewrite elem_of_difference, elem_of_union, elem_of_singleton.
    split; [intros [[->|?] ?]; done|]. intros Hx. split; [by right|]. by intros ->.
  - intros x Hx. apply elem_of_union. right. by apply Hsub.
  - apply elem_of_union. left. by apply elem_of_singleton.
  - intros v [->%elem_of_singleton|Hv]%elem_of_union; [|by apply Hacc1].
    constructor. intros y (ps' & Hps' & Hy). simplify_eq. by apply Hacc1, Hparents.
Qed.

(** The outer loop over the keys, from empty [visited] and [stack]. *)
Lemma walk_correct (fuel : nat) (keys : list Z) :
  (forall k, k ∈ keys -> is_Some (g !! k)) ->
  match dfs_parents (dfs fuel g) keys ∅ ∅ with
  | DfsReturn V' _ => forall k, k ∈ keys -> ~ tc E k k
  | DfsCycle => exists a, tc E a a
  | DfsKeyError _ => False
  | DfsOutOfFuel => (fuel <= size (dom g))%nat
  end.
Proof.
  intros Hkeys.
  pose proof (dfs_parents_correct fuel (dfs_correct fuel) keys ∅ ∅ Hkeys
                ltac:(by intros v ?%elem_of_empty)
                ltac:(by intros x p ?%elem_of_empty)) as Hloop.
  destruct (dfs_parents (dfs fuel g) keys ∅ ∅) as [V1 St1| | |];
    [|exact Hloop|destruct Hloop|by rewrite difference_empty_L in Hloop].
  destruct Hloop as (_ & _ & Hall & Hacc).
  intros k Hk. by apply acc_no_cycle, Hacc, Hall.
Qed.

End DfsFacts.

Section GraphComplete.
Variable plan : PlannerOutput.

Lemma graph_add_dep_edge (g : gmap Z (list Z)) (k p a b : Z) :
  graph_edge g a b -> graph_edge (alter (fun ps => (ps ++ [p])%list) k g) a b.
Proof.
  intros (ps & Hps & Hb). unfold graph_edge. rewrite lookup_alter.
  destruct (decide (k = a)) as [->|Hne].
  - rewrite Hps. exists (ps ++ [p])%list. split; [done|].
    apply elem_of_app. by left.
  - by exists ps.
Qed.

Lemma graph_add_deps_mono (k : Z) (ds : list Dependency) (g : gmap Z (list Z)) (a b : Z) :
  graph_edge g a b ->
  graph_edge (foldl (fun g d => alter (fun ps => (ps ++ [from_step d])%list) k g) g ds) a b.
Proof.
  revert g. induction ds as [|d ds IH]; intros g Hedge; cbn [foldl]; [done|].
  by apply IH, graph_add_dep_edge.
Qed.

Lemma graph_add_deps_keys (k : Z) (ds : list Dependency) (g : gmap Z (list Z)) (j : Z) :
  is_Some (foldl (fun g d => alter (fun ps => (ps ++ [from_step d])%list) k g) g ds !! j)
  <-> is_Some (g !! j).
Proof.
  revert g. induction ds as [|d ds IH]; intros g; cbn [foldl]; [done|].
  rewrite IH, lookup_alter. case_decide; [subst; by rewrite fmap_is_Some | done].
Qed.

Lemma graph_add_deps_adds (k : Z) (ds : list Dependency) (g : gmap Z (list Z))
    (d : Dependency) :
  is_Some (g !! k) -> d ∈ ds ->
  graph_edge (foldl (fun g d => alter (fun ps => (ps ++ [from_step d])%list) k g) g ds)
    k (from_step d).
Proof.
  revert g. induction ds as [|d0 ds IH]; intros g Hk Hd; [by apply elem_of_nil in Hd|].
  cbn [foldl]. apply elem_of_cons in Hd as [->|Hd].
  - apply graph_add_deps_mono. destruct Hk as [ps Hps]. exists (ps ++ [from_step d0])%list.
    rewrite lookup_alter, decide_True, Hps by done. split; [done|].
    apply elem_of_app. right. apply list_elem_of_here.
  - apply IH; [|done]. rewrite lookup_alter, decide_True by done. by rewrite fmap_is_Some.
Qed.

Lemma graph_add_steps_complete (l : list Step) (g : gmap Z (list Z)) (s : Step)
    (d : Dependency) :
  (forall s', s' ∈ l -> is_Some (g !! step_id s')) -> s ∈ l -> d ∈ dependencies s ->
  graph_edge (foldl graph_add_step g l) (step_id s) (from_step d).
Proof.
  revert g. induction l as [|s0 l IH]; intros g Hkeys Hs Hd; [by apply elem_of_nil in Hs|].
  cbn [foldl].
  assert (Hmono : forall g' a b, graph_edge g' a b -> graph_edge (foldl graph_add_step g' l) a b).
  { clear. induction l as [|s1 l IHl]; intros g' a b Hab; cbn [foldl]; [done|].
    by apply IHl, graph_add_deps_mono. }
  apply elem_of_cons in Hs as [->|Hs].
  - apply Hmono, graph_add_deps_adds; [apply Hkeys, list_elem_of_here | done].
  - apply IH; [|done|done]. intros s' Hs'. apply graph_add_deps_keys, Hkeys.
    by apply list_elem_of_further.
Qed.

(** The adjacency dict lists exactly the declared dependencies. *)
Lemma build_graph_edges (a b : Z) : graph_edge (build_graph plan) a b <-> dep_edge plan a b.
Proof.
  destruct (build_graph_ok plan) as [Hkeys Hedges]. split.
  - intros (ps & Hps & Hb). by eapply Hedges.
  - intros (s & d & Hs & Hd & <- & <-). apply graph_add_steps_complete; [|done|done].
    intros s' Hs'. destruct (graph_init_ok plan) as [Hinit _]. apply Hinit.
    unfold plan_step_ids. by apply elem_of_list_to_set, list_elem_of_fmap_2.
Qed.

Lemma keys_in_order_complete (ids : list Z) (seen : gset Z) (k : Z) :
  k ∈ ids -> k ∉ seen -> k ∈ keys_in_order ids seen.
Proof.
  revert seen. induction ids as [|i ids IH]; intros seen Hk Hout; [by apply elem_of_nil in Hk|].
  cbn [keys_in_order]. destruct (decide (i ∈ seen)) as [Hin|Hnew].
  - apply elem_of_cons in Hk as [->|Hk]; [done | by apply IH].
  - destruct (decide (k = i)) as [->|Hne]; [apply list_elem_of_here|].
    apply list_elem_of_further, IH.
    + apply elem_of_cons in Hk as [?|?]; done.
    + intros [?%elem_of_singleton|?]%elem_of_union; done.
Qed.

Lemma tc_edges_iff (a b : Z) : tc (graph_edge (build_graph plan)) a b <-> tc (dep_edge plan) a b.
Proof.
  split; induction 1 as [x y Hxy|x y z Hxy _ IH].
  - by apply tc_once, build_graph_edges.
  - eapply tc_l; [by apply build_graph_edges|done].
  - by apply tc_once, build_graph_edges.
  - eapply tc_l; [by apply build_graph_edges|done].
Qed.

(** The walk of [_validate_no_cycles] over a graph whose dependencies all
    name steps of the plan, with whatever number of frames. *)
Lemma no_cycles_walk_decides (recursion_budget : nat) :
  deps_name_steps plan ->
  match no_cycles_walk recursion_budget plan with
  | DfsReturn _ _ => ~ has_cycle plan
  | DfsCycle => has_cycle plan
  | DfsKeyError _ => False
  | DfsOutOfFuel => (recursion_budget <= length (steps plan))%nat
  end.
Proof.
  intros Hnames. destruct (build_graph_ok plan) as [Hkeys Hedges].
  assert (Hclosed : graph_closed (build_graph plan)).
  { intros a b (s & d & Hs & Hd & <- & <-)%build_graph_edges. apply Hkeys. by apply (Hnames s d). }
  assert (Hdom : dom (build_graph plan) = plan_step_ids plan).
  { apply set_eq. intros k. by rewrite elem_of_dom. }
  pose proof (walk_correct (build_graph plan) Hclosed recursion_budget (graph_keys plan)
                (fun k Hk => proj2 (Hkeys k) (graph_keys_elem plan k Hk))) as Hwalk.
  unfold no_cycles_walk.
  destruct (dfs_parents _ (graph_keys plan) ∅ ∅) as [V St| | |].
  - intros [a Ha]. apply tc_edges_iff in Ha. eapply Hwalk; [|exact Ha].
    apply keys_in_order_complete; [|apply not_elem_of_empty].
    assert (Hin : a ∈ plan_step_ids plan).
    { apply Hkeys. inversion Ha as [? ? (ps & Hps & _)|? ? ? (ps & Hps & _)]; by subst. }
    unfold plan_step_ids in Hin. by apply elem_of_list_to_set in Hin.
  - destruct Hwalk as [a Ha]. exists a. by apply tc_edges_iff.
  - exact Hwalk.
  - rewrite Hdom in Hwalk. pose proof (size_list_to_set_le (step_id <$> steps plan)) as Hle.
    rewrite length_fmap in Hle. unfold plan_step_ids in Hwalk. lia.
Qed.

Lemma keys_in_order_fresh (ids : list Z) (seen : gset Z) :
  NoDup ids -> (forall i, i ∈ ids -> i ∉ seen) -> keys_in_order ids seen = ids.
Proof.
  revert seen. induction ids as [|i ids IH]; intros seen Hnodup Hfresh; [done|].
  apply NoDup_cons in Hnodup as [Hi Hnodup]. cbn [keys_in_order].
  rewrite decide_False by apply Hfresh, list_elem_of_here. f_equal. apply IH; [done|].
  intros j Hj [->%elem_of_singleton|Hin]%elem_of_union; [done|].
  by apply (Hfresh j (list_elem_of_further _ _ _ Hj)).
Qed.

Hypothesis deps_ok : _validate_dependencies plan = None.

(** A call of [dfs] from the outer loop on a step all of whose earlier
    steps are visited: two frames are enough. *)
Lemma dfs_two_frames (fuel : nat) (k : Z) (visited : gset Z) :
  k ∈ plan_step_ids plan ->
  (forall j, j ∈ plan_step_ids plan -> j < k -> j ∈ visited) ->
  exists visited',
    dfs (S (S fuel)) (build_graph plan) k visited ∅ = DfsReturn visited' ∅ /\
    visited ⊆ visited' /\ k ∈ visited'.
Proof.
  intros Hk Hbelow. cbn [dfs]. rewrite decide_False by apply not_elem_of_empty.
  destruct (decide (k ∈ visited)) as [Hin|Hnew]; [by exists visited|].
  destruct (build_graph_ok plan) as [Hkeys Hedges].
  destruct (proj2 (Hkeys k) Hk) as [ps Hps]. rewrite Hps.
  assert (Hloop : forall qs, (forall p, p ∈ qs -> p ∈ ps) ->
             dfs_parents
               (fun node visited0 stack =>
                  if decide (node ∈ stack) then DfsCycle
                  else if decide (node ∈ visited0) then DfsReturn visited0 stack
                  else match build_graph plan !! node with
                       | Some parents =>
                           match dfs_parents (dfs fuel (build_graph plan)) parents visited0
                                   ({[node]} ∪ stack) with
                           | DfsReturn visited' stack' =>
                               DfsReturn ({[node]} ∪ visited') (stack' ∖ {[node]})
                           | o => o
                           end
                       | None => DfsKeyError node
                       end) qs visited ({[k]} ∪ ∅)
             = DfsReturn visited ({[k]} ∪ ∅)).
  { induction qs as [|p qs IHqs]; intros Hqs; [done|]. cbn [dfs_parents].
    pose proof (Hedges k ps p Hps (Hqs p (list_elem_of_here _ _))) as Hedge.
    apply _validate_dependencies_edges in Hedge as [Hp Hlt]; [|done].
    rewrite decide_False by (intros [->%elem_of_singleton|[]%elem_of_empty]%elem_of_union; lia).
    rewrite decide_True by by apply Hbelow.
    apply IHqs. intros q Hq. by apply Hqs, list_elem_of_further. }
  rewrite (Hloop ps) by done.
  exists ({[k]} ∪ visited). split; [|split].
  - f_equal. apply set_eq. intros x.
    rewrite elem_of_difference, elem_of_union, elem_of_singleton.
    split; [intros [[->|[]%elem_of_empty] ?]; done | by intros ?%elem_of_empty].
  - intros x Hx. apply elem_of_union. by right.
  - apply elem_of_union. left. by apply elem_of_singleton.
Qed.

Lemma walk_two_frames (fuel : nat) (n : nat) :
  forall (a : Z) (visited : gset Z),
    (forall k, k ∈ seqZ a (Z.of_nat n) -> k ∈ plan_step_ids plan) ->
    (forall j, j ∈ plan_step_ids plan -> j < a -> j ∈ visited) ->
    exists visited',
      dfs_parents (dfs (S (S fuel)) (build_graph plan)) (seqZ a (Z.of_nat n)) visited ∅
      = DfsReturn visited' ∅.
Proof.
  induction n as [|n IH]; intros a visited Hkeys Hbelow; [by exists visited|].
  rewrite seqZ_cons in * by lia.
  replace (Z.pred (Z.of_nat (S n))) with (Z.of_nat n) in * by lia.
  cbn [dfs_parents].
  destruct (dfs_two_frames fuel a visited (Hkeys a (list_elem_of_here _ _)) Hbelow)
    as (v1 & -> & Hsub & Ha).
  apply IH.
  - intros k Hk. by apply Hkeys, list_elem_of_further.
  - intros j Hj Hlt. destruct (decide (j = a)) as [->|Hne]; [done|].
    apply Hsub, Hbelow; [done | lia].
Qed.

End GraphComplete.

(** In [validate_plan] the cycle check comes after the schema check and
    the dependency check: the ids are then 1, 2, ... in the order of the
    steps and every dependency names an earlier step, so every call of
    [dfs] from the outer loop finds the parents visited, and two frames are
    enough for a plan of any length. *)
Lemma _validate_no_cycles_two_frames (plan : PlannerOutput) (recursion_budget : nat) :
  _validate_schema plan = None -> _validate_dependencies plan = None ->
  (2 <= recursion_budget)%nat ->
  _validate_no_cycles_within recursion_budget plan = None /\
  _validate_no_cycles plan = None.
Proof.
  intros Hschema Hdeps Hbudget. split; [|by apply _validate_no_cycles_passes].
  destruct recursion_budget as [|[|fuel]]; [lia | lia |].
  assert (Hids : step_id <$> steps plan = seqZ 1 (Z.of_nat (length (steps plan)))).
  { unfold _validate_schema in Hschema.
    destruct (negb _); [done|].
    destruct (bool_decide (plan_status plan = "impossible")).
    - destruct (bool_decide (steps plan ≠ [])) eqn:Hsteps; [done|].
      apply bool_decide_eq_false in Hsteps. apply dec_stable in Hsteps. by rewrite Hsteps.
    - destruct (bool_decide (steps plan = [])); [done|]. by eapply schema_steps_ids. }
  unfold _validate_no_cycles_within, no_cycles_walk, graph_keys.
  rewrite keys_in_order_fresh, Hids;
    [| rewrite Hids; apply NoDup_seqZ | intros i _; apply not_elem_of_empty].
  destruct (walk_two_frames plan Hdeps fuel (length (steps plan)) 1 ∅) as [v' ->]; [| |done].
  - intros k Hk. unfold plan_step_ids. rewrite Hids. by apply elem_of_list_to_set.
  - intros j Hj Hlt. unfold plan_step_ids in Hj. rewrite Hids in Hj.
    apply elem_of_list_to_set, elem_of_seqZ in Hj. lia.
Qed.

(** X7.  [_validate_no_cycles], taken on its own, on a plan every
    dependency of which names the id of a step, whatever the order of the
    ids and whatever number of frames the interpreter leaves to the
    recursion of [dfs]: if it raises "Cyclic dependency detected", some step
    reaches itself along dependencies; if it returns normally, none does;
    it never raises KeyError; and it raises RecursionError only when the
    frames are no more than the steps of the plan.  So with more frames
    than steps it decides whether the dependency graph has a cycle. *)
Theorem _validate_no_cycles_decides (plan : PlannerOutput) (recursion_budget : nat) :
  deps_name_steps plan ->
  (_validate_no_cycles_within recursion_budget plan = Some cycle_fault -> has_cycle plan) /\
  (_validate_no_cycles_within recursion_budget plan = None -> ~ has_cycle plan) /\
  (forall node, _validate_no_cycles_within recursion_budget plan <> Some (GraphKeyError node)) /\
  (_validate_no_cycles_within recursion_budget plan = Some RecursionError ->
   (recursion_budget <= length (steps plan))%nat) /\
  ((length (steps plan) < recursion_budget)%nat ->
   (has_cycle plan -> _validate_no_cycles_within recursion_budget plan = Some cycle_fault) /\
   (~ has_cycle plan -> _validate_no_cycles_within recursion_budget plan = None)).
Proof.
  intros Hnames. pose proof (no_cycles_walk_decides plan recursion_budget Hnames) as Hwalk.
  unfold _validate_no_cycles_within.
  destruct (no_cycles_walk recursion_budget plan); split_and!; try done; try lia.
Qed.

Lemma _validate_no_cycles_decides_witness :
  _validate_no_cycles_within 4 Scenario.plan_mutual_cycle = Some cycle_fault /\
  _validate_no_cycles_within 4 Scenario.plan_descending = None /\
  _validate_no_cycles_within 2 Scenario.plan_descending = Some RecursionError /\
  ~ has_cycle Scenario.plan_descending.
Proof.
  assert (Hmutual : deps_name_steps Scenario.plan_mutual_cycle).
  { intros s d Hs Hd. unfold plan_step_ids. apply elem_of_list_to_set.
    repeat (apply elem_of_cons in Hs as [->|Hs]); [| | |by apply elem_of_nil in Hs];
      repeat (apply elem_of_cons in Hd as [->|Hd]); try (by apply elem_of_nil in Hd);
      cbn; set_solver. }
  assert (Hdesc : deps_name_steps Scenario.plan_descending).
  { intros s d Hs Hd. unfold plan_step_ids. apply elem_of_list_to_set.
    repeat (apply elem_of_cons in Hs as [->|Hs]); [| | |by apply elem_of_nil in Hs];
      repeat (apply elem_of_cons in Hd as [->|Hd]); try (by apply elem_of_nil in Hd);
      cbn; set_solver. }
  pose proof (_validate_no_cycles_decides Scenario.plan_mutual_cycle 4 Hmutual)
    as (_ & _ & _ & _ & Hdecides).
  pose proof (_validate_no_cycles_decides Scenario.plan_descending 4 Hdesc)
    as (_ & Hnone & _ & _ & _).
  assert (Hwalk : _validate_no_cycles_within 4 Scenario.plan_descending = None)
    by (vm_compute; reflexivity).
  split_and!.
  - apply Hdecides; [cbn; lia|].
    exists 2. apply tc_l with 3.
    + exists (Scenario.step_from 2 3). eexists.
      split; [apply list_elem_of_further, list_elem_of_here|].
      split; [apply list_elem_of_here | done].
    + apply tc_once. exists (Scenario.step_from 3 2). eexists.
      split; [do 2 apply list_elem_of_further; apply list_elem_of_here|].
      split; [apply list_elem_of_here | done].
  - exact Hwalk.
  - vm_compute. reflexivity.
  - exact (Hnone Hwalk).
Defined.

(* ===================================================================== *)
(** * Recovery loop: why a run stops and what it returns                   *)
(* ===================================================================== *)

Section AgentRuns.
Context {World : Type} `{!Collaborators World} `{!ToolRules}.
Variables (max_retries max_replans : Z) (user_input : string).

Local Abbreviation loop := (recovery_loop max_retries max_replans user_input).
Local Abbreviation run := (run_with_recovery_from max_retries max_replans user_input).

(** How the loop is left: after an Executor run on a plan [q], possibly
    followed by one replan attempt; and for which reason.  The plan that is
    returned is [q], but when [record_call] raised after the Replanner had
    handed back a new plan: then this new plan is returned, with the result
    of the run on [q]. *)
Lemma recovery_loop_end (fuel : nat) (plan : PlannerOutput)
    (retries : gmap (option Z) Z) (replans : Z) (tr : list Event) (w w' : World)
    (r : RecoveryRun) :
  loop fuel plan retries replans tr w = Some (r, w') ->
  exists (tr0 : list Event) (q : PlannerOutput) (tl : list Event) (w_last w_after : World),
    trace r = (tr ++ tr0 ++ EvExecute q :: tl)%list /\
    execute_plan w_last q = (executor_output r, w_after) /\
    (forall e, e ∈ tr0 -> is_record_raised e = false) /\
    ((q = plan /\ forall e, e ∈ tr0 -> is_replanned e = false) \/
     (EvReplanned q ∈ tr0 /\ validate_plan q user_input = inr q)) /\
    if bool_decide (execution_status (executor_output r) = "completed")
    then tl = [] /\ final_plan r = q
    else
      let k := md_failed_step_id (metadata (executor_output r)) in
      match classify_failure (default "" (md_error (metadata (executor_output r))))
              (_get_tool_name q k) with
      | TRANSIENT =>
          tl = [] /\ final_plan r = q /\ max_retries < default 0 (final_retries r !! k)
      | STRUCTURAL =>
          (tl = [] /\ final_plan r = q /\ max_replans <= final_replans r) \/
          (tl = [EvQuotaDenied] /\ final_plan r = q /\
           can_call w_after Config.MODEL_NAME = (inr false, w')) \/
          (tl = [EvQuotaRaised] /\ final_plan r = q /\
           exists e, can_call w_after Config.MODEL_NAME = (inl e, w')) \/
          (tl = [EvReplanCall] /\ final_plan r = q) \/
          (tl = [EvReplanCall; EvRecordRaised (final_plan r)] /\
           final_replans r <= max_replans /\
           validate_plan (final_plan r) user_input = inr (final_plan r) /\
           exists w_g w_g' e,
             can_call w_after Config.MODEL_NAME = (inr true, w_g) /\
             replan_gateway w_g q (executor_output r) user_input
             = (inr (final_plan r), w_g') /\
             record_call w_g' Config.MODEL_NAME = (inl e, w'))
      | TERMINAL => tl = [] /\ final_plan r = q
      end.
Proof.
  revert plan retries replans tr w.
  induction fuel as [|fuel IH]; intros plan retries replans tr w Hrun; [done|].
  rewrite recovery_loop_unfold in Hrun.
  destruct (execute_plan w plan) as [output w1] eqn:Hexec. cbv zeta in Hrun.
  assert (Hhere : forall e : Event, e ∈ [] -> is_replanned e = false)
    by (intros e He; by apply elem_of_nil in He).
  assert (Hnone : forall e : Event, e ∈ [] -> is_record_raised e = false)
    by (intros e He; by apply elem_of_nil in He).
  destruct (bool_decide (execution_status output = "completed")) eqn:Hdone.
  { injection Hrun as <- <-. exists [], plan, [], w, w1.
    cbn [trace final_plan executor_output]. rewrite Hdone.
    split_and!; [done | done | done | by left | done | done]. }
  destruct (classify_failure _ _) eqn:Hclass.
  - destruct (bool_decide (default 0 (bump retries (md_failed_step_id (metadata output))
                                        !! md_failed_step_id (metadata output))
                           <= max_retries)) eqn:Hle.
    + apply IH in Hrun
        as (tr0 & q & tl & w_last & w_after & Htr & Hlast & Hnot & Hplan & Hwhy).
      exists (EvExecute plan :: EvRetry (md_failed_step_id (metadata output)) :: tr0),
        q, tl, w_last, w_after.
      split_and!; [|done| | |done].
      * rewrite Htr, <- !app_assoc. done.
      * intros e [->|[->|He]%elem_of_cons]%elem_of_cons; [done | done | by apply Hnot].
      * destruct Hplan as [[Heq Hno]|[Hin Hvalid]]; [left|right].
        -- split; [done|]. intros e [->|[->|He]%elem_of_cons]%elem_of_cons;
             [done | done | by apply Hno].
        -- split; [by do 2 apply list_elem_of_further | done].
    + apply bool_decide_eq_false in Hle. injection Hrun as <- <-.
      exists [], plan, [], w, w1.
      cbn [trace final_plan executor_output final_retries].
      rewrite Hdone, Hclass. split_and!; [done | done | done | by left | done | done | lia].
  - destruct (bool_decide (replans < max_replans)) eqn:Hlt.
    + apply bool_decide_eq_true_1 in Hlt.
      destruct (can_call w1 Config.MODEL_NAME) as [[e0|[|]] w2] eqn:Hquota.
      * injection Hrun as <- <-. exists [], plan, [EvQuotaRaised], w, w1.
        cbn [trace final_plan executor_output final_replans].
        rewrite Hdone, Hclass, <- app_assoc.
        split_and!; [done | done | done | by left |].
        right; right; left. split_and!; [done | done | by exists e0].
      * destruct (replan_gateway w2 plan output user_input) as [[f|plan'] w3] eqn:Hgate.
        -- injection Hrun as <- <-. exists [], plan, [EvReplanCall], w, w1.
           cbn [trace final_plan executor_output final_replans].
           rewrite Hdone, Hclass, <- app_assoc.
           split_and!; [done | done | done | by left | by right; right; right; left].
        -- pose proof (replan_gateway_validated _ _ _ _ _ _ Hgate) as Hvalid'.
           destruct (record_call w3 Config.MODEL_NAME) as [[e0|u] w4] eqn:Hrecord.
           ++ injection Hrun as <- <-.
              exists [], plan, [EvReplanCall; EvRecordRaised plan'], w, w1.
              cbn [trace final_plan executor_output final_replans].
              rewrite Hdone, Hclass, <- app_assoc.
              split_and!; [done | done | done | by left |].
              do 4 right. split_and!; [done | lia | done |].
              by exists w2, w3, e0.
           ++ apply IH in Hrun
                as (tr0 & q & tl & w_last & w_after & Htr & Hlast & Hnot & Hplan & Hwhy).
              exists (EvExecute plan :: EvReplanCall :: EvReplanned plan' :: tr0),
                q, tl, w_last, w_after.
              split_and!; [|done| | |done].
              ** rewrite Htr, <- !app_assoc. done.
              ** intros e [->|[->|[->|He]%elem_of_cons]%elem_of_cons]%elem_of_cons;
                   [done | done | done | by apply Hnot].
              ** right. destruct Hplan as [[Heq Hno]|[Hin Hvalid]].
                 --- rewrite Heq. split; [|done].
                     do 2 apply list_elem_of_further. apply list_elem_of_here.
                 --- split; [by do 3 apply list_elem_of_further | done].
      * injection Hrun as <- <-. exists [], plan, [EvQuotaDenied], w, w1.
        cbn [trace final_plan executor_output final_replans].
        rewrite Hdone, Hclass, <- app_assoc.
        split_and!; [done | done | done | by left | by right; left].
    + apply bool_decide_eq_false in Hlt. injection Hrun as <- <-.
      exists [], plan, [], w, w1.
      cbn [trace final_plan executor_output final_replans].
      rewrite Hdone, Hclass.
      split_and!; [done | done | done | by left | left; split_and!; [done | done | lia]].
  - injection Hrun as <- <-. exists [], plan, [], w, w1.
    cbn [trace final_plan executor_output].
    rewrite Hdone, Hclass. split_and!; [done | done | done | by left | done | done].
Qed.



(** X10.  In every run the replan attempts - calls of the Replanner and
    attempts refused by the quota check - number at most
    [max_replans_per_run], and the plans put in place by a replan number at
    most the calls of the Replanner. *)
Theorem replan_attempts_bounded (fuel : nat) (w w' : World) (plan : PlannerOutput)
    (r : RecoveryRun) :
  run fuel w plan = Some (r, w') ->
  replan_calls (trace r) + quota_denials (trace r) <= Z.max 0 max_replans /\
  count_events is_replanned (trace r) <= replan_calls (trace r) /\
  0 <= quota_denials (trace r) <= 1.
Proof.
  intros Hrun. pose proof (run_facts _ _ _ _ _ _ _ _ Hrun) as Hfacts.
  destruct Hfacts as [_ _ _ Hreplanned Hreplans Hrange Hdenial _].
  pose proof (count_events_nonneg is_quota_raised (trace r)).
  split_and!; [lia | done | destruct Hdenial as [->|[-> _]]; lia..].
Qed.

(** X11.  An impossible plan handed to [run_with_recovery] is not
    returned at once: the Executor skips it without calling a tool, the
    empty error is classified STRUCTURAL, and with a replan budget the loop
    goes on to the quota check and, if this grants the call, to the
    Replanner; if the check refuses or raises, the skipped result is
    returned.  Without budget the skipped result is returned. *)
Theorem impossible_plan_is_replanned (fuel : nat) (w w' : World) (plan : PlannerOutput)
    (r : RecoveryRun) :
  plan_status plan = "impossible" ->
  run fuel w plan = Some (r, w') ->
  if bool_decide (0 < max_replans) then
    match can_call w Config.MODEL_NAME with
    | (inl _, w2) =>
        trace r = [EvExecute plan; EvQuotaRaised] /\
        executor_output r = _create_skipped_result /\ final_plan r = plan /\ w' = w2
    | (inr false, w2) =>
        trace r = [EvExecute plan; EvQuotaDenied] /\
        executor_output r = _create_skipped_result /\ final_plan r = plan /\ w' = w2
    | (inr true, _) => exists tl, trace r = EvExecute plan :: EvReplanCall :: tl
    end
  else
    trace r = [EvExecute plan] /\ executor_output r = _create_skipped_result /\
    final_plan r = plan /\ w' = w.
Proof.
  intros Himp Hrun. unfold run_with_recovery_from in Hrun.
  destruct fuel as [|fuel]; [done|]. rewrite recovery_loop_unfold in Hrun.
  assert (Hexec : execute_plan w plan = (_create_skipped_result, w)).
  { unfold execute_plan, execute_plan_state. by rewrite Himp. }
  rewrite Hexec in Hrun. cbv zeta in Hrun.
  change (bool_decide (execution_status _create_skipped_result = "completed"))
    with false in Hrun.
  change (classify_failure _ _) with STRUCTURAL in Hrun.
  destruct (bool_decide (0 < max_replans)); [|by simplify_eq].
  destruct (can_call w Config.MODEL_NAME) as [[e0|[|]] w2]; [by simplify_eq | |by simplify_eq].
  destruct (replan_gateway w2 plan _create_skipped_result user_input) as [[f|plan'] w3].
  - simplify_eq. by eexists.
  - destruct (record_call w3 Config.MODEL_NAME) as [[e0|u] w4].
    + simplify_eq. by eexists.
    + apply recovery_loop_end in Hrun as (tr0 & q & tl & _ & _ & Htr & _). rewrite Htr.
      by eexists.
Qed.

End AgentRuns.



Lemma replan_attempts_bounded_witness :
  exists r w',
    @run_with_recovery nat Scenario.replanning_world Scenario.permissive 10 0%nat
      "current date" Scenario.plan_one = Some (r, w') /\
    replan_calls (trace r) + quota_denials (trace r) <= Z.max 0 Config.MAX_REPLANS_PER_RUN /\
    count_events is_replanned (trace r) <= replan_calls (trace r) /\
    0 <= quota_denials (trace r) <= 1.
Proof.
  destruct (@run_with_recovery nat Scenario.replanning_world Scenario.permissive 10 0%nat
              "current date" Scenario.plan_one) as [[r w']|] eqn:Hrun;
    [|vm_compute in Hrun; discriminate].
  exists r, w'. split; [reflexivity|].
  exact (@replan_attempts_bounded nat Scenario.replanning_world Scenario.permissive
           Config.MAX_RETRIES_PER_STEP Config.MAX_REPLANS_PER_RUN "current date"
           10%nat 0%nat w' Scenario.plan_one r Hrun).
Defined.

Lemma impossible_plan_is_replanned_witness :
  exists r w',
    @run_with_recovery nat Scenario.planner_down_world Scenario.permissive 10 0%nat
      "launch a rocket" Scenario.plan_impossible = Some (r, w') /\
    exists tl, trace r = EvExecute Scenario.plan_impossible :: EvReplanCall :: tl.
Proof.
  destruct (@run_with_recovery nat Scenario.planner_down_world Scenario.permissive 10 0%nat
              "launch a rocket" Scenario.plan_impossible) as [[r w']|] eqn:Hrun;
    [|vm_compute in Hrun; discriminate].
  exists r, w'. split; [reflexivity|].
  exact (@impossible_plan_is_replanned nat Scenario.planner_down_world Scenario.permissive
           Config.MAX_RETRIES_PER_STEP Config.MAX_REPLANS_PER_RUN "launch a rocket"
           10%nat 0%nat w' Scenario.plan_impossible r eq_refl Hrun).
Defined.

(* ===================================================================== *)
(** * Replanner: the context and the plans handed back                     *)
(* ===================================================================== *)

Lemma find_step_lookup (l : list Step) (i : nat) (s : Step) :
  NoDup (step_id <$> l) -> l !! i = Some s -> find_step l (step_id s) = Some s.
Proof.
  revert i. induction l as [|s0 l IH]; intros i Hnodup Hi; [done|].
  rewrite fmap_cons in Hnodup. apply NoDup_cons in Hnodup as [Hfresh Hnodup].
  cbn [find_step]. destruct i as [|i]; simpl in Hi.
  - simplify_eq. by rewrite decide_True.
  - rewrite decide_False; [by eapply IH|].
    intros Heq. apply Hfresh. rewrite Heq. apply list_elem_of_fmap_2.
    by eapply list_elem_of_lookup_2.
Qed.

Lemma _extract_successful_steps_app (plan : PlannerOutput) (a b : list StepResult) :
  _extract_successful_steps plan (a ++ b)%list
  = (_extract_successful_steps plan a ++ _extract_successful_steps plan b)%list.
Proof.
  induction a as [|r a IH]; [done|]. cbn [app _extract_successful_steps]. rewrite IH.
  destruct (sr_success r); [|done]. by destruct (_get_step_by_id plan _).
Qed.

(** The successful results of the first steps of a plan are described by
    these very steps. *)
Lemma _extract_successful_steps_take (plan : PlannerOutput) (ok : list StepResult) :
  NoDup (step_id <$> steps plan) ->
  Forall (fun r => sr_success r = true) ok ->
  sr_step_id <$> ok = step_id <$> take (length ok) (steps plan) ->
  _extract_successful_steps plan ok = step_info <$> take (length ok) (steps plan).
Proof.
  intros Hnodup. induction ok as [|r ok IH] using rev_ind; intros Hall Hids; [done|].
  apply Forall_app in Hall as [Hall Hr]. apply Forall_cons in Hr as [Hr _].
  rewrite length_app in *. cbn [length] in *.
  replace (length ok + 1)%nat with (S (length ok)) in * by lia.
  rewrite fmap_app in Hids. cbn [fmap list_fmap] in Hids.
  assert (Hlen : (length ok < length (steps plan))%nat).
  { apply (f_equal length) in Hids.
    rewrite length_app, !length_fmap, length_take in Hids. cbn [length] in Hids. lia. }
  destruct (lookup_lt_is_Some_2 (steps plan) (length ok) Hlen) as [s Hs].
  rewrite (take_S_r _ _ _ Hs) in Hids |- *. rewrite fmap_app in Hids. rewrite fmap_app.
  cbn [fmap list_fmap] in Hids |- *.
  apply app_inj_tail in Hids as [Hids Hid].
  rewrite _extract_successful_steps_app, IH by done. f_equal.
  cbn [_extract_successful_steps _get_step_by_id]. rewrite Hr, Hid.
  by rewrite (find_step_lookup _ _ _ Hnodup Hs).
Qed.

Section ReplannerFacts.
Context {World : Type} `{!Collaborators World} `{!ToolRules}.

Lemma _validate_tools_exist_passes (l : list Step) :
  _validate_tools_exist l = None <-> Forall (fun s => registered (tool_name s) = true) l.
Proof.
  induction l as [|s l IH]; cbn [_validate_tools_exist]; [done|].
  rewrite Forall_cons. destruct (registered (tool_name s)); cbn [negb].
  - rewrite IH. split; [done|]. by intros [_ ?].
  - split; [done|]. by intros [? _].
Qed.

(** X12.  The context that [_build_replan_context] derives from the plan
    and the result of its Executor run, when the step ids of the plan are
    distinct: [successful_steps] describes the first [n] steps of the plan,
    in order, where [n] is the number of steps that succeeded; the failed
    step is the next one, and its tool and instruction are reported; when
    the result names no failed step, neither is. *)
Theorem replan_context_of_run (w w' : World) (plan : PlannerOutput)
    (output : ExecutionResult) (error : string) :
  NoDup (step_id <$> steps plan) ->
  execute_plan w plan = (output, w') ->
  exists n : nat,
    let ctx := _build_replan_context plan output (md_failed_step_id (metadata output)) error in
    successful_steps ctx = step_info <$> take n (steps plan) /\
    total_steps ctx = Z.of_nat (length (steps plan)) /\
    match md_failed_step_id (metadata output) with
    | Some id =>
        exists failed,
          steps plan !! n = Some failed /\ step_id failed = id /\
          fs_tool (failed_step ctx) = Some (tool_name failed) /\
          fs_instruction (failed_step ctx) = Some (instruction failed)
    | None =>
        fs_tool (failed_step ctx) = None /\ fs_instruction (failed_step ctx) = None
    end.
Proof.
  intros Hnodup. rewrite execute_plan_state_fst. unfold execute_plan_state. intros Hexec.
  destruct (bool_decide (plan_status plan = "impossible")).
  { injection Hexec as <- <-. exists 0%nat. cbn. by rewrite take_0. }
  destruct (execute_steps (steps plan) exec_init w) as [[exit st] w1] eqn:Hrun.
  pose proof (execute_steps_prefix _ _ _ _ _ _ Hrun)
    as (n & ok & rest & Hres & Hn & Hids & _ & _ & Hall & Hrest & _ & _).
  pose proof (execute_steps_stored _ _ _ _ _ _ Hrun eq_refl) as [_ Hfailed].
  cbn [es_step_results exec_init app] in Hres.
  assert (Hok : sr_step_id <$> ok = step_id <$> take (length ok) (steps plan)).
  { assert (Hle : (length ok <= n)%nat).
    { apply (f_equal length) in Hids.
      rewrite !length_fmap, length_app, length_take in Hids. lia. }
    apply (f_equal (take (length ok))) in Hids.
    rewrite fmap_app, take_app_length' in Hids by (by rewrite length_fmap).
    rewrite Hids, <- fmap_take, take_take. by rewrite Nat.min_l. }
  assert (Hextract : _extract_successful_steps plan (es_step_results st)
                     = step_info <$> take (length ok) (steps plan)).
  { rewrite Hres, _extract_successful_steps_app,
      (_extract_successful_steps_take plan ok Hnodup Hall Hok).
    destruct Hrest as [->|(r & -> & Hr)]; cbn [_extract_successful_steps].
    - by rewrite app_nil_r.
    - by rewrite Hr, app_nil_r. }
  exists (length ok). destruct exit as [|failed err|e]; injection Hexec as <- <-; cbn.
  - by rewrite Hextract.
  - rewrite Hextract. split_and!; [done | done |].
    destruct (Hfailed failed err eq_refl) as (rs & r & Hrs & Hid & Hfalse & _).
    assert (Hsplit : ok = rs /\ rest = [r]).
    { destruct Hrest as [->|(r' & -> & _)].
      - rewrite app_nil_r in Hres. subst ok. rewrite Hrs in Hall.
        apply Forall_app in Hall as [_ Hr]. apply Forall_cons in Hr as [Hr _]. congruence.
      - rewrite Hres in Hrs. by apply app_inj_tail in Hrs as [-> ->]. }
    destruct Hsplit as [-> ->].
    assert (Hn' : n = S (length rs)).
    { apply (f_equal length) in Hids.
      rewrite !length_fmap, length_app, length_take in Hids. cbn [length] in Hids. lia. }
    assert (Hlen : (length rs < length (steps plan))%nat) by lia.
    destruct (lookup_lt_is_Some_2 (steps plan) (length rs) Hlen) as [s Hs].
    assert (Hsid : step_id s = step_id failed).
    { apply (f_equal (fun l => l !! length rs)) in Hids.
      rewrite fmap_app, lookup_app_r in Hids by (by rewrite length_fmap).
      rewrite length_fmap, Nat.sub_diag in Hids. cbn in Hids.
      rewrite list_lookup_fmap, lookup_take_lt, Hs in Hids; [|lia].
      cbn in Hids. congruence. }
    rewrite <- Hsid, (find_step_lookup _ _ _ Hnodup Hs). by exists s.
  - by rewrite Hextract.
Qed.

(** X13.  [replan_gateway] hands back a plan exactly when the planner
    answered the replan request with this plan, every tool the plan names
    is registered, and the plan passes [validate_plan]; the plan is handed
    back unchanged, and the planner call is the only access to the outside
    world. *)
Theorem replan_gateway_accepts (w w' : World) (original plan' : PlannerOutput)
    (result : ExecutionResult) (user_input : string) :
  replan_gateway w original result user_input = (inr plan', w') <->
  plan_gateway_replan w user_input
    (_build_replan_context original result (md_failed_step_id (metadata result))
       (default "Unknown error" (md_error (metadata result))))
  = (inr plan', w') /\
  Forall (fun s => registered (tool_name s) = true) (steps plan') /\
  validate_plan plan' user_input = inr plan'.
Proof.
  unfold replan_gateway. cbv zeta.
  destruct (plan_gateway_replan w user_input _) as [[e|candidate] w1].
  { split; [done | by intros [[=] _]]. }
  destruct (_validate_tools_exist (steps candidate)) as [e|] eqn:Htools.
  - split; [done|]. intros ([= <- <-] & Hreg & _).
    apply _validate_tools_exist_passes in Hreg. congruence.
  - apply _validate_tools_exist_passes in Htools.
    destruct (validate_plan candidate user_input) as [f|normalized] eqn:Hvalid.
    + split; [done|]. intros ([= <- <-] & _ & Hok). congruence.
    + apply validate_plan_inr in Hvalid as Heq. subst normalized. split.
      * by intros [= <- <-].
      * by intros ([= <- <-] & _ & _).
Qed.

End ReplannerFacts.

Lemma replan_context_of_run_witness :
  exists n : nat,
    let output := Scenario.stuck_output in
    let ctx := _build_replan_context Scenario.plan_two output
                 (md_failed_step_id (metadata output)) "Connection timeout" in
    successful_steps ctx = step_info <$> take n (steps Scenario.plan_two) /\
    total_steps ctx = Z.of_nat (length (steps Scenario.plan_two)) /\
    match md_failed_step_id (metadata output) with
    | Some id =>
        exists failed,
          steps Scenario.plan_two !! n = Some failed /\ step_id failed = id /\
          fs_tool (failed_step ctx) = Some (tool_name failed) /\
          fs_instruction (failed_step ctx) = Some (instruction failed)
    | None =>
        fs_tool (failed_step ctx) = None /\ fs_instruction (failed_step ctx) = None
    end.
Proof.
  apply (@replan_context_of_run nat Scenario.stuck_world 0%nat 2%nat Scenario.plan_two
           Scenario.stuck_output "Connection timeout").
  - apply (bool_decide_unpack _). by vm_compute.
  - apply stuck_world_execute.
Defined.

(* ===================================================================== *)
(** * Tool runner: attempts, retries and what is raised                    *)
(* ===================================================================== *)

Section RunnerFacts.
Context {World : Type} `{!Runner.Toolbox World}.

(** The result of one attempt that is no answer of the handler itself: a
    failure built by [tool_response], which has an error text. *)
Lemma _execute_single_attempt_cases (name : string) (input : gmap string Value)
    (w w1 : World) (result : ToolResult) :
  Runner._execute_single_attempt name input w = (result, w1) ->
  Runner.handler w name input = (Runner.HResponse result, w1) \/
  (exists msg, result = tool_response name false VNone (Some msg) /\
     exists a, Runner.handler w name input = (a, w1) /\
               forall r, a <> Runner.HResponse r).
Proof.
  unfold Runner._execute_single_attempt.
  destruct (Runner.handler w name input) as [[msg|elapsed| |r] w'];
    intros [= <- <-]; [right|right|right|by left]; eexists; (split; [done|]);
    eexists; (split; [done|]); done.
Qed.

(** The loop calls the handler at most once per iteration. *)
Lemma attempts_calls (remaining : nat) (attempt allowed : Z) (det : bool) (name : string)
    (input : gmap string Value) (w w' : World) (calls calls' : nat)
    (res : Exn + ToolResult) :
  Runner.attempts remaining attempt allowed det name input w calls = ((res, w'), calls') ->
  (calls <= calls' <= calls + remaining)%nat /\ (calls' = calls -> w' = w).
Proof.
  revert attempt w calls. induction remaining as [|remaining IH]; intros attempt w calls.
  - cbn [Runner.attempts]. intros [= <- <- <-]. split; [lia | done].
  - cbn [Runner.attempts].
    destruct (Runner._execute_single_attempt name input w) as [result w1].
    destruct (tr_success result); [intros [= <- <- <-]; split; lia|].
    destruct (Runner._is_tool_declared_failure result).
    { destruct (tr_error result) as [[m|]|]; intros [= <- <- <-]; split; lia. }
    destruct (det || bool_decide (attempt >= allowed)); [intros [= <- <- <-]; split; lia|].
    intros Hrun. apply IH in Hrun. split; lia.
Qed.

(** X14.  [run_tool] calls the handler of the tool at most
    [attempts_allowed] times: once for a deterministic tool, at most
    [max_retries + 1] times otherwise; and not at all, leaving the outside
    world as it is, for a tool that is not registered or for arguments that
    the schema refuses. *)
Theorem run_tool_calls_bounded (w : World) (name : string) (args : gmap string Value) :
  let '((_, w'), calls) := Runner.run_tool w name args in
  match Runner.registry !! name with
  | None => calls = O /\ w' = w
  | Some entry =>
      Z.of_nat calls <= Z.max 0 (Runner.attempts_allowed entry) /\
      (Runner.deterministic entry = true -> (calls <= 1)%nat) /\
      (Runner.schema name args = None -> calls = O /\ w' = w)
  end.
Proof.
  unfold Runner.run_tool.
  destruct (Runner.registry !! name) as [entry|]; [|done].
  destruct (Runner.schema name args) as [input|].
  - unfold Runner._execute_with_retries.
    destruct (Runner.attempts _ _ _ _ _ _ _ _) as [[res w'] calls] eqn:Hrun.
    apply attempts_calls in Hrun as [Hcalls _]. split_and!; [lia | | done].
    intros Hdet. unfold Runner.attempts_allowed in Hcalls. rewrite Hdet in Hcalls.
    change (Z.to_nat 1) with 1%nat in Hcalls. lia.
  - split_and!; [lia | lia | done].
Qed.

(** Under the contract the first attempt is the last. *)
Lemma attempts_once (remaining : nat) (attempt allowed : Z) (det : bool) (name : string)
    (input : gmap string Value) (w : World) (calls : nat) :
  Runner.handlers_use_tool_response ->
  (snd (Runner.attempts remaining attempt allowed det name input w calls) <= S calls)%nat.
Proof.
  intros Hcontract. destruct remaining as [|remaining]; cbn [Runner.attempts]; [simpl; lia|].
  destruct (Runner._execute_single_attempt name input w) as [result w1] eqn:Hattempt.
  destruct (tr_success result) eqn:Hok; [simpl; lia|].
  assert (Hdeclared : Runner._is_tool_declared_failure result = true).
  { unfold Runner._is_tool_declared_failure. rewrite Hok. cbn [negb andb].
    apply bool_decide_eq_true.
    apply _execute_single_attempt_cases in Hattempt as [Hh|(msg & -> & _)]; [|by eexists].
    by eapply Hcontract. }
  rewrite Hdeclared. destruct (tr_error result) as [[m|]|]; simpl; lia.
Qed.

(** X15.  When the handlers build their results with [tool_response],
    [run_tool] never retries: whatever [max_retries] says, the handler is
    called at most once.  An attempt that raises, that exceeds the timeout
    or that returns no valid response yields a failure with an error text,
    and every failure that has the key "error" counts as declared by the
    tool and is returned at once. *)
Theorem run_tool_never_retries (w : World) (name : string) (args : gmap string Value) :
  Runner.handlers_use_tool_response ->
  (snd (Runner.run_tool w name args) <= 1)%nat.
Proof.
  intros Hcontract. unfold Runner.run_tool.
  destruct (Runner.registry !! name) as [entry|]; [|simpl; lia].
  destruct (Runner.schema name args) as [input|]; [|simpl; lia].
  by apply attempts_once.
Qed.

Lemma timeout_message_transient (elapsed : string) (t : option string) :
  classify_failure ("Timeout exceeded (" ++ elapsed ++ ")") t = TRANSIENT.
Proof. vm_compute. reflexivity. Qed.

(** X16.  A handler that returns after more than its timeout, for a
    registered tool with a non-negative [max_retries] and accepted
    arguments: [run_tool] does not call it again and returns a failure
    whose error text begins with "Timeout exceeded"; [classify_failure]
    takes this for TRANSIENT, so that it is the recovery loop that retries,
    by running the plan again. *)
Theorem run_tool_timeout_transient (w w1 : World) (name : string)
    (args input : gmap string Value) (entry : Runner.ToolEntry) (elapsed : string) :
  Runner.registry !! name = Some entry ->
  0 <= Runner.max_retries entry ->
  Runner.schema name args = Some input ->
  Runner.handler w name input = (Runner.HLate elapsed, w1) ->
  exists msg,
    Runner.run_tool w name args
    = ((inr (tool_response name false VNone (Some msg)), w1), 1%nat) /\
    msg = "Timeout exceeded (" ++ elapsed ++ ")" /\
    forall t, classify_failure msg t = TRANSIENT.
Proof.
  intros Hentry Hretries Hschema Hlate. eexists. split_and!; [|done|].
  - unfold Runner.run_tool, Runner._execute_with_retries. rewrite Hentry, Hschema.
    assert (Hallowed : exists n, Z.to_nat (Runner.attempts_allowed entry) = S n).
    { unfold Runner.attempts_allowed. destruct (Runner.deterministic entry).
      - by exists 0%nat.
      - exists (Z.to_nat (Runner.max_retries entry)). lia. }
    destruct Hallowed as [n ->]. cbn [Runner.attempts].
    unfold Runner._execute_single_attempt. rewrite Hlate. done.
  - intros t. apply timeout_message_transient.
Qed.

(** How the loop can raise. *)
Lemma attempts_raises (remaining : nat) (attempt allowed : Z) (det : bool) (name : string)
    (input : gmap string Value) (w w' : World) (calls calls' : nat) (e : Exn) :
  Runner.attempts remaining attempt allowed det name input w calls = ((inl e, w'), calls') ->
  e = TypeError "'NoneType' object is not subscriptable" /\
  exists w0 result,
    Runner.handler w0 name input = (Runner.HResponse result, w') /\
    tr_success result = false /\ tr_error result = Some None.
Proof.
  revert attempt w calls. induction remaining as [|remaining IH]; intros attempt w calls;
    cbn [Runner.attempts]; [done|].
  destruct (Runner._execute_single_attempt name input w) as [result w1] eqn:Hattempt.
  destruct (tr_success result) eqn:Hok; [done|].
  destruct (Runner._is_tool_declared_failure result).
  - destruct (tr_error result) as [[m|]|] eqn:Herr; intros [= <- <- <-]. split; [done|].
    apply _execute_single_attempt_cases in Hattempt as [Hh|(msg & -> & _)]; [|done].
    by exists w, result.
  - destruct (det || bool_decide (attempt >= allowed)); [done|]. apply IH.
Qed.

(** X17.  [run_tool] raises in one case only: the handler returned a
    failure whose "error" is [None], and the log line written for a
    tool-declared failure slices this value.  What is raised is the
    [TypeError] of that slice; an exception of the handler itself never
    leaves [run_tool]. *)
Theorem run_tool_raises_only_on_silent_failure (w w' : World) (name : string)
    (args : gmap string Value) (calls : nat) (e : Exn) :
  Runner.run_tool w name args = ((inl e, w'), calls) ->
  e = TypeError "'NoneType' object is not subscriptable" /\
  exists input w0 result,
    Runner.schema name args = Some input /\
    Runner.handler w0 name input = (Runner.HResponse result, w') /\
    tr_success result = false /\ tr_error result = Some None.
Proof.
  unfold Runner.run_tool, Runner._execute_with_retries.
  destruct (Runner.registry !! name) as [entry|]; [|done].
  destruct (Runner.schema name args) as [input|]; [|done].
  intros (He & w0 & result & Hrest)%attempts_raises. split; [done|].
  by exists input, w0, result.
Qed.

End RunnerFacts.

Lemma run_tool_never_retries_witness :
  (snd (@Runner.run_tool nat (Runner.declaring_toolbox "No results found") 0%nat
          "web_search" ∅) <= 1)%nat.
Proof.
  apply (@run_tool_never_retries nat (Runner.declaring_toolbox "No results found")).
  intros w name input result w' [= <- _]. by eexists.
Defined.

Lemma run_tool_timeout_transient_witness :
  exists msg,
    @Runner.run_tool nat Runner.late_toolbox 0%nat "weather" ∅
    = ((inr (tool_response "weather" false VNone (Some msg)), 1%nat), 1%nat) /\
    msg = "Timeout exceeded (31.50s > 30.0s)" /\
    forall t, classify_failure msg t = TRANSIENT.
Proof.
  apply (@run_tool_timeout_transient nat Runner.late_toolbox 0%nat 1%nat "weather" ∅ ∅
           {| Runner.max_retries := 1; Runner.deterministic := false |} "31.50s > 30.0s");
    [by vm_compute | simpl; lia | reflexivity | reflexivity].
Defined.

Lemma run_tool_raises_only_on_silent_failure_witness :
  exists e w' calls,
    @Runner.run_tool nat Runner.silent_toolbox 0%nat "weather" ∅ = ((inl e, w'), calls) /\
    e = TypeError "'NoneType' object is not subscriptable" /\
    exists input w0 result,
      @Runner.schema nat Runner.silent_toolbox "weather" ∅ = Some input /\
      @Runner.handler nat Runner.silent_toolbox w0 "weather" input
      = (Runner.HResponse result, w') /\
      tr_success result = false /\ tr_error result = Some None.
Proof.
  exists (TypeError "'NoneType' object is not subscriptable"), 1%nat, 1%nat.
  assert (Hrun : @Runner.run_tool nat Runner.silent_toolbox 0%nat "weather" ∅
                 = ((inl (TypeError "'NoneType' object is not subscriptable"), 1%nat),
                    1%nat)) by (by vm_compute).
  split; [exact Hrun|].
  exact (@run_tool_raises_only_on_silent_failure nat Runner.silent_toolbox 0%nat 1%nat
           "weather" ∅ 1%nat _ Hrun).
Defined.

Section RunnerExecutor.
Context {World : Type} `{!Runner.Toolbox World}.
Variable planner : World -> string -> ReplanContext -> (Exn + PlannerOutput) * World.
Variable quota_check : World -> string -> (Exn + bool) * World.
Variable quota_record : World -> string -> (Exn + unit) * World.

(** A successful result of the loop is an answer of the handler. *)
Lemma attempts_success (remaining : nat) (attempt allowed : Z) (det : bool) (name : string)
    (input : gmap string Value) (w w' : World) (calls calls' : nat) (result : ToolResult) :
  Runner.attempts remaining attempt allowed det name input w calls
  = ((inr result, w'), calls') ->
  tr_success result = true ->
  exists w0, Runner.handler w0 name input = (Runner.HResponse result, w').
Proof.
  revert attempt w calls. induction remaining as [|remaining IH]; intros attempt w calls;
    cbn [Runner.attempts]; [by intros [= <- <- <-]|].
  destruct (Runner._execute_single_attempt name input w) as [r w1] eqn:Hattempt.
  destruct (tr_success r) eqn:Hok.
  - intros [= <- <- <-] _.
    apply _execute_single_attempt_cases in Hattempt as [Hh|(msg & -> & _)]; [|done].
    by exists w.
  - destruct (Runner._is_tool_declared_failure r).
    { destruct (tr_error r) as [[m|]|]; intros [= <- <- <-]; congruence. }
    destruct (det || bool_decide (attempt >= allowed)); [intros [= <- <- <-]; congruence|].
    apply IH.
Qed.

Lemma runner_tools_well_behaved :
  Runner.handlers_carry_value ->
  @tools_well_behaved World (runner_collaborators planner quota_check quota_record).
Proof.
  intros Hvalue w name args id. cbn [run_tool runner_collaborators].
  unfold Runner.run_tool, Runner._execute_with_retries.
  destruct (Runner.registry !! name) as [entry|]; [|done].
  destruct (Runner.schema name args) as [input|]; [|done].
  destruct (Runner.attempts _ _ _ _ _ _ _ _) as [[[e|result] w'] calls] eqn:Hrun;
    cbn [fst].
  - by apply attempts_raises in Hrun as [-> _].
  - intros Hok. destruct (attempts_success _ _ _ _ _ _ _ _ _ _ _ Hrun Hok) as [w0 Hh].
    by eapply Hvalue.
Qed.

(** X18.  Executor and runner together: when the tools of a plan are run
    by [run_tool] and every response of a handler that reports success
    carries [data.value], a possible plan that has passed the schema and
    the dependency checks never ends with [error_type]
    "dependency_resolution"; the failures that [run_tool] builds itself
    and what it raises do not disturb this. *)
Theorem runner_plan_resolves (w : World) (plan : PlannerOutput) :
  Runner.handlers_carry_value ->
  plan_status plan = "possible" ->
  _validate_schema plan = None ->
  _validate_dependencies plan = None ->
  md_error_type
    (metadata (fst (@execute_plan World
                      (runner_collaborators planner quota_check quota_record) w plan)))
  <> Some "dependency_resolution".
Proof.
  intros Hvalue. by apply execute_plan_resolves, runner_tools_well_behaved.
Qed.

End RunnerExecutor.

Lemma runner_plan_resolves_witness :
  md_error_type
    (metadata
       (fst (@execute_plan nat
               (@runner_collaborators nat
                  (Runner.constant_toolbox (VStr "2026-01-29 00:00:00"))
                  (fun w _ _ => (inl (OtherException "planner unavailable"), w))
                  (fun w _ => (inr true, w)) (fun w _ => (inr tt, w)))
               0%nat Scenario.plan_chain)))
  <> Some "dependency_resolution".
Proof.
  apply (@runner_plan_resolves nat (Runner.constant_toolbox (VStr "2026-01-29 00:00:00")));
    [|reflexivity | by vm_compute | by vm_compute].
  intros w name input result w' [= <- _] _. by eexists.
Defined.

(* ===================================================================== *)
(** * Quota manager: what the usage file accounts for                      *)
(* ===================================================================== *)

Section UsageFacts.
Variable call_limits : gmap string Z.

Local Abbreviation can_call := (Usage.can_call call_limits).
Local Abbreviation record_call := (Usage.record_call call_limits).
Local Abbreviation get_usage_today := Usage.get_usage_today.
Local Abbreviation get_remaining_calls := (Usage.get_remaining_calls call_limits).
Local Abbreviation after := (Usage.after call_limits).

(** X19.  The two views of the quota agree: [can_call] grants a call
    exactly when [get_remaining_calls] reports a positive number, for a
    model that the usage file lists as for one that it does not list yet. *)
Theorem can_call_iff_remaining (file : Usage.File) (model : string) :
  fst (can_call file model) = true <-> 0 < fst (get_remaining_calls file model).
Proof.
  unfold Usage.can_call, Usage.get_remaining_calls.
  destruct (Usage._load_today file) as [models file1].
  destruct (models !! model) as [entry|]; cbn [fst].
  - rewrite bool_decide_eq_true. lia.
  - rewrite bool_decide_eq_true. cbn. lia.
Qed.

(** One call: the entry of a listed model keeps its limit, and its count
    grows by one exactly for [record_call] on this model. *)
Lemma after_entry (models : gmap string Usage.ModelUsage) (model : string)
    (entry : Usage.ModelUsage) (c : Usage.Call) :
  models !! model = Some entry ->
  exists models',
    after (Some models) c = Some models' /\
    models' !! model
    = Some {| Usage.used_calls := Usage.used_calls entry + Usage.recorded model [c];
              Usage.call_limit := Usage.call_limit entry |}.
Proof.
  intros Hentry. destruct entry as [used limit]. destruct c as [m|m|m|m]; cbn.
  - unfold Usage.can_call. cbn. destruct (models !! m) as [e|] eqn:Hm; cbn.
    + exists models. by rewrite Hentry, Z.add_0_r.
    + eexists. split; [done|]. rewrite lookup_insert_ne by congruence.
      by rewrite Hentry, Z.add_0_r.
  - unfold Usage.record_call. cbn. eexists. split; [done|].
    destruct (decide (m = model)) as [->|Hne].
    + rewrite lookup_insert_eq, Hentry. cbn. by rewrite Z.add_0_r.
    + rewrite lookup_insert_ne by done. by rewrite Hentry, !Z.add_0_r.
  - exists models. by rewrite Hentry, Z.add_0_r.
  - exists models. by rewrite Hentry, Z.add_0_r.
Qed.

Lemma after_entries (calls : list Usage.Call) (models : gmap string Usage.ModelUsage)
    (model : string) (entry : Usage.ModelUsage) :
  models !! model = Some entry ->
  exists models',
    foldl after (Some models) calls = Some models' /\
    models' !! model
    = Some {| Usage.used_calls := Usage.used_calls entry + Usage.recorded model calls;
              Usage.call_limit := Usage.call_limit entry |}.
Proof.
  revert models entry. induction calls as [|c calls IH]; intros models entry Hentry.
  - exists models. destruct entry. cbn. by rewrite Hentry, Z.add_0_r.
  - destruct (after_entry models model entry c Hentry) as (models1 & Hstep & Hentry1).
    destruct (IH models1 _ Hentry1) as (models' & Hrest & Hentry').
    assert (Hsplit : Usage.recorded model (c :: calls)
                     = Usage.recorded model [c] + Usage.recorded model calls).
    { destruct c; cbn; lia. }
    exists models'. cbn [foldl]. rewrite Hstep. split; [done|]. rewrite Hentry', Hsplit.
    cbn [Usage.used_calls Usage.call_limit]. by rewrite Z.add_assoc.
Qed.

Lemma recorded_nonneg (model : string) (calls : list Usage.Call) :
  0 <= Usage.recorded model calls.
Proof. induction calls as [|[m|m|m|m] calls IH]; cbn; try case_decide; lia. Qed.

(** X20.  Once [can_call] has been asked about a model, the usage file
    lists the model, and from then on, whatever calls are made on the
    [QuotaManager]: the limit written at that moment stays in force, the
    count of used calls has grown by the number of [record_call]s for this
    model, and [can_call] compares the two.  In particular a quota that was
    refused is never granted again, and [record_call] itself never
    refuses. *)
Theorem usage_file_accounts (file : Usage.File) (model : string)
    (calls : list Usage.Call) :
  let file0 := snd (can_call file model) in
  let file' := foldl after file0 calls in
  exists used limit,
    fst (get_usage_today file0 model) = used /\
    fst (can_call file0 model) = bool_decide (used < limit) /\
    fst (get_usage_today file' model) = used + Usage.recorded model calls /\
    fst (can_call file' model) = bool_decide (used + Usage.recorded model calls < limit) /\
    (fst (can_call file model) = false -> fst (can_call file' model) = false).
Proof.
  cbv zeta.
  assert (Hlisted : exists models entry,
             snd (can_call file model) = Some models /\ models !! model = Some entry /\
             fst (can_call file model)
             = bool_decide (Usage.used_calls entry < Usage.call_limit entry)).
  { unfold Usage.can_call. destruct file as [models|]; cbn.
    - destruct (models !! model) as [entry|] eqn:Hentry; cbn.
      + by exists models, entry.
      + eexists _, _. split; [done|]. by rewrite lookup_insert_eq.
    - eexists _, _. split; [done|]. by rewrite lookup_insert_eq. }
  destruct Hlisted as (models & entry & -> & Hentry & Hfirst). rewrite Hfirst.
  destruct (after_entries calls models model entry Hentry) as (models' & -> & Hentry').
  exists (Usage.used_calls entry), (Usage.call_limit entry).
  unfold Usage.get_usage_today, Usage.can_call. cbn. rewrite Hentry, Hentry'. cbn.
  split_and!; try done.
  intros Hno%bool_decide_eq_false. apply bool_decide_eq_false.
  pose proof (recorded_nonneg model calls). lia.
Qed.

End UsageFacts.

(* ===================================================================== *)
(** * Token budget                                                         *)
(* ===================================================================== *)

(** X21.  The budget state that [track_cost] computes is "safe" below
    64000 tokens, "warning" from there up to 95999 and "danger" from 96000
    on; it is never "critical" or "exceeded", the two states for which
    [_determine_response_strategy] answers "compressed".  Hence the
    strategy that [run_agent] derives from the planner's cost is always
    "normal", and the same holds for a cost made by [aggregate_costs]. *)
Theorem response_strategy_always_normal :
  (forall prompt completion total,
     let cost := Cost.track_cost prompt completion total in
     (Cost.budget_state cost = "safe" <-> total < 64000) /\
     (Cost.budget_state cost = "warning" <-> 64000 <= total < 96000) /\
     (Cost.budget_state cost = "danger" <-> 96000 <= total) /\
     Cost._determine_response_strategy cost = "normal") /\
  (forall cost_dicts,
     Cost._determine_response_strategy (Cost.aggregate_costs cost_dicts) = "normal").
Proof.
  assert (Hstate : forall prompt completion total,
             let cost := Cost.track_cost prompt completion total in
             (Cost.budget_state cost = "safe" <-> total < 64000) /\
             (Cost.budget_state cost = "warning" <-> 64000 <= total < 96000) /\
             (Cost.budget_state cost = "danger" <-> 96000 <= total) /\
             Cost._determine_response_strategy cost = "normal").
  { intros prompt completion total. cbv zeta.
    unfold Cost._determine_response_strategy, Cost.track_cost. cbn [Cost.budget_state].
    unfold Cost.state_of, Cost.ratio_lt, Cost.utilization, Cost.MAX_CONTEXT_TOKENS,
      Cost.SAFE_LIMIT, Cost.WARNING_LIMIT. cbn [fst snd].
    rewrite (bool_decide_eq_true_2 (128000 > 0)) by lia. cbn [fst snd].
    destruct (bool_decide (total * 2 < 1 * 128000)) eqn:Hsafe.
    - apply bool_decide_eq_true in Hsafe. split_and!; try done; split; (done || lia).
    - apply bool_decide_eq_false in Hsafe.
      destruct (bool_decide (total * 4 < 3 * 128000)) eqn:Hwarn.
      + apply bool_decide_eq_true in Hwarn. split_and!; try done; split; (done || lia).
      + apply bool_decide_eq_false in Hwarn. split_and!; try done; split; (done || lia). }
  split; [exact Hstate|]. intros cost_dicts. apply Hstate.
Qed.

(* ===================================================================== *)
(** * Recovery loop and quota manager together                             *)
(* ===================================================================== *)

Section QuotaAccounting.
Context {W : Type} `{!ToolRules}.
Variable call_limits : gmap string Z.
Variable tool : W -> string -> gmap string Value -> Z -> (Exn + ToolResult) * W.
Variable planner : W -> string -> ReplanContext -> (Exn + PlannerOutput) * W.
Variables (max_retries max_replans : Z) (user_input : string).

Local Abbreviation collaborators := (quota_collaborators call_limits tool planner).
Local Abbreviation usage file := (fst (Usage.get_usage_today file Config.MODEL_NAME)).

Lemma get_usage_today_can_call (file : Usage.File) (model model' : string) :
  fst (Usage.get_usage_today (snd (Usage.can_call call_limits file model)) model')
  = fst (Usage.get_usage_today file model').
Proof.
  unfold Usage.get_usage_today, Usage.can_call. destruct file as [models|]; cbn.
  - destruct (models !! model) as [entry|] eqn:Hentry; cbn; [done|].
    destruct (decide (model = model')) as [<-|Hne].
    + by rewrite lookup_insert_eq, Hentry.
    + by rewrite lookup_insert_ne.
  - rewrite lookup_empty. cbn. destruct (decide (model = model')) as [<-|Hne].
    + by rewrite lookup_insert_eq, lookup_empty.
    + by rewrite lookup_insert_ne.
Qed.

Lemma get_usage_today_record_call (file : Usage.File) (model : string) :
  fst (Usage.get_usage_today (Usage.record_call call_limits file model) model)
  = fst (Usage.get_usage_today file model) + 1.
Proof.
  unfold Usage.get_usage_today, Usage.record_call. destruct file as [models|]; cbn.
  - rewrite lookup_insert_eq. by destruct (models !! model).
  - by rewrite lookup_insert_eq, lookup_empty.
Qed.

(** The Executor does not touch the usage file. *)
Lemma execute_steps_file (l : list Step) (st st' : ExecState) (s s' : Usage.File * W)
    (exit : LoopExit) :
  @execute_steps _ collaborators l st s = ((exit, st'), s') -> fst s' = fst s.
Proof.
  revert st s. induction l as [|step l IH]; intros st s; cbn [execute_steps].
  - by intros [= _ _ <-].
  - unfold _execute_single_step. cbn [run_tool quota_collaborators].
    destruct (if bool_decide (dependencies step ≠ []) then _ else _) as [e|args];
      [by intros [= _ _ <-]|].
    destruct (tool (snd s) (tool_name step) args (step_id step)) as [[e|result] w'];
      [by intros [= _ _ <-]|].
    cbn [sr_success sr_data]. destruct (tr_success result); cbn [negb].
    + intros Hrun%IH. done.
    + destruct (tr_error result) as [[m|]|]; by intros [= _ _ <-].
Qed.

Lemma execute_plan_file (s s' : Usage.File * W) (plan : PlannerOutput)
    (output : ExecutionResult) :
  @execute_plan _ collaborators s plan = (output, s') -> fst s' = fst s.
Proof.
  rewrite execute_plan_state_fst. unfold execute_plan_state.
  destruct (bool_decide (plan_status plan = "impossible")); [by intros [= _ <-]|].
  destruct (execute_steps (steps plan) exec_init s) as [[exit st] s1] eqn:Hrun.
  apply execute_steps_file in Hrun. destruct exit; by intros [= _ <-].
Qed.

(** Nor does the Replanner. *)
Lemma replan_gateway_file (s s' : Usage.File * W) (plan : PlannerOutput)
    (output : ExecutionResult) (answer : ReplanFault + PlannerOutput) :
  @replan_gateway _ collaborators _ s plan output user_input = (answer, s') ->
  fst s' = fst s.
Proof.
  unfold replan_gateway. cbv zeta. cbn [plan_gateway_replan quota_collaborators].
  destruct (planner (snd s) user_input _) as [[e|candidate] w']; [by intros [= _ <-]|].
  destruct (_validate_tools_exist (steps candidate)); [by intros [= _ <-]|].
  destruct (validate_plan candidate user_input); by intros [= _ <-].
Qed.

Lemma recovery_loop_usage (fuel : nat) (plan : PlannerOutput)
    (retries : gmap (option Z) Z) (replans : Z) (tr : list Event)
    (s s' : Usage.File * W) (r : RecoveryRun) :
  @recovery_loop _ collaborators _ max_retries max_replans user_input fuel plan retries
    replans tr s = Some (r, s') ->
  usage (fst s') + count_events is_replanned tr
  = usage (fst s) + count_events is_replanned (trace r).
Proof.
  revert plan retries replans tr s.
  induction fuel as [|fuel IH]; intros plan retries replans tr s Hrun; [done|].
  rewrite recovery_loop_unfold in Hrun.
  destruct (execute_plan s plan) as [output s1] eqn:Hexec. cbv zeta in Hrun.
  apply execute_plan_file in Hexec.
  destruct (bool_decide (execution_status output = "completed")).
  { simplify_eq. cbn [trace]. rewrite count_events_app. cbn. rewrite Hexec. lia. }
  destruct (classify_failure _ _).
  - destruct (bool_decide _).
    + apply IH in Hrun. rewrite !count_events_app in Hrun. cbn in Hrun.
      rewrite Hexec in Hrun. lia.
    + simplify_eq. cbn [trace]. rewrite count_events_app. cbn. rewrite Hexec. lia.
  - destruct (bool_decide (replans < max_replans)).
    + cbn [can_call record_call quota_collaborators] in Hrun.
      pose proof (get_usage_today_can_call (fst s1) Config.MODEL_NAME Config.MODEL_NAME)
        as Hcheck.
      destruct (Usage.can_call call_limits (fst s1) Config.MODEL_NAME) as [[|] file2];
        cbn [snd] in Hcheck.
      * destruct (replan_gateway (file2, snd s1) plan output user_input)
          as [[f|plan'] s3] eqn:Hgate.
        -- apply replan_gateway_file in Hgate. simplify_eq. cbn [trace fst] in *.
           rewrite !count_events_app, Hgate, Hcheck, Hexec. cbn. lia.
        -- apply replan_gateway_file in Hgate. apply IH in Hrun.
           rewrite !count_events_app in Hrun. cbn [fst snd] in Hrun, Hgate.
           rewrite get_usage_today_record_call, Hgate, Hcheck, Hexec in Hrun.
           cbn in Hrun. lia.
      * simplify_eq. cbn [trace fst] in *.
        rewrite !count_events_app, Hcheck, Hexec. cbn. lia.
    + simplify_eq. cbn [trace]. rewrite count_events_app. cbn. rewrite Hexec. lia.
  - simplify_eq. cbn [trace]. rewrite count_events_app. cbn. rewrite Hexec. lia.
Qed.

(** X22.  The recovery loop and the quota manager together: over a run of
    [run_with_recovery] the count of used calls of the model grows by the
    number of replans that put a new plan in place.  A call of the
    Replanner that raises, by the planner or by the validation of its
    answer, is a call that the usage file does not record; and neither the
    Executor nor the quota checks change the count. *)
Theorem recovery_records_successful_replans (fuel : nat) (file file' : Usage.File)
    (w w' : W) (plan : PlannerOutput) (r : RecoveryRun) :
  @run_with_recovery_from _ collaborators _ max_retries max_replans user_input fuel
    (file, w) plan = Some (r, (file', w')) ->
  fst (Usage.get_usage_today file' Config.MODEL_NAME)
  = fst (Usage.get_usage_today file Config.MODEL_NAME)
    + count_events is_replanned (trace r) /\
  count_events is_replanned (trace r) <= replan_calls (trace r).
Proof.
  intros Hrun. split.
  - apply recovery_loop_usage in Hrun. cbn in Hrun. lia.
  - by destruct (run_facts _ _ _ _ _ _ _ _ Hrun).
Qed.

End QuotaAccounting.

Lemma recovery_records_successful_replans_witness :
  exists r file' w',
    @run_with_recovery_from _
      (quota_collaborators {[ Config.MODEL_NAME := 20 ]}
         (fun (w : nat) name _ _ => (inr (Scenario.type_failure name), S w))
         (fun w _ _ => (inr Scenario.plan_one, S w)))
      Scenario.permissive Config.MAX_RETRIES_PER_STEP Config.MAX_REPLANS_PER_RUN
      "current date" 10 (None, 0%nat) Scenario.plan_one
    = Some (r, (file', w')) /\
    fst (Usage.get_usage_today file' Config.MODEL_NAME)
    = fst (Usage.get_usage_today None Config.MODEL_NAME)
      + count_events is_replanned (trace r) /\
    count_events is_replanned (trace r) <= replan_calls (trace r).
Proof.
  destruct (@run_with_recovery_from _
              (quota_collaborators {[ Config.MODEL_NAME := 20 ]}
                 (fun (w : nat) name _ _ => (inr (Scenario.type_failure name), S w))
                 (fun w _ _ => (inr Scenario.plan_one, S w)))
              Scenario.permissive Config.MAX_RETRIES_PER_STEP Config.MAX_REPLANS_PER_RUN
              "current date" 10 (None, 0%nat) Scenario.plan_one)
    as [[r [file' w']]|] eqn:Hrun; [|vm_compute in Hrun; discriminate].
  exists r, file', w'. split; [reflexivity|].
  exact (recovery_records_successful_replans _ _ _ _ _ _ _ _ _ _ _ _ _ Hrun).
Defined.

(* ===================================================================== *)
(** * run_agent: termination and what a request costs                      *)
(* ===================================================================== *)

Section RunAgentFacts.
Context {World : Type} `{!Collaborators World} `{!ToolRules} `{!Frontend World}.

(** X23.  [run_agent] returns or raises for every input and every
    behaviour of the planner, the tools, the responder and the quota: the
    recovery loop inside it ends; and more fuel does not change the
    outcome. *)
Theorem run_agent_terminates (w : World) (user_input : string) :
  exists fuel outcome w',
    run_agent fuel w user_input = Some (outcome, w') /\
    forall fuel', (fuel <= fuel')%nat -> run_agent fuel' w user_input = Some (outcome, w').
Proof.
  unfold run_agent.
  destruct (_validate_user_input user_input) as [msg|]; [by exists 0%nat; eexists _, _|].
  destruct (can_call w Config.MODEL_NAME) as [[e|[|]] w1];
    [by exists 0%nat; eexists _, _ | | by exists 0%nat; eexists _, _].
  destruct (plan_gateway_plan w1 user_input) as [[e|[planner_output planner_usage]] w2];
    [by exists 0%nat; eexists _, _|].
  destruct (record_call w2 Config.MODEL_NAME) as [[e|u] w3];
    [by exists 0%nat; eexists _, _|].
  cbv zeta. destruct (validate_plan planner_output user_input) as [f|normalized_plan];
    [by exists 0%nat; eexists _, _|].
  destruct (run_returns Config.MAX_RETRIES_PER_STEP Config.MAX_REPLANS_PER_RUN user_input
              w3 normalized_plan) as (fuel & [run w4] & Hrun).
  assert (Hmono : forall fuel', (fuel <= fuel')%nat ->
             run_with_recovery fuel' w3 user_input normalized_plan = Some (run, w4)).
  { intros fuel' Hle. by eapply recovery_loop_fuel_mono. }
  exists fuel.
  destruct (can_call w4 Config.MODEL_NAME) as [[e|[|]] w5] eqn:Hquota.
  - eexists _, _. split.
    + rewrite (Hmono fuel) by done. by rewrite Hquota.
    + intros fuel' Hle. by rewrite (Hmono fuel' Hle), Hquota.
  - destruct (Responder.respond w5 (final_plan run) (executor_output run)
                (Cost._determine_response_strategy (cost_of planner_usage)))
      as [[text usage] w6] eqn:Hrespond.
    destruct (record_call w6 Config.MODEL_NAME) as [[e|u'] w7] eqn:Hrecord.
    + eexists _, _. split.
      * rewrite (Hmono fuel) by done. rewrite Hquota, Hrespond, Hrecord. done.
      * intros fuel' Hle. rewrite (Hmono fuel' Hle), Hquota, Hrespond, Hrecord. done.
    + eexists _, _. split.
      * rewrite (Hmono fuel) by done. rewrite Hquota, Hrespond, Hrecord. done.
      * intros fuel' Hle. rewrite (Hmono fuel' Hle), Hquota, Hrespond, Hrecord. done.
  - eexists _, _. split.
    + rewrite (Hmono fuel) by done. by rewrite Hquota.
    + intros fuel' Hle. by rewrite (Hmono fuel' Hle), Hquota.
Qed.

End RunAgentFacts.

Section RequestCost.
Context {W : Type} `{!ToolRules}.
Variable call_limits : gmap string Z.
Variable tool : W -> string -> gmap string Value -> Z -> (Exn + ToolResult) * W.
Variable replanner : W -> string -> ReplanContext -> (Exn + PlannerOutput) * W.
Variable planner : W -> string -> (Exn + (PlannerOutput * Tokens)) * W.
Variable responder :
  W -> PlannerOutput -> ExecutionResult -> string -> (Exn + (string * (Z * Z))) * W.
Variable format : string -> string.

Local Abbreviation collaborators := (quota_collaborators call_limits tool replanner).
Local Abbreviation frontend := (quota_frontend planner responder format).
Local Abbreviation usage file := (fst (Usage.get_usage_today file Config.MODEL_NAME)).

(** The responder does not touch the usage file. *)
Lemma respond_file (s s' : Usage.File * W) (plan : PlannerOutput)
    (result : ExecutionResult) (strategy : string) (answer : string * Tokens) :
  @Responder.respond _ frontend s plan result strategy = (answer, s') -> fst s' = fst s.
Proof.
  unfold Responder.respond, Responder._handle_failed, Responder._handle_completed.
  cbn [llm_responder quota_frontend].
  destruct (bool_decide (execution_status result = "skipped")); [by intros [= _ <-]|].
  destruct (responder (snd s) plan result strategy) as [[e|[text tokens]] w'];
    destruct (bool_decide (execution_status result = "failed")); by intros [= _ <-].
Qed.

(** X24.  What a request costs in recorded calls when the quota is kept
    by a [QuotaManager]: [run_agent] never lowers the count of used calls
    of the model and raises it by at most 3, one call for the planner,
    one for the responder and at most [MAX_REPLANS_PER_RUN] for replans;
    an answered request costs at least 2, also when the responder answered
    from a template; and a request that stops on invalid input costs
    nothing and leaves the outside world as it is. *)
Theorem run_agent_recorded_calls (fuel : nat) (file file' : Usage.File) (w w' : W)
    (user_input : string) (outcome : AgentOutcome) :
  @run_agent _ collaborators _ frontend fuel (file, w) user_input
  = Some (outcome, (file', w')) ->
  usage file <= usage file' <= usage file + 3 /\
  (forall response run_cost, outcome = Answered response run_cost ->
     usage file + 2 <= usage file') /\
  (forall msg, outcome = AgentRaised (InputError msg) -> file' = file /\ w' = w).
Proof.
  unfold run_agent.
  destruct (_validate_user_input user_input) as [msg|].
  { intros [= <- <- <-]. split_and!; [lia | lia | done | done]. }
  cbn [can_call record_call quota_collaborators plan_gateway_plan quota_frontend fst snd].
  pose proof (get_usage_today_can_call call_limits file Config.MODEL_NAME Config.MODEL_NAME)
    as Hfirst.
  destruct (Usage.can_call call_limits file Config.MODEL_NAME) as [[|] file1];
    cbn [snd] in Hfirst; [|intros [= <- <- <-]; split_and!; [lia | lia | done | done]].
  cbn [fst snd].
  destruct (planner w user_input) as [[e|[planner_output planner_usage]] w2].
  { destruct e; intros [= <- <- <-]; split_and!; (lia || done). }
  cbv zeta. cbn [fst snd].
  pose proof (get_usage_today_record_call call_limits file1 Config.MODEL_NAME) as Hplanner.
  destruct (validate_plan planner_output user_input) as [f|normalized_plan].
  { intros [= <- <- <-]. split_and!; (lia || done). }
  destruct (run_with_recovery fuel _ user_input normalized_plan) as [[run [file4 w4]]|]
    eqn:Hrun; [|done].
  pose proof (run_facts _ _ _ _ _ _ _ _ Hrun) as [_ _ _ Hreplanned Hreplans Hrange _ _].
  pose proof (count_events_nonneg is_replanned (trace run)) as Hnonneg.
  pose proof (count_events_nonneg is_quota_denied (trace run)) as Hdenied.
  pose proof (count_events_nonneg is_quota_raised (trace run)) as Hraised.
  apply recovery_loop_usage in Hrun. cbn [fst count_events] in Hrun.
  change Config.MAX_REPLANS_PER_RUN with 1 in Hrange.
  unfold quota_denials in Hreplans. cbn [fst snd].
  pose proof (get_usage_today_can_call call_limits file4 Config.MODEL_NAME Config.MODEL_NAME)
    as Hsecond.
  destruct (Usage.can_call call_limits file4 Config.MODEL_NAME) as [[|] file5];
    cbn [snd] in Hsecond; [|intros [= <- <- <-]; split_and!; (lia || done)].
  cbn [fst snd].
  destruct (Responder.respond _ _ _ _) as [[text usage_r] [file6 w6]] eqn:Hrespond.
  apply respond_file in Hrespond. cbn [fst] in Hrespond. subst file6.
  pose proof (get_usage_today_record_call call_limits file5 Config.MODEL_NAME) as Hresponder.
  intros [= <- <- <-]. split_and!; (lia || done).
Qed.



End RequestCost.

Lemma run_agent_recorded_calls_witness :
  exists outcome file' w',
    @run_agent _
      (quota_collaborators {[ Config.MODEL_NAME := 20 ]}
         (fun (w : nat) name _ _ => (inr (Scenario.success name), S w))
         (fun w _ _ => (inr Scenario.plan_one, S w)))
      Scenario.permissive
      (quota_frontend
         (fun w _ => (inr (Scenario.plan_one,
                           {| tk_prompt := 900; tk_completion := 100; tk_total := 1000 |}),
                      S w))
         (fun w _ _ _ => (inr ("Today is 2026-01-29.", (400, 50)), S w))
         (fun text => text))
      10 (None, 0%nat) "current date"
    = Some (outcome, (file', w')) /\
    fst (Usage.get_usage_today None Config.MODEL_NAME)
    <= fst (Usage.get_usage_today file' Config.MODEL_NAME)
    <= fst (Usage.get_usage_today None Config.MODEL_NAME) + 3 /\
    (forall response run_cost, outcome = Answered response run_cost ->
       fst (Usage.get_usage_today None Config.MODEL_NAME) + 2
       <= fst (Usage.get_usage_today file' Config.MODEL_NAME)) /\
    (forall msg, outcome = AgentRaised (InputError msg) -> file' = None /\ w' = 0%nat).
Proof.
  destruct (@run_agent _
              (quota_collaborators {[ Config.MODEL_NAME := 20 ]}
                 (fun (w : nat) name _ _ => (inr (Scenario.success name), S w))
                 (fun w _ _ => (inr Scenario.plan_one, S w)))
              Scenario.permissive
              (quota_frontend
                 (fun w _ => (inr (Scenario.plan_one,
                                   {| tk_prompt := 900; tk_completion := 100;
                                      tk_total := 1000 |}),
                              S w))
                 (fun w _ _ _ => (inr ("Today is 2026-01-29.", (400, 50)), S w))
                 (fun text => text))
              10 (None, 0%nat) "current date")
    as [[outcome [file' w']]|] eqn:Hrun; [|vm_compute in Hrun; discriminate].
  exists outcome, file', w'. split; [reflexivity|].
  exact (run_agent_recorded_calls _ _ _ _ _ _ _ _ _ _ _ _ _ Hrun).
Defined.

